(** * ludoj-scraper: typed items, value processors and the request chain

    A shallow embedding of [ludoj/items.py], [ludoj_scraper/spiders/bga.py],
    [ludoj/spiders/luding.py] and [board_game_scraper/__main__.py].  Python values are a tagged union,
    dictionaries are finite maps, exceptions are an explicit result type and
    the mutation of an item by [__setitem__] is explicit state passing: a
    failed assignment still returns the item it left behind. *)

From Stdlib Require Import ZArith String Ascii Bool List Floats Uint63 Lia.
From stdpp Require Import gmap strings list fin_maps pretty sorting.

Local Open Scope string_scope.
Local Open Scope Z_scope.
Set Warnings "-register-all".

(** ** Python values *)

Module Py.

(** The classes that occur as [dtype] of a field or as the type of a value. *)
Inductive pytype : Type :=
  | TNoneType | TBool | TInt | TFloat | TStr | TList | TDict | TDatetime.

(** Timestamps are kept as calendar fields. *)
Record datetime : Type := mkDatetime {
  dt_year : Z; dt_month : Z; dt_day : Z;
  dt_hour : Z; dt_minute : Z; dt_second : Z }.

Inductive pyval : Type :=
  | VNone
  | VBool (b : bool)
  | VInt (z : Z)
  | VFloat (x : float)
  | VStr (s : string)
  | VList (l : list pyval)
  | VDict (d : list (string * pyval))
  | VDatetime (t : datetime).

(** A Python callable of one argument.  The callables stored in field
    declarations are the normalizers of the code base, which report failure
    by returning [None]; exceptions raised inside a callable are outside
    this model. *)
Definition callable : Type := pyval -> pyval.

Definition type_of (v : pyval) : pytype :=
  match v with
  | VNone => TNoneType
  | VBool _ => TBool
  | VInt _ => TInt
  | VFloat _ => TFloat
  | VStr _ => TStr
  | VList _ => TList
  | VDict _ => TDict
  | VDatetime _ => TDatetime
  end.

Definition pytype_eqb (a b : pytype) : bool :=
  match a, b with
  | TNoneType, TNoneType | TBool, TBool | TInt, TInt | TFloat, TFloat
  | TStr, TStr | TList, TList | TDict, TDict | TDatetime, TDatetime => true
  | _, _ => false
  end.

(** [issubclass a b]: every class is its own subclass, and [bool] is a
    subclass of [int]. *)
Definition issubclass (a b : pytype) : bool :=
  pytype_eqb a b ||
  match a, b with
  | TBool, TInt => true
  | _, _ => false
  end.

(** [isinstance(v, t)] for a single class [t]. *)
Definition isinstance (v : pyval) (t : pytype) : bool :=
  issubclass (type_of v) t.

(** [v is None] *)
Definition is_none (v : pyval) : bool :=
  match v with VNone => true | _ => false end.

(** [bool(v)]: the truth value Python gives to [v]. *)
Definition truthy (v : pyval) : bool :=
  match v with
  | VNone => false
  | VBool b => b
  | VInt z => negb (Z.eqb z 0)
  | VFloat x => negb (PrimFloat.eqb x 0%float)
  | VStr s => negb (String.eqb s "")
  | VList l => match l with [] => false | _ => true end
  | VDict d => match d with [] => false | _ => true end
  | VDatetime _ => true
  end.

(** [a or b] *)
Definition py_or (a b : pyval) : pyval := if truthy a then a else b.

(** [v == ''] *)
Definition eq_empty_str (v : pyval) : bool :=
  match v with VStr s => String.eqb s "" | _ => false end.

(** [repr] of a class, as an f-string prints it. *)
Definition type_repr (t : pytype) : string :=
  match t with
  | TNoneType => "<class 'NoneType'>"
  | TBool => "<class 'bool'>"
  | TInt => "<class 'int'>"
  | TFloat => "<class 'float'>"
  | TStr => "<class 'str'>"
  | TList => "<class 'list'>"
  | TDict => "<class 'dict'>"
  | TDatetime => "<class 'datetime.datetime'>"
  end.

(** Exceptions that the modelled code raises. *)
Inductive exn : Type :=
  | ValueError (msg : string)
  | AssertionError
  | KeyError (msg : string)
  | IndexError.

Inductive result (A : Type) : Type :=
  | Ok (a : A)
  | Raise (e : exn).
Arguments Ok {A} a.
Arguments Raise {A} e.

(** [scrapy.utils.misc.arg_to_iter]: [None] is no value, a list is its
    elements, anything else (strings and dicts included) is one value. *)
Definition arg_to_iter (v : pyval) : list pyval :=
  match v with
  | VNone => []
  | VList l => l
  | _ => [v]
  end.

(** [s.split(sep)] on the characters of [s], for a separator of one
    character: the pieces between the separators, at least one. *)
Fixpoint split_chars (sep : ascii) (cur : list ascii) (l : list ascii)
  : list (list ascii) :=
  match l with
  | [] => [rev cur]
  | c :: l' =>
      if Ascii.eqb c sep then rev cur :: split_chars sep [] l'
      else split_chars sep (c :: cur) l'
  end.

Definition py_split (sep : ascii) (s : string) : list string :=
  map string_of_list_ascii (split_chars sep [] (list_ascii_of_string s)).

(** [l[i]] for a list: a negative index counts from the end, an index out
    of range has no element ([IndexError]). *)
Definition py_index {A} (l : list A) (i : Z) : option A :=
  if 0 <=? i then l !! Z.to_nat i
  else if - i <=? Z.of_nat (length l) then l !! Z.to_nat (Z.of_nat (length l) + i)
  else None.

End Py.
Export Py.

(** ** The helpers imported by the modelled files

    [items.py] and the spiders import their normalizers from [.utils],
    [w3lib.html] and the Python builtins; none of these is part of the
    modelled sources, so they are the operations of an interface.  Every
    statement that does not name an instance holds for all of them. *)

Module Helpers.

Class Utils : Type := {
  (** the builtin [str] *)
  py_str : callable;
  (** calling a class on one argument: [int(v)], [list(v)], ... *)
  type_call : pytype -> callable;
  (** [w3lib.html.remove_tags] and [w3lib.html.replace_entities] *)
  remove_tags : callable;
  replace_entities : callable;
  (** [utils.identity] and [utils.normalize_space], the latter with its
      [preserve_newline] flag *)
  identity : callable;
  normalize_space : bool -> callable;
  parse_int : callable;
  parse_float : callable;
  parse_bool : callable;
  parse_date : callable;
  parse_json : callable;
  serialize_date : callable;
  serialize_json : callable;
  (** [utils.clear_list], the output processor of the list fields *)
  clear_list : callable;
  (** the value of [utils.now()] and of [date.today().year] when they run *)
  now : pyval;
  today_year : Z
}.

End Helpers.
Export Helpers.

(** ** [ludoj/items.py] *)

Module Items.

(** [IDENTITY = Identity()]: the processor that returns what it is given. *)
Definition IDENTITY : callable := fun values => values.

(** [scrapy.loader.processors.MapCompose]: every function is applied to
    every value in turn, a [None] result drops the value and a list result
    is spliced in. *)
Definition MapCompose (functions : list callable) : callable :=
  fun value =>
    VList (fold_left
             (fun values func => flat_map (fun v => arg_to_iter (func v)) values)
             functions (arg_to_iter value)).

(** The [dtype] of a field: a class, or a tuple of classes as [isinstance]
    accepts it. *)
Inductive dtype_spec : Type :=
  | DType (t : pytype)
  | DTuple (t : pytype) (ts : list pytype).

(** [isinstance(v, dtype)] *)
Definition isinstance_dtype (v : pyval) (d : dtype_spec) : bool :=
  match d with
  | DType t => isinstance v t
  | DTuple t ts => existsb (isinstance v) (t :: ts)
  end.

(** [dtype[0] if isinstance(dtype, tuple) else dtype] *)
Definition dtype_head (d : dtype_spec) : pytype :=
  match d with
  | DType t => t
  | DTuple t _ => t
  end.

(** How [{dtype}] prints in an f-string. *)
Definition dtype_repr (d : dtype_spec) : string :=
  match d with
  | DType t => type_repr t
  | DTuple t [] => "(" +:+ type_repr t +:+ ",)"
  | DTuple t ts =>
      "(" +:+ fold_left (fun acc u => acc +:+ ", " +:+ type_repr u) ts (type_repr t) +:+ ")"
  end.

(** A truthy [dtype_convert]: a callable, or any other truthy object
    (such as [True]), which stands for the class itself. *)
Inductive convert_spec : Type :=
  | ConvertWith (f : callable)
  | ConvertByType.

(** The [default] of a field: a value, or a thunk given by what it returns. *)
Inductive default_spec : Type :=
  | DefaultValue (v : pyval)
  | DefaultCall (v : pyval).

(** [scrapy.Field]: a dictionary of metadata.  An absent key is [None];
    a falsy [dtype_convert] is absent as far as [__setitem__] can tell. *)
Record Field : Type := mkField {
  dtype : option dtype_spec;
  dtype_convert : option convert_spec;
  setter : option callable;
  parser : option callable;
  input_processor : option callable;
  output_processor : option callable;
  serializer : option callable;
  default_value : option default_spec;
  required : bool
}.

(** [Field()] and the [{}] that [self.fields.get(key) or {}] falls back to. *)
Definition empty_field : Field :=
  mkField None None None None None None None None false.

(** An item class: its name and its [fields] dictionary. *)
Record ItemClass : Type := mkItemClass {
  cls_name : string;
  fields : gmap string Field
}.

(** The [_values] dictionary of an item. *)
Abbreviation Item := (gmap string pyval).

(** *** Stateful, fallible code

    A method of an item takes the item as it is and returns the item as it
    leaves it together with a value or an exception. *)

Definition M (A : Type) : Type := Item -> Item * result A.

Definition ret {A} (a : A) : M A := fun self => (self, Ok a).
Definition raise {A} (e : exn) : M A := fun self => (self, Raise e).
Definition bind {A B} (m : M A) (k : A -> M B) : M B :=
  fun self =>
    match m self with
    | (self', Ok a) => k a self'
    | (self', Raise e) => (self', Raise e)
    end.

Notation "x <- m ;; k" := (bind m (fun x => k))
  (at level 100, m at next level, right associativity).
Notation "m ;;; k" := (bind m (fun _ => k))
  (at level 100, right associativity).

Section TypedItem.
Context `{U : Utils}.
Variable cls : ItemClass.

(** [scrapy.Item.__setitem__]: only declared fields can be stored. *)
Definition Item_setitem (key : string) (value : pyval) : M unit :=
  fun self =>
    match fields cls !! key with
    | Some _ => (<[key := value]> self, Ok tt)
    | None =>
        (self, Raise (KeyError (cls_name cls +:+ " does not support field: " +:+ key)))
    end.

(** [self[key]] for a key that [Item_setitem] has just stored. *)
Definition Item_getitem (key : string) : M pyval :=
  fun self =>
    match self !! key with
    | Some v => (self, Ok v)
    | None => (self, Raise (KeyError key))
    end.

Definition type_error_message (key : string) (d : dtype_spec) (found : pyval) : string :=
  "field <" +:+ key +:+ "> requires type " +:+ dtype_repr d
    +:+ " but found type " +:+ type_repr (type_of found).

(** [TypedItem.__setitem__] *)
Definition setitem (key : string) (value : pyval) : M unit :=
  let field := default empty_field (fields cls !! key) in
  let setter := default IDENTITY (setter field) in
  Item_setitem key (setter value) ;;;
  stored <- Item_getitem key ;;
  match dtype field with
  | None => ret tt
  | Some dtype =>
      if is_none stored || isinstance_dtype stored dtype then ret tt
      else
        match dtype_convert field with
        | None => raise (ValueError (type_error_message key dtype stored))
        | Some c =>
            let convert :=
              match c with
              | ConvertWith f => f
              | ConvertByType => type_call (dtype_head dtype)
              end in
            let value := convert stored in
            if isinstance_dtype value dtype || is_none value
            then Item_setitem key (setter value)
            else raise AssertionError
        end
  end.

(** A [for] loop whose body may raise: the first exception ends it. *)
Fixpoint for_each {A} (body : A -> M unit) (l : list A) : M unit :=
  match l with
  | [] => ret tt
  | x :: l' => body x ;;; for_each body l'
  end.

(** One round of the loop of [TypedItem.parse].  The [try] is around the
    first assignment only and catches [ValueError] only; the item keeps
    whatever the failed assignment stored when the retry starts. *)
Definition parse_field (item : gmap string pyval)
    (key : string) (properties : Field) : M unit :=
  let value := default VNone (item !! key) in
  if is_none value || eq_empty_str value then ret tt
  else
    fun article =>
      match setitem key value article with
      | (article', Ok _) => (article', Ok tt)
      | (article', Raise (ValueError _)) =>
          let parser := default IDENTITY (parser properties) in
          setitem key (parser value) article'
      | (article', Raise e) => (article', Raise e)
      end.

(** [TypedItem.parse]: [article = cls()], one round per declared field
    (in the order the field dictionary enumerates them), [return article].
    An exception leaves no article behind. *)
Definition parse (item : gmap string pyval) : result Item :=
  match for_each (fun kp => parse_field item kp.1 kp.2)
                 (map_to_list (fields cls)) ∅ with
  | (article, Ok _) => Ok article
  | (_, Raise e) => Raise e
  end.

(** [Item.__init__] given one dictionary: every entry is assigned through
    [__setitem__]. *)
Definition Item_init (values : gmap string pyval) : result Item :=
  match for_each (fun kv => setitem kv.1 kv.2) (map_to_list values) ∅ with
  | (self, Ok _) => Ok self
  | (_, Raise e) => Raise e
  end.

(** [TypedItem.clean]:
    [cls({k: v for k, v in item.items() if v and k in cls.fields})] *)
Definition clean (item : gmap string pyval) : result Item :=
  Item_init (filter (fun kv => truthy kv.2 = true ∧ is_Some (fields cls !! kv.1)) item).

End TypedItem.

(** [int(item)] for a [bool]. *)
Definition int_of_bool (item : pyval) : pyval :=
  match item with
  | VBool b => VInt (Z.b2z b)
  | _ => item
  end.

(** [_serialize_bool]: [int(item) if isinstance(item, bool) else None] *)
Definition _serialize_bool (item : pyval) : pyval :=
  if isinstance item TBool then int_of_bool item else VNone.

(** *** Numeric ranges *)

(** [x <= z] and [z <= x] for a float [x] and an integer [z], decided on
    the exact value [m * 2^e] of the float. *)
Definition float_le_Z (x : float) (z : Z) : option bool :=
  match Prim2SF x with
  | S754_nan => Some false
  | S754_infinity neg => Some neg
  | S754_zero _ => Some (0 <=? z)
  | S754_finite neg m e =>
      let m := if neg then Z.neg m else Z.pos m in
      Some (if 0 <=? e then m * 2 ^ e <=? z else m <=? z * 2 ^ (- e))
  end.

Definition Z_le_float (z : Z) (x : float) : option bool :=
  match Prim2SF x with
  | S754_nan => Some false
  | S754_infinity neg => Some (negb neg)
  | S754_zero _ => Some (z <=? 0)
  | S754_finite neg m e =>
      let m := if neg then Z.neg m else Z.pos m in
      Some (if 0 <=? e then z <=? m * 2 ^ e else z * 2 ^ (- e) <=? m)
  end.

(** [a <= b] on numbers ([bool] counts as [int], an [int] is compared with
    a [float] exactly); [None] where Python has no order. *)
Definition py_le (a b : pyval) : option bool :=
  match a, b with
  | VInt x, VInt y => Some (x <=? y)
  | VInt x, VBool y => Some (x <=? Z.b2z y)
  | VBool x, VInt y => Some (Z.b2z x <=? y)
  | VBool x, VBool y => Some (Z.b2z x <=? Z.b2z y)
  | VFloat x, VFloat y => Some (PrimFloat.leb x y)
  | VInt x, VFloat y => Z_le_float x y
  | VBool x, VFloat y => Z_le_float (Z.b2z x) y
  | VFloat x, VInt y => float_le_Z x y
  | VFloat x, VBool y => float_le_Z x (Z.b2z y)
  | _, _ => None
  end.

(** [lower <= value <= upper], an absent bound being no bound. *)
Definition in_range (lower upper : option pyval) (value : pyval) : bool :=
  match lower with
  | None => true
  | Some lo => match py_le lo value with Some b => b | None => false end
  end &&
  match upper with
  | None => true
  | Some hi => match py_le value hi with Some b => b | None => false end
  end.

(** Modelled from the spec: [utils.validate_range] is not among the
    sources.  A value inside the inclusive range is returned, a value
    outside it (or one that has no order with the bounds) is no value. *)
Definition validate_range (lower upper : option pyval) : callable :=
  fun value => if in_range lower upper value then value else VNone.

(** *** The processors and the declared fields *)

Section Declarations.
Context `{U : Utils}.

(** [lambda v: v or None] *)
Definition or_none : callable := fun v => py_or v VNone.

Definition POS_INT_PROCESSOR : callable :=
  MapCompose
    [identity; py_str; remove_tags; replace_entities; replace_entities;
     normalize_space false; parse_int; validate_range (Some (VInt 1)) None].

Definition NN_INT_PROCESSOR : callable :=
  MapCompose
    [identity; py_str; remove_tags; replace_entities; replace_entities;
     normalize_space false; parse_int; validate_range (Some (VInt 0)) None].

Definition POS_FLOAT_PROCESSOR : callable :=
  MapCompose
    [identity; py_str; remove_tags; replace_entities; replace_entities;
     normalize_space false; parse_float; validate_range (Some (VInt 0)) None;
     or_none].

Definition NN_FLOAT_PROCESSOR : callable :=
  MapCompose
    [identity; py_str; remove_tags; replace_entities; replace_entities;
     normalize_space false; parse_float; validate_range (Some (VInt 0)) None].

(** The [input_processor] of [GameItem.year]. *)
Definition YEAR_PROCESSOR : callable :=
  MapCompose
    [identity; py_str; remove_tags; replace_entities; replace_entities;
     normalize_space false; parse_int;
     validate_range (Some (VInt (-4000))) (Some (VInt (today_year + 10)));
     or_none].

(** The stages that the five numeric processors share: the text of the
    candidate is cleaned and parsed.  What comes out is the numeric value
    of the candidate. *)
Definition numeric_value (parse : callable) : callable :=
  MapCompose
    [identity; py_str; remove_tags; replace_entities; replace_entities;
     normalize_space false; parse].

(** A numeric processor with its parser, its bounds, and whether it ends
    in [lambda v: v or None]. *)
Record ranged : Type := mkRanged {
  processor : callable;
  parse_number : callable;
  lower : option pyval;
  upper : option pyval;
  zero_is_none : bool
}.

(** The numeric processors of [items.py]; every numeric field that
    declares bounds has one of them as its [input_processor]. *)
Definition ranged_processors : list ranged :=
  [ mkRanged POS_INT_PROCESSOR parse_int (Some (VInt 1)) None false;
    mkRanged NN_INT_PROCESSOR parse_int (Some (VInt 0)) None false;
    mkRanged POS_FLOAT_PROCESSOR parse_float (Some (VInt 0)) None true;
    mkRanged NN_FLOAT_PROCESSOR parse_float (Some (VInt 0)) None false;
    mkRanged YEAR_PROCESSOR parse_int
      (Some (VInt (-4000))) (Some (VInt (today_year + 10))) true ].

(** The declarations that [items.py] repeats. *)

(** [Field(dtype=str)] *)
Definition str_field : Field :=
  {| dtype := Some (DType TStr); dtype_convert := None; setter := None;
     parser := None; input_processor := None; output_processor := None;
     serializer := None; default_value := None; required := false |}.

(** [Field(dtype=list, output_processor=clear_list,
           serializer=serialize_json, parser=parse_json)] *)
Definition list_field : Field :=
  {| dtype := Some (DType TList); dtype_convert := None; setter := None;
     parser := Some parse_json; input_processor := None;
     output_processor := Some clear_list;
     serializer := Some serialize_json; default_value := None;
     required := false |}.

(** [Field(dtype=int, dtype_convert=parse_int, input_processor=...,
           default=...)] *)
Definition int_field (processor : callable) (dflt : pyval) : Field :=
  {| dtype := Some (DType TInt); dtype_convert := Some (ConvertWith parse_int);
     setter := None; parser := None; input_processor := Some processor;
     output_processor := None; serializer := None;
     default_value := Some (DefaultValue dflt); required := false |}.

(** [Field(dtype=float, dtype_convert=parse_float, input_processor=...,
           default=None)] *)
Definition float_field (processor : callable) : Field :=
  {| dtype := Some (DType TFloat); dtype_convert := Some (ConvertWith parse_float);
     setter := None; parser := None; input_processor := Some processor;
     output_processor := None; serializer := None;
     default_value := Some (DefaultValue VNone); required := false |}.

(** [Field(dtype=bool, [dtype_convert=parse_bool,] default=None,
           input_processor=IDENTITY, serializer=_serialize_bool,
           parser=parse_bool)] *)
Definition bool_field (convert : option convert_spec) : Field :=
  {| dtype := Some (DType TBool); dtype_convert := convert; setter := None;
     parser := Some parse_bool; input_processor := Some IDENTITY;
     output_processor := None; serializer := Some _serialize_bool;
     default_value := Some (DefaultValue VNone); required := false |}.

(** [Field(dtype=datetime, serializer=serialize_date, parser=parse_date)] *)
Definition date_field : Field :=
  {| dtype := Some (DType TDatetime); dtype_convert := None; setter := None;
     parser := Some parse_date; input_processor := None;
     output_processor := None; serializer := Some serialize_date;
     default_value := None; required := false |}.

(** [scraped_at] of both item classes. *)
Definition scraped_at_field : Field :=
  {| dtype := Some (DType TDatetime); dtype_convert := None; setter := None;
     parser := Some parse_date; input_processor := None;
     output_processor := None; serializer := Some serialize_date;
     default_value := Some (DefaultCall now); required := true |}.

Definition GameItem : ItemClass :=
  {| cls_name := "GameItem";
     fields := list_to_map
       [ ("name",
          {| dtype := Some (DType TStr); dtype_convert := None; setter := None;
             parser := None; input_processor := None; output_processor := None;
             serializer := None; default_value := None; required := true |});
         ("alt_name", list_field);
         ("year", int_field YEAR_PROCESSOR VNone);
         ("game_type", str_field);
         ("description",
          {| dtype := Some (DType TStr); dtype_convert := None; setter := None;
             parser := None;
             input_processor := Some (MapCompose
               [remove_tags; replace_entities; replace_entities;
                normalize_space true]);
             output_processor := None; serializer := None;
             default_value := None; required := false |});
         ("designer", list_field);
         ("artist", list_field);
         ("publisher", list_field);
         ("url", str_field);
         ("image_url", list_field);
         ("video_url", list_field);
         ("external_link", list_field);
         ("list_price", str_field);
         ("min_players", int_field POS_INT_PROCESSOR VNone);
         ("max_players", int_field POS_INT_PROCESSOR VNone);
         ("min_players_rec", int_field POS_INT_PROCESSOR VNone);
         ("max_players_rec", int_field POS_INT_PROCESSOR VNone);
         ("min_players_best", int_field POS_INT_PROCESSOR VNone);
         ("max_players_best", int_field POS_INT_PROCESSOR VNone);
         ("min_age", int_field POS_INT_PROCESSOR VNone);
         ("max_age", int_field POS_INT_PROCESSOR VNone);
         ("min_age_rec", float_field POS_FLOAT_PROCESSOR);
         ("max_age_rec", float_field POS_FLOAT_PROCESSOR);
         ("min_time", int_field POS_INT_PROCESSOR VNone);
         ("max_time", int_field POS_INT_PROCESSOR VNone);
         ("category", list_field);
         ("mechanic", list_field);
         ("cooperative", bool_field None);
         ("compilation", bool_field None);
         ("family", list_field);
         ("expansion", list_field);
         ("implementation",
          {| dtype := Some (DType TList); dtype_convert := None; setter := None;
             parser := Some parse_json;
             input_processor := Some (MapCompose [parse_int]);
             output_processor := Some clear_list;
             serializer := Some serialize_json; default_value := None;
             required := false |});
         ("rank", int_field POS_INT_PROCESSOR VNone);
         ("num_votes", int_field NN_INT_PROCESSOR (VInt 0));
         ("avg_rating", float_field POS_FLOAT_PROCESSOR);
         ("stddev_rating", float_field NN_FLOAT_PROCESSOR);
         ("bayes_rating", float_field POS_FLOAT_PROCESSOR);
         ("worst_rating", int_field POS_INT_PROCESSOR VNone);
         ("best_rating", int_field POS_INT_PROCESSOR VNone);
         ("complexity", float_field POS_FLOAT_PROCESSOR);
         ("easiest_complexity", int_field POS_INT_PROCESSOR VNone);
         ("hardest_complexity", int_field POS_INT_PROCESSOR VNone);
         ("language_dependency", float_field POS_FLOAT_PROCESSOR);
         ("lowest_language_dependency", int_field POS_INT_PROCESSOR VNone);
         ("highest_language_dependency", int_field POS_INT_PROCESSOR VNone);
         ("bgg_id", int_field POS_INT_PROCESSOR VNone);
         ("freebase_id", str_field);
         ("wikidata_id", str_field);
         ("wikipedia_id", str_field);
         ("dbpedia_id", str_field);
         ("luding_id", int_field POS_INT_PROCESSOR VNone);
         ("published_at", date_field);
         ("updated_at", date_field);
         ("scraped_at", scraped_at_field) ] |}.

Definition RatingItem : ItemClass :=
  {| cls_name := "RatingItem";
     fields := list_to_map
       [ ("bgg_id",
          {| dtype := Some (DType TInt);
             dtype_convert := Some (ConvertWith parse_int); setter := None;
             parser := None; input_processor := None; output_processor := None;
             serializer := None; default_value := None; required := true |});
         ("bgg_user_name",
          {| dtype := Some (DType TStr); dtype_convert := None; setter := None;
             parser := None; input_processor := None; output_processor := None;
             serializer := None; default_value := None; required := true |});
         ("bgg_user_rating", float_field POS_FLOAT_PROCESSOR);
         ("bgg_user_owned", bool_field (Some (ConvertWith parse_bool)));
         ("bgg_user_prev_owned", bool_field (Some (ConvertWith parse_bool)));
         ("bgg_user_for_trade", bool_field (Some (ConvertWith parse_bool)));
         ("bgg_user_want_in_trade", bool_field (Some (ConvertWith parse_bool)));
         ("bgg_user_want_to_play", bool_field (Some (ConvertWith parse_bool)));
         ("bgg_user_want_to_buy", bool_field (Some (ConvertWith parse_bool)));
         ("bgg_user_preordered", bool_field (Some (ConvertWith parse_bool)));
         ("bgg_user_wishlist", int_field POS_INT_PROCESSOR VNone);
         ("bgg_user_play_count", int_field NN_INT_PROCESSOR (VInt 0));
         ("published_at", date_field);
         ("updated_at", date_field);
         ("scraped_at", scraped_at_field) ] |}.

End Declarations.

(** *** What an assignment stores *)

Section Assignment.
Context `{U : Utils}.

Definition setter_of (f : Field) : callable := default IDENTITY (setter f).

(** The converter that [__setitem__] calls for a truthy [dtype_convert]. *)
Definition converter_of (c : convert_spec) (d : dtype_spec) : callable :=
  match c with
  | ConvertWith f => f
  | ConvertByType => type_call (dtype_head d)
  end.

(** The type contract of a field on a value: [None], or an instance of
    the declared [dtype]; a field without [dtype] accepts everything. *)
Definition value_ok (f : Field) (v : pyval) : bool :=
  match dtype f with
  | None => true
  | Some d => is_none v || isinstance_dtype v d
  end.

(** The outcome of [self[key] = value] on a declared field, as a function
    of the field and the value alone: the value the item holds in the end,
    or the exception. *)
Definition assigned (key : string) (f : Field) (value : pyval) : result pyval :=
  let stored := setter_of f value in
  match dtype f with
  | None => Ok stored
  | Some d =>
      if is_none stored || isinstance_dtype stored d then Ok stored
      else
        match dtype_convert f with
        | None => Raise (ValueError (type_error_message key d stored))
        | Some c =>
            let value' := converter_of c d stored in
            if isinstance_dtype value' d || is_none value'
            then Ok (setter_of f value')
            else Raise AssertionError
        end
  end.

(** A setter keeps the type contract when it maps values that satisfy it
    to values that satisfy it.  The identity does, so every field that
    declares no setter has the property. *)
Definition setter_keeps_type (f : Field) : Prop :=
  forall v, value_ok f v = true -> value_ok f (setter_of f v) = true.

End Assignment.

(** *** What [parse] and [clean] do to one field

    The loops of [parse] and [clean] treat every field on its own.  These
    are the per-field outcomes in the words of the spec, to be compared
    with the loops. *)

Section PerField.
Context `{U : Utils}.

(** parseLoose on one declared field: a raw value that is null or empty
    is skipped; otherwise the value is assigned; on a type error
    ([ValueError]) the import parser is applied to the raw value and the
    result assigned, once; any other outcome stands. *)
Definition parsed (key : string) (f : Field) (value : pyval) : result (option pyval) :=
  if is_none value || eq_empty_str value then Ok None
  else
    match assigned key f value with
    | Ok w => Ok (Some w)
    | Raise (ValueError _) =>
        match assigned key f (default IDENTITY (parser f) value) with
        | Ok w => Ok (Some w)
        | Raise e => Raise e
        end
    | Raise e => Raise e
    end.

(** What a loop of independent rounds leaves in an item: round [x] writes
    the value of its outcome, if it has one, under its key. *)
Definition write_outcome {A} (key : A -> string) (out : A -> result (option pyval))
    (self : Item) (x : A) : Item :=
  match out x with
  | Ok (Some w) => <[key x := w]> self
  | _ => self
  end.

(** [Item.__init__] on one entry: the entry is assigned. *)
Definition initialized (cls : ItemClass) (key : string) (value : pyval)
  : result (option pyval) :=
  match fields cls !! key with
  | Some f =>
      match assigned key f value with
      | Ok w => Ok (Some w)
      | Raise e => Raise e
      end
  | None => Raise (KeyError (cls_name cls +:+ " does not support field: " +:+ key))
  end.

(** A record is fully typed for a class when every value it holds belongs
    to a declared field and satisfies the type contract of that field. *)
Definition fully_typed (cls : ItemClass) (article : Item) : Prop :=
  forall key v, article !! key = Some v ->
    exists f, fields cls !! key = Some f /\ value_ok f v = true.

End PerField.

(** cleanPartial(cleanPartial(x)): the second pass runs on the record the
    first one returned. *)
Definition clean_twice `{U : Utils} (cls : ItemClass) (item : gmap string pyval)
  : result Item :=
  match clean cls item with
  | Ok record => clean cls record
  | Raise e => Raise e
  end.

(** The item classes that [items.py] declares. *)
Definition declared_class `{U : Utils} (cls : ItemClass) : Prop :=
  cls = GameItem \/ cls = RatingItem.

End Items.

(** ** Item loaders

    [loaders.py] is not among the modelled sources.  The loader classes it
    declares extend [scrapy.loader.ItemLoader], whose methods are modelled
    here as the library has them; what the subclasses add (their default
    processors and the JSON path query) is described by section 4.4 of the
    spec. *)

Module Loaders.
Import Items.

Definition res_bind {A B} (r : result A) (k : A -> result B) : result B :=
  match r with
  | Ok a => k a
  | Raise e => Raise e
  end.

Notation "x <-- r ;; k" := (res_bind r (fun x => k))
  (at level 100, r at next level, right associativity).

(** [scrapy.loader.processors.TakeFirst]: the first value that is neither
    [None] nor the empty string, [None] when there is none. *)
Fixpoint take_first (values : list pyval) : pyval :=
  match values with
  | [] => VNone
  | v :: values' =>
      if negb (is_none v) && negb (eq_empty_str v) then v else take_first values'
  end.

Definition TakeFirst : callable := fun values => take_first (arg_to_iter values).

(** A JSON path as the spiders write them: keys separated by dots, and
    [[]] for "every element of this array". *)
Inductive jmes_step : Type :=
  | JKey (k : string)
  | JFlatten.

Fixpoint dict_get (d : list (string * pyval)) (k : string) : option pyval :=
  match d with
  | [] => None
  | (k', v) :: d' => if String.eqb k k' then Some v else dict_get d' k
  end.

(** [jmespath.search] on such a path: a key of something that is not an
    object, or that the object lacks, is [null]; [[]] flattens an array by
    one level and projects the rest of the path on its elements, dropping
    the [null] results. *)
Fixpoint jmes_search (query : list jmes_step) (v : pyval) : pyval :=
  match query with
  | [] => v
  | JKey k :: query' =>
      match v with
      | VDict d =>
          match dict_get d k with
          | Some x => jmes_search query' x
          | None => VNone
          end
      | _ => VNone
      end
  | JFlatten :: query' =>
      match v with
      | VList l =>
          VList (List.filter (fun x => negb (is_none x))
                   (map (jmes_search query')
                      (flat_map (fun e => match e with VList l' => l' | _ => [e] end) l)))
      | _ => VNone
      end
  end.

Section ItemLoader.
Context `{U : Utils}.

(** The item class of the loader and the default processors of the loader
    subclass. *)
Variable cls : ItemClass.
Variable default_input_processor : callable.
Variable default_output_processor : callable.

(** A loader: the item it was given, the JSON document it reads, and the
    values collected so far, field by field in the order of arrival. *)
Record ItemLoader : Type := mkLoader {
  ldr_item : Item;
  ldr_json : pyval;
  ldr_values : list (string * list pyval)
}.

(** [ItemLoader.__init__]: the loader starts with the values of its item,
    [self._values[field_name] += arg_to_iter(value)] for every field the
    item holds.  The fields come in the order of [map_to_list]; the rounds
    of [load_item] write one key each, so the item that is loaded does not
    depend on that order. *)
Definition ItemLoader_init (item : Item) (json_obj : pyval) : ItemLoader :=
  mkLoader item json_obj (prod_map id arg_to_iter <$> map_to_list item).

(** [self._values.get(field_name)] *)
Definition collected_values (field_name : string) (ldr : ItemLoader)
  : option (list pyval) :=
  (list_to_map (ldr_values ldr) : gmap string (list pyval)) !! field_name.

(** [self.item.fields[field_name].get(key, default)]: an undeclared field
    is a [KeyError]. *)
Definition get_field_attr (field_name : string)
    (attr : Field -> option callable) (dflt : callable) : result callable :=
  match fields cls !! field_name with
  | Some f => Ok (default dflt (attr f))
  | None => Raise (KeyError field_name)
  end.

(** [self._values[field_name] += values] *)
Fixpoint extend_values (field_name : string) (values : list pyval)
    (collected : list (string * list pyval)) : list (string * list pyval) :=
  match collected with
  | [] => [(field_name, values)]
  | (k, vs) :: collected' =>
      if String.eqb k field_name then (k, vs ++ values)%list :: collected'
      else (k, vs) :: extend_values field_name values collected'
  end.

(** [ItemLoader.add_value]: the value is made a list, run through the
    input processor of the field, and what comes out, unless empty, is
    appended to the values of the field. *)
Definition add_value (field_name : string) (value : pyval) (ldr : ItemLoader)
  : result ItemLoader :=
  proc <-- get_field_attr field_name input_processor default_input_processor ;;
  let processed_value := proc (VList (arg_to_iter value)) in
  if truthy processed_value
  then Ok (mkLoader (ldr_item ldr) (ldr_json ldr)
             (extend_values field_name (arg_to_iter processed_value) (ldr_values ldr)))
  else Ok ldr.

(** Modelled from the spec: addFromPath appends the candidates that a
    path query finds in the JSON document. *)
Definition add_jmes (field_name : string) (query : list jmes_step) (ldr : ItemLoader)
  : result ItemLoader :=
  add_value field_name (jmes_search query (ldr_json ldr)) ldr.

(** One round of [ItemLoader.load_item]: the output processor reduces the
    values of a field, and a result other than [None] is assigned. *)
Definition load_field (kv : string * list pyval) : M unit :=
  fun item =>
    match get_field_attr kv.1 output_processor default_output_processor with
    | Ok proc =>
        let value := proc (VList kv.2) in
        if is_none value then (item, Ok tt) else setitem cls kv.1 value item
    | Raise e => (item, Raise e)
    end.

(** [ItemLoader.load_item] *)
Definition load_item (ldr : ItemLoader) : result Item :=
  match for_each load_field (ldr_values ldr) (ldr_item ldr) with
  | (item, Ok _) => Ok item
  | (_, Raise e) => Raise e
  end.

(** What a round of [load_item] leaves of a field, as a function of the
    field and its values alone: nothing when the output processor returns
    [None], else what the assignment stores. *)
Definition loaded (kv : string * list pyval) : result (option pyval) :=
  match fields cls !! kv.1 with
  | None => Raise (KeyError kv.1)
  | Some f =>
      let value := default default_output_processor (output_processor f) (VList kv.2) in
      if is_none value then Ok None
      else
        match assigned kv.1 f value with
        | Ok w => Ok (Some w)
        | Raise e => Raise e
        end
  end.

(** What a loader makes of a field that it was given one value for, by one
    [add_value], and that its item does not hold: the input processor runs
    on the value made a list, what it returns is collected unless it is
    falsy, and [load_item] leaves what [loaded] says of the values
    collected. *)
Definition fed_once (field_name : string) (value : pyval) : result (option pyval) :=
  match fields cls !! field_name with
  | None => Raise (KeyError field_name)
  | Some f =>
      let processed_value :=
        default default_input_processor (input_processor f) (VList (arg_to_iter value)) in
      if truthy processed_value
      then loaded (field_name, arg_to_iter processed_value)
      else Ok None
  end.

(** What [load_item] leaves of a field that the item holds and that no
    value was added to: the stored value made a list goes through the
    output processor and is assigned again. *)
Definition reloaded (field_name : string) (value : pyval) : result pyval :=
  o <-- loaded (field_name, arg_to_iter value) ;;
  Ok (default value o).

(** A field that is loaded again [n] times. *)
Fixpoint reloaded_times (n : nat) (field_name : string) (value : pyval)
  : result pyval :=
  match n with
  | O => Ok value
  | S n' => w <-- reloaded field_name value ;; reloaded_times n' field_name w
  end.

End ItemLoader.

End Loaders.

(** ** [ludoj_scraper/spiders/bga.py]

    The crawler is not part of the code: it takes the requests a callback
    returns, fetches them and calls the callback (or, after a failure, the
    errback) of each request with what came back.  A request carries its
    callback already bound to the item ([partial(callback, item=item)]) and
    the item and the remaining queue in its [meta].

    The queue is one Python list per game, created in [parse], popped in
    place by [_next_request_or_item] and handed on through [meta]; nothing
    else holds it, so each pop is modelled by the tail it leaves. *)

Module Bga.
Import Items Loaders.

(** The callbacks that [_game_requests] queues. *)
Inductive stage : Type :=
  | parse_images
  | parse_videos
  | parse_reviews.

(** The [meta] dictionary of a request, with the keys this spider stores:
    ['item'] and ['game_requests']. *)
Record Meta : Type := mkMeta {
  meta_item : option Item;
  game_requests : option (list (string * stage))
}.

(** [{}] *)
Definition empty_meta : Meta := mkMeta None None.

Definition meta_truthy (m : Meta) : bool :=
  match meta_item m, game_requests m with
  | None, None => false
  | _, _ => true
  end.

(** [scrapy.Request], with [callback] and [errback] as the partial
    applications they are: the method and the item bound to it. *)
Record Request : Type := mkRequest {
  url : string;
  callback : stage * Item;
  errback : stage * Item;
  meta : Meta
}.

(** What a callback receives: a response, or the failure of a request.
    An attribute the object lacks is [None] ([hasattr] is false). *)
Record Response : Type := mkResponse {
  text : option string;
  response_meta : option Meta;
  request : option Request
}.

(** What a callback returns. *)
Inductive output : Type :=
  | OutItem (item : Item)
  | OutRequest (r : Request).

Section Spider.
Context `{U : Utils}.

(** The item class and the loader defaults that [..items] and [..loaders]
    give this spider. *)
Variable cls : ItemClass.
Variable default_input_processor : callable.
Variable default_output_processor : callable.

(** The spider settings read in [__init__]. *)
Variable scrape_images scrape_videos scrape_reviews : bool.

(** [self._api_url(path, {'game-id': bga_id})] *)
Variable _api_url : string -> pyval -> string.

(** [_json_from_response] *)
Definition _json_from_response (response : Response) : pyval :=
  let result :=
    match text response with
    | Some t => parse_json (VStr t)
    | None => VNone
    end in
  py_or result (VDict []).

(** [_extract_meta] *)
Definition _extract_meta (response : Response) : Meta :=
  match response_meta response with
  | Some m =>
      if meta_truthy m then m
      else match request response with
           | Some r => if meta_truthy (meta r) then meta r else empty_meta
           | None => empty_meta
           end
  | None =>
      match request response with
      | Some r => if meta_truthy (meta r) then meta r else empty_meta
      | None => empty_meta
      end
  end.

(** [bool(item)]: an item is true when it holds a field. *)
Definition item_truthy (item : Item) : bool := negb (bool_decide (item = ∅)).

(** [_extract_item], with [item_cls()] the empty item. *)
Definition _extract_item (item : option Item) (response : Response) : Item :=
  let from_meta :=
    match meta_item (_extract_meta response) with
    | Some i => if item_truthy i then i else ∅
    | None => ∅
    end in
  match item with
  | Some i => if item_truthy i then i else from_meta
  | None => from_meta
  end.

(** [_extract_requests] *)
Definition _extract_requests (response : Response) : option (list (string * stage)) :=
  game_requests (_extract_meta response).

(** [BgaSpider._game_requests] *)
Definition _game_requests (bga_id : pyval) : list (string * stage) :=
  ((if scrape_images then [(_api_url "game/images" bga_id, parse_images)] else [])
   ++ (if scrape_videos then [(_api_url "game/videos" bga_id, parse_videos)] else [])
   ++ (if scrape_reviews then [(_api_url "game/reviews" bga_id, parse_reviews)] else []))%list.

(** [BgaSpider._next_request_or_item] *)
Definition _next_request_or_item (item : Item)
    (requests : option (list (string * stage))) : output :=
  match requests with
  | None | Some [] => OutItem item
  | Some ((url, callback) :: requests) =>
      let callback := (callback, item) in
      OutRequest {| url := url; callback := callback; errback := callback;
                    meta := {| meta_item := Some item;
                               game_requests := Some requests |} |}
  end.

(** [GameJsonLoader(item=item, json_obj=json_obj, response=response)]: a
    loader over the record, which starts with the values the record
    holds. *)
Definition GameJsonLoader (item : Item) (json_obj : pyval) : ItemLoader :=
  ItemLoader_init item json_obj.

Abbreviation add_value := (add_value cls default_input_processor).
Abbreviation add_jmes := (add_jmes cls default_input_processor).
Abbreviation load_item := (load_item cls default_output_processor).

(** The loader part of [parse_images], [parse_videos] and [parse_reviews]:
    the values the item has, then the values found in the document. *)
Definition load_images (item : Item) (result : pyval) : Py.result Item :=
  let ldr := GameJsonLoader item result in
  ldr <-- add_value "image_url" (default VNone (item !! "image_url")) ldr ;;
  ldr <-- add_jmes "image_url" [JKey "images"; JFlatten; JKey "url"] ldr ;;
  ldr <-- add_jmes "image_url" [JKey "images"; JFlatten; JKey "thumb"] ldr ;;
  load_item ldr.

Definition load_videos (item : Item) (result : pyval) : Py.result Item :=
  let ldr := GameJsonLoader item result in
  ldr <-- add_value "video_url" (default VNone (item !! "video_url")) ldr ;;
  ldr <-- add_jmes "video_url" [JKey "videos"; JFlatten; JKey "url"] ldr ;;
  load_item ldr.

Definition load_reviews (item : Item) (result : pyval) : Py.result Item :=
  let ldr := GameJsonLoader item result in
  ldr <-- add_value "review_url" (default VNone (item !! "review_url")) ldr ;;
  ldr <-- add_jmes "review_url" [JKey "reviews"; JFlatten; JKey "url"] ldr ;;
  load_item ldr.

Definition load_stage (s : stage) : Item -> pyval -> result Item :=
  match s with
  | parse_images => load_images
  | parse_videos => load_videos
  | parse_reviews => load_reviews
  end.

(** [BgaSpider.parse_images], [parse_videos] and [parse_reviews] differ in
    their loader part only. *)
Definition parse_stage (s : stage) (response : Response) (item : option Item)
  : result output :=
  let item := _extract_item item response in
  let result := _json_from_response response in
  item <-- load_stage s item result ;;
  let requests := _extract_requests response in
  Ok (_next_request_or_item item requests).

(** *** The crawler *)

(** What happens to a request: a response with a body, or a failure. *)
Inductive outcome : Type :=
  | Delivered (body : string)
  | Failed.

(** The object handed to the callback or errback.  A response has [text],
    its [meta] is that of its request; a failure has neither, and the
    crawler attaches the request to it. *)
Definition deliver (r : Request) (o : outcome) : Response :=
  match o with
  | Delivered body =>
      {| text := Some body; response_meta := Some (meta r); request := Some r |}
  | Failed =>
      {| text := None; response_meta := None; request := Some r |}
  end.

(** The document that a callback reads from what [deliver] hands it: the
    parsed body of a response, [{}] for a failure. *)
Definition document (o : outcome) : pyval :=
  match o with
  | Delivered body => py_or (parse_json (VStr body)) (VDict [])
  | Failed => VDict []
  end.

(** The field that a callback fills. *)
Definition stage_field (s : stage) : string :=
  match s with
  | parse_images => "image_url"
  | parse_videos => "video_url"
  | parse_reviews => "review_url"
  end.

(** The loader of a stage, when its values are complete: it works on the
    record, and every field other than that of the stage has the value of
    the record and nothing else. *)
Definition stage_loader (s : stage) (item : Item) (ldr : ItemLoader) : Prop :=
  ldr_item ldr = item
  /\ NoDup (ldr_values ldr).*1
  /\ forall k, k <> stage_field s -> collected_values k ldr = arg_to_iter <$> item !! k.

(** Calling [partial(callback, item=item)] on a response. *)
Definition call (bound : stage * Item) (response : Response) : result output :=
  parse_stage bound.1 response (Some bound.2).

Definition respond (r : Request) (o : outcome) : result output :=
  match o with
  | Delivered _ => call (callback r) (deliver r o)
  | Failed => call (errback r) (deliver r o)
  end.

(** The crawl of one game: every request in flight is answered by the next
    outcome, until an item comes out or the outcomes are used up.  The
    URLs are recorded in the order they were requested. *)
Fixpoint crawl (outcomes : list outcome) (out : output) : result (list string * output) :=
  match out, outcomes with
  | OutRequest r, o :: outcomes' =>
      out' <-- respond r o ;;
      rest <-- crawl outcomes' out' ;;
      Ok (url r :: rest.1, rest.2)
  | _, _ => Ok ([], out)
  end.

End Spider.

End Bga.

(** ** [ludoj/spiders/luding.py] *)

Module Luding.
Import Items Loaders.

(** What the selectors of [parse_game] find in a game page.  Each list is
    the [extract()] of one query in document order, each option the
    [extract_first()] of one. *)
Record GamePage : Type := mkGamePage {
  response_url : string;
  headline : option string;
  year_cells : list string;
  type_cells : list string;
  box_text_cells : list string;
  designer_links : list string;
  artist_links : list string;
  publisher_links : list string;
  last_href : list string;
  image_srcs : list string;
  redirect_hrefs : list string;
  players_text : option string;
  age_text : option string
}.

Definition opt_str (o : option string) : pyval :=
  match o with
  | Some s => VStr s
  | None => VNone
  end.

Definition strs (l : list string) : pyval := VList (map VStr l).

Definition is_digit (c : ascii) : bool :=
  (48 <=? Z.of_nat (nat_of_ascii c)) && (Z.of_nat (nat_of_ascii c) <=? 57).

Definition is_newline (c : ascii) : bool := Ascii.eqb c "010".

Fixpoint take_while (f : ascii -> bool) (l : list ascii) : list ascii :=
  match l with
  | c :: l' => if f c then c :: take_while f l' else []
  | [] => []
  end.

Fixpoint drop_while (f : ascii -> bool) (l : list ascii) : list ascii :=
  match l with
  | c :: l' => if f c then drop_while f l' else l
  | [] => []
  end.

(** [re.match(r'^.*?(\d+).*$', age).group(1)]: the first run of digits,
    when no line break occurs before the last character. *)
Definition first_number (age : string) : option string :=
  let l := list_ascii_of_string age in
  if existsb is_newline (removelast l) then None
  else
    match take_while is_digit (drop_while (fun c => negb (is_digit c)) l) with
    | [] => None
    | digits => Some (string_of_list_ascii digits)
    end.

(** [players.split('-') if players else [None]] *)
Definition split_players (players : option string) : list pyval :=
  match players with
  | Some s => if String.eqb s "" then [VNone] else map VStr (py_split "-" s)
  | None => [VNone]
  end.

(** Whether the text of the players cell contains the separator. *)
Definition has_separator (players : string) : bool :=
  existsb (Ascii.eqb "-") (list_ascii_of_string players).

(** The loader of [parse_game] between two calls of [add_value]: its item
    is empty, and [lo] and [hi] are the values collected for [min_players]
    and [max_players]. *)
Definition players_collected (lo hi : option (list pyval)) (ldr : ItemLoader) : Prop :=
  ldr_item ldr = ∅
  /\ NoDup (ldr_values ldr).*1
  /\ collected_values "min_players" ldr = lo
  /\ collected_values "max_players" ldr = hi.

Section Spider.
Context `{U : Utils}.

(** The defaults of [GameLoader] and the helpers of [..utils] and of the
    response that [parse_game] calls. *)
Variable default_input_processor : callable.
Variable default_output_processor : callable.
Variable urljoin : string -> string -> string.
Variable extract_query_param : string -> string -> pyval.
Variable extract_bgg_id : pyval -> pyval.

Abbreviation add_value := (add_value GameItem default_input_processor).
Abbreviation load_item := (load_item GameItem default_output_processor).

Definition index_or_raise (l : list pyval) (i : Z) : result pyval :=
  match py_index l i with
  | Some v => Ok v
  | None => Raise IndexError
  end.

(** The values that [parse_game] feeds to [min_players] and [max_players]:
    [players[0]] and [players[-1]]. *)
Definition fed_players (page : GamePage) : result (pyval * pyval) :=
  let players := split_players (players_text page) in
  lo <-- index_or_raise players 0 ;;
  hi <-- index_or_raise players (-1) ;;
  Ok (lo, hi).

(** [LudingSpider.parse_game].  The set of image URLs is given as the list
    of its elements. *)
Definition parse_game (page : GamePage) : result Item :=
  let ldr := ItemLoader_init ∅ VNone in
  ldr <-- add_value "name" (opt_str (headline page)) ldr ;;
  ldr <-- add_value "year" (strs (year_cells page)) ldr ;;
  ldr <-- add_value "game_type" (strs (type_cells page)) ldr ;;
  ldr <-- add_value "description" (strs (box_text_cells page)) ldr ;;
  ldr <-- add_value "designer" (strs (designer_links page)) ldr ;;
  ldr <-- add_value "artist" (strs (artist_links page)) ldr ;;
  ldr <-- add_value "publisher" (strs (publisher_links page)) ldr ;;
  ldr <-- add_value "url" (strs (last_href page)) ldr ;;
  let images := image_srcs page in
  ldr <-- add_value "image_url"
            (strs (remove_dups (map (urljoin (response_url page)) images))) ldr ;;
  let links := redirect_hrefs page in
  let links :=
    map (fun link => extract_query_param (urljoin (response_url page) link) "URL") links in
  ldr <-- add_value "external_link" (VList links) ldr ;;
  players <-- fed_players page ;;
  ldr <-- add_value "min_players" players.1 ldr ;;
  ldr <-- add_value "max_players" players.2 ldr ;;
  let age := age_text page in
  let age := match age with
             | Some a => if String.eqb a "" then None else first_number a
             | None => None
             end in
  ldr <-- add_value "min_age" (opt_str age) ldr ;;
  ldr <-- add_value "bgg_id" (VList (map extract_bgg_id links)) ldr ;;
  ldr <-- add_value "luding_id" (extract_query_param (response_url page) "gameid") ldr ;;
  load_item ldr.

End Spider.

End Luding.

(** ** [ludoj_scraper/spiders/bga.py]: the requests of the listing

    [_api_url] and [start_requests].  The URLs are built with
    [urllib.parse.urlencode]; the quoting of a text and the builtin [str]
    are operations of the standard library and are left open. *)

Module BgaApi.
Import Loaders.

(** The callbacks of the listing requests. *)
Inductive listing : Type :=
  | parse
  | parse_user_reviews.

(** [Request(url, callback=callback)] *)
Record StartRequest : Type := mkStartRequest {
  start_url : string;
  start_callback : listing
}.

(** A query dictionary: its items in insertion order, the keys distinct. *)
Definition query_dict : Type := list (string * pyval).

(** [query.setdefault(key, value)] *)
Definition setdefault (key : string) (value : pyval) (query : query_dict) : query_dict :=
  match dict_get query key with
  | Some _ => query
  | None => (query ++ [(key, value)])%list
  end.

(** [sorted(items, key=lambda x: x[0])]: a stable sort on the keys, which
    Python compares character by character. *)
Fixpoint insert_by_key (x : string * pyval) (l : list (string * pyval))
  : list (string * pyval) :=
  match l with
  | [] => [x]
  | y :: l' => if String.leb x.1 y.1 then x :: l else y :: insert_by_key x l'
  end.

Definition sorted_by_key (items : list (string * pyval)) : list (string * pyval) :=
  foldr insert_by_key [] items.

(** [sep.join(l)] *)
Fixpoint join (sep : string) (l : list string) : string :=
  match l with
  | [] => ""
  | [s] => s
  | s :: l' => s +:+ sep +:+ join sep l'
  end.

(** The order of [sorted] on two items. *)
Definition key_le (x y : string * pyval) : Prop := String.leb x.1 y.1 = true.

Section Spider.

(** [urllib.parse.quote_plus] and the builtin [str], as the text it returns. *)
Variable quote_plus : string -> string.
Variable str : pyval -> string.

(** [api_url], [expected_items] and [expected_reviews] of the class and
    [self.client_id], read from the settings (a string, or [None]). *)
Variable api_url : string.
Variable expected_items expected_reviews : Z.
Variable client_id : pyval.

(** [urllib.parse.urlencode] on a list of pairs whose keys are strings. *)
Definition urlencode (query : list (string * pyval)) : string :=
  join "&" (map (fun kv => quote_plus kv.1 +:+ "=" +:+ quote_plus (str kv.2)) query).

(** [BgaSpider._api_url]; [query or {}] replaces an absent or empty query
    by a new dictionary. *)
Definition _api_url (path : string) (query : option query_dict) : string :=
  let query := match query with
               | Some (kv :: q) => kv :: q
               | _ => []
               end in
  let query := setdefault "client_id" client_id query in
  let query := setdefault "limit" (VInt 100) query in
  api_url +:+ "/" +:+ path +:+ "?" +:+ urlencode (sorted_by_key query).

(** [BgaSpider.start_requests]; [//] is the floor division and an empty
    [range] yields nothing. *)
Definition start_requests : list StartRequest :=
  (map (fun page =>
          let query := [("order-by", VStr "popularity"); ("skip", VInt (page * 100))] in
          mkStartRequest (_api_url "search" (Some query)) parse)
       (seqZ 0 ((expected_items * 21) / 2000))
   ++ map (fun page =>
             let query := [("skip", VInt (page * 100))] in
             mkStartRequest (_api_url "reviews" (Some query)) parse_user_reviews)
          (seqZ 0 ((expected_reviews * 21) / 2000)))%list.

End Spider.
End BgaApi.

(** ** [ludoj/spiders/luding.py]: the players cell and the age cell *)

Module Players.

(** A character of the text of a players cell other than the separator. *)
Definition not_dash (c : ascii) : bool := negb (Ascii.eqb c "-").

End Players.

Module Regex.
Import Luding.

(** The regular expressions of [luding.py]: a sequence of repeated
    character classes and anchors, matched as Python's backtracking
    matcher does.  A repetition is greedy (the longest run is tried first)
    or lazy (the shortest first), and may be the group of the pattern. *)
Inductive item : Type :=
  | StartOfString
  | Repeat (least : nat) (greedy : bool) (class : ascii -> bool) (group : bool)
  | EndOfString.

(** [$]: the end of the string, or the line break that ends it. *)
Definition at_end (s : list ascii) : bool :=
  match s with
  | [] => true
  | [c] => is_newline c
  | _ => false
  end.

(** The alternatives of a repetition, in the order the matcher tries them;
    [k] is the rest of the pattern, given the run and what follows it. *)
Fixpoint repeat_class {R} (class : ascii -> bool) (greedy : bool)
    (k : list ascii -> list ascii -> option R)
    (least : nat) (taken : list ascii) (s : list ascii) : option R :=
  let stop := match least with O => k (rev taken) s | S _ => None end in
  match s with
  | c :: s' =>
      if class c then
        let more := repeat_class class greedy k (pred least) (c :: taken) s' in
        if greedy
        then match more with Some r => Some r | None => stop end
        else match stop with Some r => Some r | None => more end
      else stop
  | [] => stop
  end.

(** A match from the current position on: [None] when there is none, else
    the text of the group, if the group took part. *)
Fixpoint match_items (items : list item) (at_start : bool)
    (group : option (list ascii)) (s : list ascii) : option (option (list ascii)) :=
  match items with
  | [] => Some group
  | StartOfString :: items' =>
      if at_start then match_items items' at_start group s else None
  | EndOfString :: items' =>
      if at_end s then match_items items' at_start group s else None
  | Repeat least greedy class is_group :: items' =>
      repeat_class class greedy
        (fun taken rest =>
           match_items items'
             (at_start && match taken with [] => true | _ => false end)
             (if is_group then Some taken else group) rest)
        least [] s
  end.

(** [re.match(pattern, s)] *)
Definition re_match (pattern : list item) (s : string) : option (option (list ascii)) :=
  match_items pattern true None (list_ascii_of_string s).

(** [.] and [\d], on the characters of ASCII. *)
Definition dot (c : ascii) : bool := negb (is_newline c).

(** [r'^.*?(\d+).*$'] *)
Definition age_pattern : list item :=
  [ StartOfString; Repeat 0 false dot false; Repeat 1 true is_digit true;
    Repeat 0 true dot false; EndOfString ].

(** [age = re.match(r'^.*?(\d+).*$', age)] and then
    [age.group(1) if age else None] *)
Definition age_group (age : string) : option string :=
  match re_match age_pattern age with
  | Some (Some digits) => Some (string_of_list_ascii digits)
  | _ => None
  end.

(** A text without a line break before its last character. *)
Definition single_line (s : list ascii) : bool :=
  negb (existsb is_newline (removelast s)).

End Regex.

(** ** [board_game_scraper/__main__.py]

    The command line entry point.  Paths, the file system, the clock and
    the helpers of [pytility] are left open; log messages are not part of
    the model. *)

Module Main.

Definition DATE_FORMAT : string := "%Y-%m-%dT%H-%M-%S".
Definition RESUMABLE_STATES : list string := ["shutdown"; "closespider_timeout"].

(** [with path.open() as file_obj: next(file_obj, None)]: the first line of
    the file ([None] when the file is empty), or an exception. *)
Inductive first_line : Type :=
  | Line (line : option string)
  | Unreadable.

(** [sorted] on strings. *)
Fixpoint insert_sorted (x : string) (l : list string) : list string :=
  match l with
  | [] => [x]
  | y :: l' => if String.leb x y then x :: l else y :: insert_sorted x l'
  end.

Definition sorted (l : list string) : list string := foldr insert_sorted [] l.

(** The command line arguments. *)
Record Args : Type := mkArgs {
  spider : string;
  job_dir : option string;
  feeds_dir : option string;
  dont_run_before : option string;
  verbose : Z
}.

(** The settings that [main] reads: [settings["BASE_DIR"]], what
    [job_dir_from_settings(settings)] returns, and
    [settings.get("STATE_TAG_FILE")]. *)
Record Settings : Type := mkSettings {
  BASE_DIR : string;
  from_settings : option string;
  STATE_TAG_FILE : option string
}.

(** A string that may be absent, as a condition: [None] and [''] are
    false. *)
Definition given (o : option string) : option string :=
  match o with
  | Some s => if String.eqb s "" then None else Some s
  | None => None
  end.

Section EntryPoint.

(** [pathlib]: paths, with [Path(s)], [path.resolve()], [path / name],
    [path.name] and [str(path)]. *)
Variable path : Type.
Variable Path : string -> path.
Variable resolve : path -> path.
Variable joinpath : path -> string -> path.
Variable name : path -> string.
Variable path_str : path -> string.

(** The file system when [main] looks at it. *)
Variable is_dir : path -> bool.
Variable is_file : path -> bool.
Variable iterdir : path -> list path.
Variable read_first_line : path -> first_line.

(** [pytility.normalize_space] and [pytility.parse_date], the timestamps
    of dates, and the two readings of [utils.now()]: the one compared with
    the date to wait for and the one that names a new job. *)
Variable date : Type.
Variable normalize_space : option string -> string.
Variable parse_date : option string -> option date.
Variable timestamp : date -> float.
Variable strftime : date -> string -> string.
Variable now_waiting : date.
Variable now_starting : date.

Local Notation "p / s" := (joinpath p s).

(** What [_find_states] leaves behind: the directories it removed, in the
    order of removal, and the dictionary it returns, unless it raised. *)
Record Found : Type := mkFound {
  removed : list path;
  states : option (gmap string string)
}.

(** The loop of [_find_states].  The handler of an unreadable state file
    calls [LOGGER.exeception], which [logging.Logger] does not have: the
    [AttributeError] ends the function. *)
Fixpoint find_loop (state_file : string) (delete : list string)
    (delete_non_state : bool) (sub_dirs : list path)
    (result : gmap string string) (removed : list path) : Found :=
  match sub_dirs with
  | [] => mkFound removed (Some result)
  | sub_dir :: sub_dirs' =>
      let state_path := sub_dir / state_file in
      if negb (is_dir sub_dir) || negb (is_file state_path)
      then find_loop state_file delete delete_non_state sub_dirs' result removed
      else
        match read_first_line state_path with
        | Unreadable => mkFound removed None
        | Line line =>
            let state := normalize_space line in
            if bool_decide (state ∈ delete)
               || (delete_non_state && String.eqb state "")
            then find_loop state_file delete delete_non_state sub_dirs' result
                   (removed ++ [sub_dir])
            else if negb (String.eqb state "")
            then find_loop state_file delete delete_non_state sub_dirs'
                   (<[name sub_dir := state]> result) removed
            else find_loop state_file delete delete_non_state sub_dirs' result removed
        end
  end.

(** [_find_states]; [delete] is the set that [frozenset(arg_to_iter(delete))]
    makes of the argument. *)
Definition _find_states (path_dir : path) (state_file : string)
    (delete : list string) (delete_non_state : bool) : Found :=
  let path_dir := resolve path_dir in
  if negb (is_dir path_dir) then mkFound [] (Some ∅)
  else find_loop state_file delete delete_non_state (iterdir path_dir) ∅ [].

(** The state file of a directory as [_find_states] sees it: nothing for
    what is not a directory or has no such file, else what reading it
    gives. *)
Definition state_of (state_file : string) (sub_dir : path) : option first_line :=
  if is_dir sub_dir && is_file (sub_dir / state_file)
  then Some (read_first_line (sub_dir / state_file))
  else None.

(** When [_find_states] removes a job in a state. *)
Definition removable (delete : list string) (delete_non_state : bool)
    (state : string) : Prop :=
  state ∈ delete \/ (delete_non_state = true /\ state = "").

(** A directory whose job [_find_states] reports in a state: its state
    file reads as that state, which is not empty and not to be removed. *)
Definition reported (state_file : string) (delete : list string)
    (delete_non_state : bool) (sub_dir : path) (state : string) : Prop :=
  exists line,
    state_of state_file sub_dir = Some (Line line)
    /\ normalize_space line = state
    /\ state <> "" /\ ~ removable delete delete_non_state state.

(** [_date_from_file] *)
Definition _date_from_file (p : path) : option date :=
  let p := resolve p in
  let date :=
    match read_first_line p with
    | Line line => Some (normalize_space line)
    | Unreadable => None
    end in
  parse_date date.

(** How a run of [main] ends. *)
Inductive outcome : Type :=
  | Raised_AttributeError
  | Several_running (running : list string)
  | Already_running (job : string)
  | Several_resumable (resumable : list string)
  | Executed (command : list string).

(** What [main] does: whether it sleeps and how long, the directories it
    removes, and how it ends. *)
Record Run : Type := mkRun {
  slept : option float;
  removed_jobs : list path;
  ending : outcome
}.

(** The paths that [main] computes from the arguments and the settings. *)
Definition base_dir (settings : Settings) : path :=
  resolve (Path (BASE_DIR settings)).

Definition out_file (args : Args) (settings : Settings) : path :=
  let feeds_dir :=
    match given (feeds_dir args) with
    | Some d => Path d
    | None => base_dir settings / "feeds"
    end in
  let feeds_dir := resolve feeds_dir in
  feeds_dir / "%(name)s" / "%(class)s" / "%(time)s.jl".

Definition job_dir_path (args : Args) (settings : Settings) : path :=
  let job_dir :=
    match given (job_dir args) with
    | Some d => Path d
    | None =>
        match given (from_settings settings) with
        | Some d => Path d
        | None => base_dir settings / "jobs" / spider args
        end
    end in
  resolve job_dir.

(** The names of the jobs in a state that [accept] accepts, sorted. *)
Definition jobs_in (accept : string -> bool) (states : gmap string string)
  : list string :=
  sorted (omap (fun kv : string * string => if accept kv.2 then Some kv.1 else None)
            (map_to_list states)).

(** [main] *)
Definition main (args : Args) (settings : Settings) : Run :=
  let job_dir := job_dir_path args settings in
  let dont_run_before_file := job_dir / ".dont_run_before" in
  let dont_run_before :=
    match parse_date (dont_run_before args) with
    | Some d => Some d
    | None => _date_from_file dont_run_before_file
    end in
  let slept :=
    match dont_run_before with
    | Some d =>
        let sleep_seconds := PrimFloat.sub (timestamp d) (timestamp now_waiting) in
        if PrimFloat.ltb 0 sleep_seconds then Some sleep_seconds else None
    | None => None
    end in
  let found :=
    _find_states job_dir (default ".state" (given (STATE_TAG_FILE settings)))
      ["finished"] false in
  mkRun slept (removed found)
    match states found with
    | None => Raised_AttributeError
    | Some states =>
        let running := jobs_in (fun state => String.eqb state "running") states in
        if 1 <? Z.of_nat (length running) then Several_running running
        else
          match running with
          | job :: _ => Already_running job
          | [] =>
              let resumable :=
                jobs_in (fun state => bool_decide (state ∈ RESUMABLE_STATES)) states in
              if 1 <? Z.of_nat (length resumable) then Several_resumable resumable
              else
                let job_tag :=
                  match resumable with
                  | job :: _ => job
                  | [] => strftime now_starting DATE_FORMAT
                  end in
                let curr_job := job_dir / job_tag in
                Executed
                  [ "scrapy"; "crawl"; spider args; "--output";
                    path_str (out_file args settings);
                    "--set"; "JOBDIR=" +:+ path_str curr_job;
                    "--set";
                    "DONT_RUN_BEFORE_FILE=" +:+ path_str dont_run_before_file ]
          end
    end.

End EntryPoint.
End Main.

(** ** A reference instance of the helpers

    The helpers are not part of the modelled sources.  The definitions
    below follow what the spec says about each of them (section 4.2) and,
    for the builtins and [w3lib], what the library does on the stated
    domain.  They serve to run the modelled code on concrete inputs. *)

Module Reference.

Definition dquote : ascii := "034"%char.
Definition backslash : ascii := "092"%char.

Definition code (c : ascii) : Z := Z.of_nat (nat_of_ascii c).

(** What [str.split()] and [str.strip()] take for whitespace, within ASCII. *)
Definition is_space (c : ascii) : bool :=
  (code c =? 32) || ((9 <=? code c) && (code c <=? 13)).

Definition is_digit (c : ascii) : bool := (48 <=? code c) && (code c <=? 57).

Definition chars (s : string) : list ascii := list_ascii_of_string s.
Definition text (l : list ascii) : string := string_of_list_ascii l.

Fixpoint lstrip (l : list ascii) : list ascii :=
  match l with
  | c :: l' => if is_space c then lstrip l' else l
  | [] => []
  end.

Definition strip (l : list ascii) : list ascii := rev (lstrip (rev (lstrip l))).

(** [s.split()]: the maximal runs of characters that are not whitespace. *)
Fixpoint split_space (cur : list ascii) (l : list ascii) : list (list ascii) :=
  match l with
  | [] => match cur with [] => [] | _ => [rev cur] end
  | c :: l' =>
      if is_space c
      then match cur with [] => split_space [] l' | _ => rev cur :: split_space [] l' end
      else split_space (c :: cur) l'
  end.

(** [sep.join(parts)] *)
Fixpoint join (sep : list ascii) (parts : list (list ascii)) : list ascii :=
  match parts with
  | [] => []
  | [p] => p
  | p :: ps => (p ++ sep ++ join sep ps)%list
  end.

(** Modelled from the spec: collapseWhitespace is deterministic text
    cleaning that never fails.  Runs of whitespace become one space and the
    ends are trimmed; with [preserve_newline] this is done line by line.
    A value that is not a string is returned as it is. *)
Definition normalize_space (preserve_newline : bool) : callable :=
  fun item =>
    match item with
    | VStr s =>
        let collapse l := join [" "%char] (split_space [] l) in
        if preserve_newline
        then VStr (text (strip (join ["010"%char]
                                  (map collapse (split_chars "010"%char [] (chars s))))))
        else VStr (text (collapse (chars s)))
    | _ => item
    end.

(** [w3lib.html.remove_tags] with no tag singled out: every match of
    [</?([^ >/]+).*?>] is deleted, that is, a [<], an optional [/], a
    character other than space, [>] and [/], and everything up to the next
    [>]. *)
Fixpoint after_gt (l : list ascii) : option (list ascii) :=
  match l with
  | [] => None
  | c :: l' => if Ascii.eqb c ">" then Some l' else after_gt l'
  end.

Definition tag_name_start (c : ascii) : bool :=
  negb (Ascii.eqb c " " || Ascii.eqb c ">" || Ascii.eqb c "/").

Definition tag_rest (l : list ascii) : option (list ascii) :=
  let body := match l with
              | c :: l' => if Ascii.eqb c "/" then l' else l
              | [] => l
              end in
  match body with
  | c :: l' => if tag_name_start c then after_gt l' else None
  | [] => None
  end.

Fixpoint remove_tags_chars (fuel : nat) (l : list ascii) : list ascii :=
  match fuel with
  | O => l
  | S fuel' =>
      match l with
      | [] => []
      | c :: l' =>
          if Ascii.eqb c "<"
          then match tag_rest l' with
               | Some rest => remove_tags_chars fuel' rest
               | None => c :: remove_tags_chars fuel' l'
               end
          else c :: remove_tags_chars fuel' l'
      end
  end.

Definition remove_tags : callable :=
  fun item =>
    match item with
    | VStr s => VStr (text (remove_tags_chars (S (String.length s)) (chars s)))
    | _ => item
    end.

(** [w3lib.html.replace_entities], for the references [&amp;], [&lt;],
    [&gt;] and [&quot;]; any other reference is left in the text. *)
Fixpoint is_prefix (p l : list ascii) : option (list ascii) :=
  match p, l with
  | [], _ => Some l
  | a :: p', b :: l' => if Ascii.eqb a b then is_prefix p' l' else None
  | _ :: _, [] => None
  end.

Definition entities : list (list ascii * ascii) :=
  [ (chars "&amp;", "&"%char); (chars "&lt;", "<"%char);
    (chars "&gt;", ">"%char); (chars "&quot;", dquote) ].

Fixpoint entity_at (table : list (list ascii * ascii)) (l : list ascii)
  : option (ascii * list ascii) :=
  match table with
  | [] => None
  | (name, c) :: table' =>
      match is_prefix name l with
      | Some rest => Some (c, rest)
      | None => entity_at table' l
      end
  end.

Fixpoint replace_entities_chars (fuel : nat) (l : list ascii) : list ascii :=
  match fuel with
  | O => l
  | S fuel' =>
      match l with
      | [] => []
      | c :: l' =>
          match entity_at entities l with
          | Some (r, rest) => r :: replace_entities_chars fuel' rest
          | None => c :: replace_entities_chars fuel' l'
          end
      end
  end.

Definition replace_entities : callable :=
  fun item =>
    match item with
    | VStr s => VStr (text (replace_entities_chars (S (String.length s)) (chars s)))
    | _ => item
    end.

(** *** Numbers as text *)

Fixpoint digits_value (acc : Z) (l : list ascii) : option Z :=
  match l with
  | [] => Some acc
  | c :: l' => if is_digit c then digits_value (10 * acc + (code c - 48)) l' else None
  end.

(** A decimal numeral: sign, integer digits, fraction digits.  Thousands
    separators (commas) and surrounding whitespace are dropped first; at
    least one digit is needed. *)
Definition numeral (s : string) : option (bool * list ascii * list ascii) :=
  let l := filter (fun c => c <> ","%char) (strip (chars s)) in
  let '(neg, l) :=
    match l with
    | c :: l' =>
        if Ascii.eqb c "-" then (true, l')
        else if Ascii.eqb c "+" then (false, l') else (false, l)
    | [] => (false, l)
    end in
  match split_chars "."%char [] l with
  | [int_part] =>
      match int_part, digits_value 0 int_part with
      | _ :: _, Some _ => Some (neg, int_part, [])
      | _, _ => None
      end
  | [int_part; frac_part] =>
      match digits_value 0 (int_part ++ frac_part)%list, (int_part ++ frac_part)%list with
      | Some _, _ :: _ => Some (neg, int_part, frac_part)
      | _, _ => None
      end
  | _ => None
  end.

Definition float_of_spec (x : spec_float) : float := SF2Prim x.

(** The float nearest to [m / 10^k] (ties to even): the quotient is taken
    with more than 64 extra bits, the lost remainder is recorded in the last
    bit, and the result is rounded once. *)
Definition float_of_decimal (neg : bool) (m : Z) (k : nat) : float :=
  if m =? 0 then (if neg then (-0)%float else 0%float)
  else
    let d := 10 ^ Z.of_nat k in
    let n := Z.log2 d + 66 in
    let q := (m * 2 ^ n) / d in
    let q := if (m * 2 ^ n) mod d =? 0 then q else Z.lor q 1 in
    float_of_spec (binary_normalize prec emax (if neg then - q else q) (- n) false).

Definition float_of_Z (z : Z) : float :=
  float_of_decimal (z <? 0) (Z.abs z) 0.

(** [int(x)] for a float: truncation toward zero; nothing for [nan] and
    the infinities. *)
Definition trunc_float (x : float) : option Z :=
  match Prim2SF x with
  | S754_zero _ => Some 0
  | S754_finite neg m e =>
      let v := if 0 <=? e then Z.pos m * 2 ^ e else Z.pos m / 2 ^ (- e) in
      Some (if neg then - v else v)
  | _ => None
  end.

(** Modelled from the spec: parseInt strips thousands separators and fails
    to no value on content that is not numeric.  Integers pass, a float is
    truncated, a string must be a decimal integer numeral. *)
Definition parse_int : callable :=
  fun item =>
    match item with
    | VInt _ | VBool _ => item
    | VFloat x => match trunc_float x with Some z => VInt z | None => VNone end
    | VStr s =>
        match numeral s with
        | Some (neg, int_part, []) =>
            match digits_value 0 int_part with
            | Some z => VInt (if neg then - z else z)
            | None => VNone
            end
        | _ => VNone
        end
    | _ => VNone
    end.

(** Modelled from the spec: parseFloat strips thousands separators and
    fails to no value on content that is not numeric.  A float passes, an
    integer is converted, a string must be a decimal numeral. *)
Definition parse_float : callable :=
  fun item =>
    match item with
    | VFloat _ => item
    | VInt z => VFloat (float_of_Z z)
    | VBool b => VFloat (float_of_Z (Z.b2z b))
    | VStr s =>
        match numeral s with
        | Some (neg, int_part, frac_part) =>
            match digits_value 0 (int_part ++ frac_part)%list with
            | Some m => VFloat (float_of_decimal neg m (length frac_part))
            | None => VNone
            end
        | None => VNone
        end
    | _ => VNone
    end.

(** Modelled from the spec: parseBool reads the tokens ["true"] and
    ["yes"] as true and the numerals by their value, ["1"] as true and
    ["0"] as false, and a boolean or an integer passes by its truth value.
    Where the spec has no value for any other input, the parser of the
    repository ends in [return False]: it returns a boolean for every
    input, and so does this one.

    [[
    if isinstance(item, int): return bool(item)
    if item in ('True', 'true', 'Yes', 'yes'): return True
    integer = parse_int(item)
    if integer is not None: return bool(integer)
    return False
    ]] *)
Definition parse_bool : callable :=
  fun item =>
    if isinstance item TInt then VBool (truthy item)
    else if match item with
            | VStr s => bool_decide (s ∈ ["True"; "true"; "Yes"; "yes"])
            | _ => false
            end
    then VBool true
    else
      let integer := parse_int item in
      if negb (is_none integer) then VBool (truthy integer) else VBool false.

(** *** [repr] of a float

    The shortest decimal numeral that reads back as the same float, found
    by trying 1 to 17 significant digits. *)

Definition float_of_scaled (neg : bool) (d e : Z) : float :=
  if 0 <=? e then float_of_decimal neg (d * 10 ^ e) 0
  else float_of_decimal neg d (Z.to_nat (- e)).

(** [floor(log10(num/den))] for positive [num] and [den]. *)
Definition decimal_exponent (num den : Z) : Z :=
  let t := ((Z.log2 num - Z.log2 den) * 30103) / 100000 in
  let below t := if 0 <=? t then num <? den * 10 ^ t else num * 10 ^ (- t) <? den in
  let t := if below t then t - 1 else t in
  let t := if below t then t - 1 else t in
  let t := if below (t + 1) then t else t + 1 in
  if below (t + 1) then t else t + 1.

(** The candidates with [p] digits next to [num/den], nearest first. *)
Definition digit_candidates (num den t : Z) (p : Z) : list (Z * Z) :=
  let e := t - (p - 1) in
  let '(n, d) := if 0 <=? e then (num, den * 10 ^ e) else (num * 10 ^ (- e), den) in
  let lo := n / d in
  let r := n mod d in
  if r =? 0 then [(lo, e)]
  else if (2 * r <? d) || ((2 * r =? d) && Z.even lo)
       then [(lo, e); (lo + 1, e)] else [(lo + 1, e); (lo, e)].

Fixpoint shortest_digits (x : float) (num den t : Z) (fuel : nat) (p : Z) : Z * Z :=
  match fuel with
  | O => (num, 0)
  | S fuel' =>
      match filter (fun c => PrimFloat.eqb (float_of_scaled false c.1 c.2) x = true)
                   (digit_candidates num den t p) with
      | c :: _ => c
      | [] => shortest_digits x num den t fuel' (p + 1)
      end
  end.

Fixpoint strip_zeros (l : list ascii) : list ascii :=
  match l with
  | c :: l' => if Ascii.eqb c "0" then strip_zeros l' else l
  | [] => []
  end.

Definition zeros (n : Z) : list ascii := replicate (Z.to_nat n) "0"%char.

(** The layout of [repr]: positional for exponents from -4 to 15,
    scientific with at least two exponent digits otherwise. *)
Definition layout_float (digits : list ascii) (t : Z) : list ascii :=
  let nd := Z.of_nat (length digits) in
  if (-4 <=? t) && (t <? 16) then
    if 0 <=? t then
      if nd <=? t + 1
      then (digits ++ zeros (t + 1 - nd) ++ chars ".0")%list
      else (take (Z.to_nat (t + 1)) digits ++ "."%char :: drop (Z.to_nat (t + 1)) digits)%list
    else (chars "0." ++ zeros (- t - 1) ++ digits)%list
  else
    let mantissa :=
      match digits with
      | [d] => [d]
      | d :: rest => d :: "."%char :: rest
      | [] => []
      end in
    let e := chars (pretty (Z.abs t)) in
    let e := match e with [_] => "0"%char :: e | _ => e end in
    (mantissa ++ "e"%char :: (if t <? 0 then "-"%char else "+"%char) :: e)%list.

Definition float_repr (x : float) : string :=
  match Prim2SF x with
  | S754_nan => "nan"
  | S754_infinity neg => if neg then "-inf" else "inf"
  | S754_zero neg => if neg then "-0.0" else "0.0"
  | S754_finite neg m e =>
      let '(num, den) := if 0 <=? e then (Z.pos m * 2 ^ e, 1) else (Z.pos m, 2 ^ (- e)) in
      let t := decimal_exponent num den in
      let '(d, e10) := shortest_digits (PrimFloat.abs x) num den t 17 1 in
      let all := chars (pretty d) in
      let digits := rev (strip_zeros (rev all)) in
      let t := Z.of_nat (length all) - 1 + e10 in
      text ((if neg then ["-"%char] else []) ++ layout_float digits t)%list
  end.

Definition two_digits (z : Z) : string :=
  if z <? 10 then "0" +:+ pretty z else pretty z.

Definition four_digits (z : Z) : string :=
  text (zeros (4 - Z.of_nat (String.length (pretty z)))) +:+ pretty z.

(** [datetime.isoformat(sep)] for a time without microseconds and zone. *)
Definition isoformat (sep : string) (t : datetime) : string :=
  four_digits (dt_year t) +:+ "-" +:+ two_digits (dt_month t) +:+ "-"
    +:+ two_digits (dt_day t) +:+ sep +:+ two_digits (dt_hour t) +:+ ":"
    +:+ two_digits (dt_minute t) +:+ ":" +:+ two_digits (dt_second t).

(** [repr(v)] and [str(v)].  A string inside a list or a dictionary is put
    between single quotes as it is (no character is escaped). *)
Fixpoint py_repr (v : pyval) : string :=
  match v with
  | VNone => "None"
  | VBool b => if b then "True" else "False"
  | VInt z => pretty z
  | VFloat x => float_repr x
  | VStr s => "'" +:+ s +:+ "'"
  | VList l =>
      "[" +:+ text (join (chars ", ") (map (fun e => chars (py_repr e)) l)) +:+ "]"
  | VDict d =>
      "{" +:+ text (join (chars ", ")
                     (map (fun kv => chars ("'" +:+ kv.1 +:+ "': " +:+ py_repr kv.2)) d))
          +:+ "}"
  | VDatetime t =>
      "datetime.datetime(" +:+ pretty (dt_year t) +:+ ", " +:+ pretty (dt_month t)
        +:+ ", " +:+ pretty (dt_day t) +:+ ", " +:+ pretty (dt_hour t)
        +:+ ", " +:+ pretty (dt_minute t)
        +:+ (if dt_second t =? 0 then "" else ", " +:+ pretty (dt_second t)) +:+ ")"
  end.

Definition py_str : callable :=
  fun v =>
    match v with
    | VStr _ => v
    | VDatetime t => VStr (isoformat " " t)
    | _ => VStr (py_repr v)
    end.

(** Calling a class on a value.  Where Python raises, the model gives no
    value. *)
Definition type_call (t : pytype) : callable :=
  fun v =>
    match t with
    | TStr => py_str v
    | TBool => VBool (truthy v)
    | TInt =>
        match v with
        | VStr s => if existsb (Ascii.eqb ",") (chars s) then VNone else parse_int v
        | _ => parse_int v
        end
    | TFloat =>
        match v with
        | VStr s => if existsb (Ascii.eqb ",") (chars s) then VNone else parse_float v
        | _ => parse_float v
        end
    | TList =>
        match v with
        | VList _ => v
        | VStr s => VList (map (fun c => VStr (String c EmptyString)) (chars s))
        | VDict d => VList (map (fun kv => VStr kv.1) d)
        | _ => VNone
        end
    | TDict => match v with VDict _ => v | _ => VNone end
    | TDatetime | TNoneType => VNone
    end.

(** *** Dates *)

Definition leap_year (y : Z) : bool :=
  ((y mod 4 =? 0) && negb (y mod 100 =? 0)) || (y mod 400 =? 0).

Definition days_in_month (y m : Z) : Z :=
  if m =? 2 then (if leap_year y then 29 else 28)
  else if (m =? 4) || (m =? 6) || (m =? 9) || (m =? 11) then 30 else 31.

Definition valid_datetime (t : datetime) : bool :=
  (1 <=? dt_year t) && (dt_year t <=? 9999)
  && (1 <=? dt_month t) && (dt_month t <=? 12)
  && (1 <=? dt_day t) && (dt_day t <=? days_in_month (dt_year t) (dt_month t))
  && (0 <=? dt_hour t) && (dt_hour t <? 24)
  && (0 <=? dt_minute t) && (dt_minute t <? 60)
  && (0 <=? dt_second t) && (dt_second t <? 60).

(** A field of exactly [n] digits. *)
Definition fixed_digits (n : nat) (l : list ascii) : option Z :=
  if Nat.eqb (length l) n then digits_value 0 l else None.

Definition date_of (l : list ascii) : option (Z * Z * Z) :=
  match split_chars "-"%char [] l with
  | [y; m; d] =>
      match fixed_digits 4 y, fixed_digits 2 m, fixed_digits 2 d with
      | Some y, Some m, Some d => Some (y, m, d)
      | _, _, _ => None
      end
  | _ => None
  end.

Definition time_of (l : list ascii) : option (Z * Z * Z) :=
  match split_chars ":"%char [] l with
  | [h; m; s] =>
      match fixed_digits 2 h, fixed_digits 2 m, fixed_digits 2 s with
      | Some h, Some m, Some s => Some (h, m, s)
      | _, _, _ => None
      end
  | _ => None
  end.

(** Modelled from the spec: parseDate accepts a set of known shapes and
    returns a UTC timestamp; anything else is no value.  The shapes here
    are [YYYY-MM-DD] and [YYYY-MM-DD(T| )HH:MM:SS] with an optional [Z]. *)
Definition parse_date : callable :=
  fun item =>
    match item with
    | VDatetime _ => item
    | VStr s =>
        let l := strip (chars s) in
        let l := match rev l with
                 | c :: l' => if Ascii.eqb c "Z" then rev l' else l
                 | [] => l
                 end in
        let d := take 10 l in
        let r := drop 10 l in
        let check t := if valid_datetime t then VDatetime t else VNone in
        match date_of d, r with
        | Some (y, m, d), [] => check (mkDatetime y m d 0 0 0)
        | Some (y, m, d), c :: r' =>
            if Ascii.eqb c "T" || Ascii.eqb c " " then
              match time_of r' with
              | Some (h, mi, sec) => check (mkDatetime y m d h mi sec)
              | None => VNone
              end
            else VNone
        | None, _ => VNone
        end
    | _ => VNone
    end.

(** Modelled from the spec: dates are exported as ISO-8601 strings. *)
Definition serialize_date : callable :=
  fun item =>
    match item with
    | VDatetime t => VStr (isoformat "T" t +:+ "+00:00")
    | _ => VNone
    end.

(** *** JSON *)

(** The characters of a string literal up to its closing quote, with the
    escapes of two characters; an escape with [u] is not read. *)
Fixpoint json_string (acc : list ascii) (l : list ascii) : option (string * list ascii) :=
  match l with
  | [] => None
  | c :: l' =>
      if Ascii.eqb c dquote then Some (text (rev acc), l')
      else if Ascii.eqb c backslash then
        match l' with
        | e :: l'' =>
            let plain x := json_string (x :: acc) l'' in
            if Ascii.eqb e dquote || Ascii.eqb e backslash || Ascii.eqb e "/" then plain e
            else if Ascii.eqb e "n" then plain "010"%char
            else if Ascii.eqb e "t" then plain "009"%char
            else if Ascii.eqb e "r" then plain "013"%char
            else if Ascii.eqb e "b" then plain "008"%char
            else if Ascii.eqb e "f" then plain "012"%char
            else None
        | [] => None
        end
      else json_string (c :: acc) l'
  end.

Definition is_number_char (c : ascii) : bool :=
  is_digit c || Ascii.eqb c "-" || Ascii.eqb c "+" || Ascii.eqb c "."
  || Ascii.eqb c "e" || Ascii.eqb c "E".

Fixpoint span (f : ascii -> bool) (l : list ascii) : list ascii * list ascii :=
  match l with
  | c :: l' => if f c then let '(a, b) := span f l' in (c :: a, b) else ([], l)
  | [] => ([], [])
  end.

Definition signed_digits (l : list ascii) : option Z :=
  match l with
  | c :: (_ :: _) as l' =>
      if Ascii.eqb c "-" then option_map Z.opp (digits_value 0 l')
      else if Ascii.eqb c "+" then digits_value 0 l'
      else digits_value 0 l
  | [_] => digits_value 0 l
  | [] => None
  end.

(** A JSON number: an integer numeral is an [int], a numeral with a
    fraction or an exponent a [float]. *)
Definition json_number (tok : list ascii) : option pyval :=
  let '(neg, body) :=
    match tok with
    | c :: l' => if Ascii.eqb c "-" then (true, l') else (false, tok)
    | [] => (false, tok)
    end in
  let '(mant, expo) := span (fun c => negb (Ascii.eqb c "e" || Ascii.eqb c "E")) body in
  let sign z := if neg then - z else z in
  match split_chars "."%char [] mant, expo with
  | [(_ :: _) as i], [] => option_map (fun z => VInt (sign z)) (digits_value 0 i)
  | [(_ :: _) as i], _ :: e =>
      match digits_value 0 i, signed_digits e with
      | Some m, Some x => Some (VFloat (float_of_scaled neg m x))
      | _, _ => None
      end
  | [(_ :: _) as i; (_ :: _) as f], _ =>
      let x := match expo with
               | [] => Some 0
               | _ :: e => signed_digits e
               end in
      match digits_value 0 (i ++ f)%list, x with
      | Some m, Some x => Some (VFloat (float_of_scaled neg m (x - Z.of_nat (length f))))
      | _, _ => None
      end
  | _, _ => None
  end.

Fixpoint json_value (fuel : nat) (l : list ascii) : option (pyval * list ascii) :=
  match fuel with
  | O => None
  | S fuel' =>
      match lstrip l with
      | [] => None
      | c :: rest =>
          if Ascii.eqb c "[" then
            match lstrip rest with
            | c' :: rest' =>
                if Ascii.eqb c' "]" then Some (VList [], rest')
                else option_map (fun r => (VList r.1, r.2)) (json_elements fuel' rest)
            | [] => None
            end
          else if Ascii.eqb c "{" then
            match lstrip rest with
            | c' :: rest' =>
                if Ascii.eqb c' "}" then Some (VDict [], rest')
                else option_map (fun r => (VDict r.1, r.2)) (json_members fuel' rest)
            | [] => None
            end
          else if Ascii.eqb c dquote then
            option_map (fun r => (VStr r.1, r.2)) (json_string [] rest)
          else
            match is_prefix (chars "true") (c :: rest),
                  is_prefix (chars "false") (c :: rest),
                  is_prefix (chars "null") (c :: rest) with
            | Some r, _, _ => Some (VBool true, r)
            | _, Some r, _ => Some (VBool false, r)
            | _, _, Some r => Some (VNone, r)
            | None, None, None =>
                let '(tok, r) := span is_number_char (c :: rest) in
                option_map (fun v => (v, r)) (json_number tok)
            end
      end
  end
with json_elements (fuel : nat) (l : list ascii) : option (list pyval * list ascii) :=
  match fuel with
  | O => None
  | S fuel' =>
      match json_value fuel' l with
      | Some (v, rest) =>
          match lstrip rest with
          | c :: rest' =>
              if Ascii.eqb c "," then
                option_map (fun r => (v :: r.1, r.2)) (json_elements fuel' rest')
              else if Ascii.eqb c "]" then Some ([v], rest')
              else None
          | [] => None
          end
      | None => None
      end
  end
with json_members (fuel : nat) (l : list ascii)
  : option (list (string * pyval) * list ascii) :=
  match fuel with
  | O => None
  | S fuel' =>
      match lstrip l with
      | q :: rest =>
          if Ascii.eqb q dquote then
            match json_string [] rest with
            | Some (k, rest) =>
                match lstrip rest with
                | c :: rest =>
                    if Ascii.eqb c ":" then
                      match json_value fuel' rest with
                      | Some (v, rest) =>
                          match lstrip rest with
                          | c' :: rest' =>
                              if Ascii.eqb c' "," then
                                option_map (fun r => ((k, v) :: r.1, r.2))
                                           (json_members fuel' rest')
                              else if Ascii.eqb c' "}" then Some ([(k, v)], rest')
                              else None
                          | [] => None
                          end
                      | None => None
                      end
                    else None
                | [] => None
                end
            | None => None
            end
          else None
      | [] => None
      end
  end.

(** Modelled from the spec and from its callers: parseJsonList reads JSON
    text and fails to no value on malformed text; [bga.py] reads objects
    from the same function, so a document of any JSON type is returned.
    A value that is not a string is no value. *)
Definition parse_json : callable :=
  fun item =>
    match item with
    | VStr s =>
        match json_value (S (String.length s)) (chars s) with
        | Some (v, rest) => match lstrip rest with [] => v | _ => VNone end
        | None => VNone
        end
    | _ => VNone
    end.

Definition json_quote (s : string) : string :=
  text ([dquote]
        ++ flat_map (fun c => if Ascii.eqb c dquote || Ascii.eqb c backslash
                              then [backslash; c] else [c]) (chars s)
        ++ [dquote])%list.

Fixpoint json_text (v : pyval) : string :=
  match v with
  | VNone => "null"
  | VBool b => if b then "true" else "false"
  | VInt z => pretty z
  | VFloat x => float_repr x
  | VStr s => json_quote s
  | VList l =>
      "[" +:+ text (join (chars ", ") (map (fun e => chars (json_text e)) l)) +:+ "]"
  | VDict d =>
      "{" +:+ text (join (chars ", ")
                     (map (fun kv => chars (json_quote kv.1 +:+ ": " +:+ json_text kv.2)) d))
          +:+ "}"
  | VDatetime t => json_quote (isoformat "T" t +:+ "+00:00")
  end.

(** Modelled from the spec: lists are exported as JSON arrays. *)
Definition serialize_json : callable := fun item => VStr (json_text item).

(** *** Lists without repetitions *)

Definition datetime_eqb (a b : datetime) : bool :=
  (dt_year a =? dt_year b) && (dt_month a =? dt_month b) && (dt_day a =? dt_day b)
  && (dt_hour a =? dt_hour b) && (dt_minute a =? dt_minute b)
  && (dt_second a =? dt_second b).

(** Equality of values of the same type. *)
Fixpoint pyval_eqb (a b : pyval) : bool :=
  match a, b with
  | VNone, VNone => true
  | VBool x, VBool y => Bool.eqb x y
  | VInt x, VInt y => x =? y
  | VFloat x, VFloat y => PrimFloat.eqb x y
  | VStr x, VStr y => String.eqb x y
  | VList x, VList y =>
      (fix go (x y : list pyval) : bool :=
         match x, y with
         | [], [] => true
         | a :: x', b :: y' => pyval_eqb a b && go x' y'
         | _, _ => false
         end) x y
  | VDict x, VDict y =>
      (fix go (x y : list (string * pyval)) : bool :=
         match x, y with
         | [], [] => true
         | (k, a) :: x', (k', b) :: y' => String.eqb k k' && pyval_eqb a b && go x' y'
         | _, _ => false
         end) x y
  | VDatetime x, VDatetime y => datetime_eqb x y
  | _, _ => false
  end.

Fixpoint dedup_values (seen : list pyval) (l : list pyval) : list pyval :=
  match l with
  | [] => []
  | v :: l' =>
      if existsb (pyval_eqb v) seen then dedup_values seen l'
      else v :: dedup_values (v :: seen) l'
  end.

(** Modelled from the spec: list fields are deduplicated on output,
    keeping the order in which the values were first seen. *)
Definition clear_list : callable :=
  fun items => VList (dedup_values [] (arg_to_iter items)).

(** *** URLs *)

(** The text after the first occurrence of [p], if [p] occurs. *)
Fixpoint after (p l : list ascii) : option (list ascii) :=
  match is_prefix p l with
  | Some rest => Some rest
  | None => match l with
            | [] => None
            | _ :: l' => after p l'
            end
  end.

(** [response.urljoin] for a link that is absolute, or that is a path from
    the root of the site. *)
Definition urljoin (base link : string) : string :=
  match after (chars "://") (chars link) with
  | Some _ => link
  | None =>
      match after (chars "://") (chars base) with
      | Some rest =>
          let host := Luding.take_while (fun c => negb (Ascii.eqb c "/")) rest in
          let scheme := take (length (chars base) - length rest) (chars base) in
          text (scheme ++ host)%list +:+ link
      | None => link
      end
  end.

(** Modelled from the spec: identity extraction maps a URL to an
    identifier; this one is the text of a query parameter. *)
Definition extract_query_param (url name : string) : pyval :=
  match after ["?"%char] (chars url) with
  | Some query =>
      match
        omap (fun part => is_prefix (chars name ++ ["="%char])%list part)
             (split_chars "&" [] query)
      with
      | v :: _ => VStr (text v)
      | [] => VNone
      end
  | None => VNone
  end.

(** Modelled from the spec: identity extraction maps a URL to an
    identifier; this one is the number that follows [/boardgame/] in a
    link to BoardGameGeek. *)
Definition extract_bgg_id (url : pyval) : pyval :=
  match url with
  | VStr s =>
      match after (chars "boardgamegeek.com/boardgame/") (chars s) with
      | Some rest =>
          match Luding.take_while is_digit rest with
          | [] => VNone
          | digits => match digits_value 0 digits with
                      | Some z => VInt z
                      | None => VNone
                      end
          end
      | None => VNone
      end
  | _ => VNone
  end.

(** JSON text for the examples, written with single quotes where JSON has
    double quotes. *)
Definition json (s : string) : string :=
  text (map (fun c => if Ascii.eqb c "'" then dquote else c) (chars s)).

(** Modelled from the spec: a field that declares no import pipeline takes
    its candidates as they are, and a scalar field keeps the first
    candidate that is a value (section 4.4). *)
Definition default_input_processor : callable := Items.IDENTITY.
Definition default_output_processor : callable := Loaders.TakeFirst.

(** Modelled from the spec, which does not describe it: by its name and
    its place in front of every pipeline, the function that returns its
    argument. *)
Definition identity : callable := fun v => v.

(** The instance.  The clock is fixed at the start of 2019. *)
Definition utils : Utils :=
  {| Helpers.py_str := py_str;
     Helpers.identity := identity;
     Helpers.type_call := type_call;
     Helpers.remove_tags := remove_tags;
     Helpers.replace_entities := replace_entities;
     Helpers.normalize_space := normalize_space;
     Helpers.parse_int := parse_int;
     Helpers.parse_float := parse_float;
     Helpers.parse_bool := parse_bool;
     Helpers.parse_date := parse_date;
     Helpers.parse_json := parse_json;
     Helpers.serialize_date := serialize_date;
     Helpers.serialize_json := serialize_json;
     Helpers.clear_list := clear_list;
     Helpers.now := VDatetime (mkDatetime 2019 1 1 0 0 0);
     Helpers.today_year := 2019 |}.

End Reference.

(** ** Inputs of the examples *)

Module Examples.
Import Items Loaders Bga Luding.

(** Modelled from the spec: the item class that [bga.py] imports is not
    among the sources.  It is [GameItem] with the two fields that the
    spider fills besides: the identity of the entity, and the list of
    review links. *)
Definition BgaGameItem `{U : Utils} : ItemClass :=
  {| cls_name := "GameItem";
     fields := <["review_url" := list_field]> (<["bga_id" := str_field]> (fields GameItem)) |}.

(** A game as [BgaSpider.parse] hands it to the chain. *)
Definition catan : Item :=
  list_to_map [("name", VStr "Catan"); ("bga_id", VStr "OIXt3DmJU0")].

Definition images_body : string :=
  Reference.json "{'images': [{'url': 'http://img/1.jpg', 'thumb': 'http://img/1t.jpg'}]}".

Definition reviews_body : string :=
  Reference.json "{'reviews': [{'url': 'http://rev/1'}, {'url': 'http://rev/2'}, {'url': 'http://rev/1'}]}".

Definition game_queue : list (string * stage) :=
  [ ("http://api/game/images", parse_images);
    ("http://api/game/videos", parse_videos);
    ("http://api/game/reviews", parse_reviews) ].

(** A Luding page with a players cell; [players] is its text. *)
Definition luding_page (players : option string) : GamePage :=
  {| response_url := "http://luding.org/cgi-bin/GameData.py?f=00w&gameid=1508";
     headline := Some "Catan";
     year_cells := ["1995"];
     type_cells := ["Brettspiel"];
     box_text_cells := [];
     designer_links := ["Klaus Teuber"];
     artist_links := [];
     publisher_links := ["Kosmos"];
     last_href := ["http://www.kosmos.de"];
     image_srcs := ["/images/catan.jpg"; "/images/catan.jpg"];
     redirect_hrefs :=
       ["/cgi-bin/Redirect.py?f=00w&URL=http://boardgamegeek.com/boardgame/13"];
     players_text := players;
     age_text := Some "ab 10 Jahren" |}.

End Examples.

(** ** Inputs of the further examples *)

Module Fixtures.
Import Luding.

(** [urllib.parse.quote_plus] of Python 3.7 and later on the bytes of a
    text: letters, digits and [_.-~] stay, a space becomes [+], every
    other byte is written [%XX]. *)
Definition always_safe (c : ascii) : bool :=
  let n := Z.of_nat (nat_of_ascii c) in
  ((65 <=? n) && (n <=? 90)) || ((97 <=? n) && (n <=? 122))
  || ((48 <=? n) && (n <=? 57))
  || existsb (Ascii.eqb c) ["_"; "."; "-"; "~"]%char.

Definition hex_digit (n : nat) : ascii :=
  nth n (list_ascii_of_string "0123456789ABCDEF") "0"%char.

Definition quote_byte (c : ascii) : list ascii :=
  if always_safe c then [c]
  else if Ascii.eqb c " " then ["+"%char]
  else ["%"%char; hex_digit (nat_of_ascii c / 16); hex_digit (nat_of_ascii c mod 16)].

Definition quote_plus (s : string) : string :=
  string_of_list_ascii (flat_map quote_byte (list_ascii_of_string s)).

(** The builtin [str], as the text it returns. *)
Definition str (v : pyval) : string :=
  match Reference.py_str v with
  | VStr s => s
  | _ => ""
  end.

(** [BgaSpider._api_url] as far as the chain of a game uses it. *)
Definition game_api_url (path : string) (bga_id : pyval) : string :=
  "http://api/" +:+ path.

(** *** A job directory

    Paths are their text.  The directory of the spider holds a finished
    job, a job that was shut down, a directory without a state file and a
    file. *)
Definition joinpath (p : string) (s : string) : string := p +:+ "/" +:+ s.

Definition name (p : string) : string :=
  string_of_list_ascii
    (rev (take_while (fun c => negb (Ascii.eqb c "/")) (rev (list_ascii_of_string p)))).

Definition jobs : string := "/base/jobs/bga".

Definition is_dir (p : string) : bool :=
  bool_decide (p ∈ [jobs; "/base/jobs/bga/2020-01-01"; "/base/jobs/bga/2020-02-02";
                    "/base/jobs/bga/2020-03-03"]).

Definition is_file (p : string) : bool :=
  bool_decide (p ∈ ["/base/jobs/bga/2020-01-01/.state";
                    "/base/jobs/bga/2020-02-02/.state";
                    "/base/jobs/bga/notes.txt"]).

Definition iterdir (p : string) : list string :=
  if String.eqb p jobs
  then ["/base/jobs/bga/2020-01-01"; "/base/jobs/bga/2020-02-02";
        "/base/jobs/bga/2020-03-03"; "/base/jobs/bga/notes.txt"]
  else [].

Definition read_first_line (p : string) : Main.first_line :=
  if String.eqb p "/base/jobs/bga/2020-01-01/.state" then Main.Line (Some "finished")
  else if String.eqb p "/base/jobs/bga/2020-02-02/.state" then Main.Line (Some "shutdown")
  else Main.Line None.

(** [pytility.normalize_space] on a text that is one word already. *)
Definition normalize_space (line : option string) : string := default "" line.

(** No date is given, and the clock reads the same text at every call. *)
Definition parse_date (text : option string) : option Z := None.
Definition timestamp (d : Z) : float := 0%float.
Definition strftime (d : Z) (format : string) : string := "2020-04-04T12-00-00".

Definition args : Main.Args :=
  {| Main.spider := "bga"; Main.job_dir := None; Main.feeds_dir := None;
     Main.dont_run_before := None; Main.verbose := 0 |}.

Definition settings : Main.Settings :=
  {| Main.BASE_DIR := "/base"; Main.from_settings := None;
     Main.STATE_TAG_FILE := None |}.

End Fixtures.

(** * Properties *)

Import Items.

(** ** Assignments *)

Section AssignmentFacts.
Context `{U : Utils}.
Variable cls : ItemClass.

Lemma setitem_undeclared key value (self : Item) :
  fields cls !! key = None ->
  setitem cls key value self
  = (self, Raise (KeyError (cls_name cls +:+ " does not support field: " +:+ key))).
Proof.
  intros Hk. unfold setitem, bind, Item_setitem. rewrite Hk. reflexivity.
Qed.

(** The item after an assignment to a declared field, successful or not:
    the first store always happens, the second one only after a
    conversion that passed the assertion. *)
Lemma setitem_declared key f value (self : Item) :
  fields cls !! key = Some f ->
  setitem cls key value self
  = match assigned key f value with
    | Ok w => (<[key := w]> self, Ok tt)
    | Raise e => (<[key := setter_of f value]> self, Raise e)
    end.
Proof.
  intros Hk. unfold setitem, assigned, bind, Item_setitem, Item_getitem, ret, raise.
  rewrite Hk. change (default empty_field (Some f)) with f.
  change (default IDENTITY (setter f)) with (setter_of f).
  rewrite lookup_insert_eq.
  destruct (dtype f) as [d|]; [|reflexivity].
  destruct (is_none (setter_of f value) || isinstance_dtype (setter_of f value) d);
    [reflexivity|].
  destruct (dtype_convert f) as [c|]; [|reflexivity].
  change (match c with
          | ConvertWith g => g
          | ConvertByType => type_call (dtype_head d)
          end) with (converter_of c d).
  destruct (isinstance_dtype _ d || is_none _); [|reflexivity].
  rewrite insert_insert_eq. reflexivity.
Qed.

(** An assignment never touches another key. *)
Lemma setitem_other key value (self : Item) k :
  k <> key -> (setitem cls key value self).1 !! k = self !! k.
Proof.
  intros Hne. destruct (fields cls !! key) as [f|] eqn:Hk.
  - rewrite (setitem_declared _ f) by assumption.
    destruct (assigned key f value); cbn; rewrite lookup_insert_ne; congruence.
  - rewrite setitem_undeclared by assumption. reflexivity.
Qed.

Lemma no_setter_keeps_type f : setter f = None -> setter_keeps_type f.
Proof. intros Hs v Hv. unfold setter_of. rewrite Hs. exact Hv. Qed.

Lemma assigned_ok key f value w :
  setter_keeps_type f -> assigned key f value = Ok w -> value_ok f w = true.
Proof.
  intros Hs. unfold assigned, value_ok in *.
  destruct (dtype f) as [d|] eqn:Hd; [|reflexivity].
  destruct (is_none (setter_of f value) || isinstance_dtype (setter_of f value) d) eqn:H1.
  { intros [= <-]. exact H1. }
  destruct (dtype_convert f) as [c|]; [|discriminate].
  destruct (isinstance_dtype _ d || is_none _) eqn:H2; [|discriminate].
  intros [= <-]. specialize (Hs (converter_of c d (setter_of f value))).
  unfold value_ok in Hs. rewrite Hd in Hs. apply Hs. rewrite orb_comm. exact H2.
Qed.

End AssignmentFacts.

(** ** The declared fields *)

Section Registry.
Context `{U : Utils}.

(** No field of [GameItem] or [RatingItem] declares a setter. *)
Lemma declared_no_setter cls key f :
  declared_class cls -> fields cls !! key = Some f -> setter f = None.
Proof.
  intros [-> | ->] Hk; apply elem_of_list_to_map_2 in Hk;
    repeat (apply elem_of_cons in Hk as [Hk | Hk];
            [injection Hk as -> ->; reflexivity |]);
    apply elem_of_nil in Hk; destruct Hk.
Qed.

End Registry.

(** ** The type contract *)

Section TypeContract.
Context `{U : Utils}.

(** C1. Type contract.  For every field of [GameItem] and of [RatingItem]
    that declares a [dtype]: when [__setitem__] returns without an
    exception, the item holds under the key a value that is [None] or an
    instance of the declared type ([isinstance], so a [bool] is an [int]).
    A record built by successful assignments needs no second validation. *)
Theorem type_contract (cls : ItemClass) key value (self self' : Item) f d :
  declared_class cls ->
  fields cls !! key = Some f ->
  dtype f = Some d ->
  setitem cls key value self = (self', Ok tt) ->
  exists stored,
    self' !! key = Some stored
    /\ (is_none stored || isinstance_dtype stored d) = true.
Proof.
  intros Hcls Hk Hd Hset.
  rewrite (setitem_declared cls key f) in Hset by exact Hk.
  destruct (assigned key f value) as [w|e] eqn:Hw; [|discriminate].
  injection Hset as <-. exists w. split; [apply lookup_insert_eq|].
  apply assigned_ok in Hw.
  - unfold value_ok in Hw. rewrite Hd in Hw. exact Hw.
  - apply no_setter_keeps_type. exact (declared_no_setter cls key f Hcls Hk).
Qed.

(** C2. Failure of an assignment.  Let the value stored for a declared
    field (the setter applied to the assigned value) be neither [None] nor
    an instance of the declared [dtype].  Without a converter the
    assignment raises [ValueError] with a message that names the field,
    the declared type and the type found, and the mismatched value stays
    in the item.  With a converter, the converter is applied to the stored
    value and the check is made again on its result: the assignment
    succeeds, storing the setter of the converted value, when the result
    is [None] or an instance, and fails (the assertion) only when the
    mismatch is still there. *)
Theorem type_mismatch (cls : ItemClass) key value (self : Item) f d :
  fields cls !! key = Some f ->
  dtype f = Some d ->
  is_none (setter_of f value) = false ->
  isinstance_dtype (setter_of f value) d = false ->
  let stored := setter_of f value in
  match dtype_convert f with
  | None =>
      setitem cls key value self
      = (<[key := stored]> self,
         Raise (ValueError ("field <" +:+ key +:+ "> requires type " +:+ dtype_repr d
                              +:+ " but found type " +:+ type_repr (type_of stored))))
  | Some c =>
      let converted := converter_of c d stored in
      setitem cls key value self
      = if isinstance_dtype converted d || is_none converted
        then (<[key := setter_of f converted]> self, Ok tt)
        else (<[key := stored]> self, Raise AssertionError)
  end.
Proof.
  intros Hk Hd Hnone Hinst stored.
  rewrite (setitem_declared cls key f) by exact Hk.
  unfold assigned, stored. rewrite Hd, Hnone, Hinst. cbn [orb].
  destruct (dtype_convert f) as [c|]; [|reflexivity].
  cbn zeta. destruct (isinstance_dtype _ d || is_none _); reflexivity.
Qed.

End TypeContract.

(** ** The boolean serializer *)

(** C9. The boolean serializer returns [None] for every value that is
    not a [bool], the integers 0 and 1 included, which are its own outputs:
    [_serialize_bool(True)] is 1 and [_serialize_bool(_serialize_bool(True))]
    is [None], so the serializer is not idempotent. *)
Theorem serialize_bool_drops_its_output :
  (forall item : pyval, type_of item <> TBool -> _serialize_bool item = VNone)
  /\ _serialize_bool (VInt 0) = VNone
  /\ _serialize_bool (VInt 1) = VNone
  /\ _serialize_bool (VBool true) = VInt 1
  /\ _serialize_bool (_serialize_bool (VBool true)) = VNone
  /\ _serialize_bool (_serialize_bool (VBool true)) <> _serialize_bool (VBool true).
Proof.
  repeat split; try reflexivity; try discriminate.
  intros item Hty. destruct item; try reflexivity. destruct Hty. reflexivity.
Qed.

(** ** Loops of independent rounds

    The loops of [parse], [Item.__init__] and [load_item] have the same
    shape: every round writes at most one key of the item, decides what to
    write without looking at the item, and the first exception ends the
    loop. *)

Section Rounds.
Context {A : Type}.
Variable key : A -> string.
Variable out : A -> result (option pyval).
Variable body : A -> M unit.

Lemma for_each_rounds (l : list A) (self : Item) :
  (forall x (self : Item), x ∈ l ->
     match out x with
     | Ok None => body x self = (self, Ok tt)
     | Ok (Some w) => body x self = (<[key x := w]> self, Ok tt)
     | Raise e => (body x self).2 = Raise e
     end) ->
  match for_each body l self with
  | (self', Ok _) =>
      self' = foldl (write_outcome key out) self l
      /\ Forall (fun x => exists o, out x = Ok o) l
  | (_, Raise e) => Exists (fun x => out x = Raise e) l
  end.
Proof.
  revert self. induction l as [|x l IH]; intros self body_out.
  - cbn. split; [reflexivity|constructor].
  - pose proof (body_out x self ltac:(left)) as Hstep.
    assert (IH' := fun self' => IH self' (fun y s Hy => body_out y s ltac:(right; exact Hy))).
    clear IH. cbn [for_each foldl]. unfold bind at 1.
    unfold write_outcome at 2.
    destruct (out x) as [[w|]|e] eqn:Hp.
    + rewrite Hstep. specialize (IH' (<[key x := w]> self)).
      destruct (for_each body l _) as [a' [[]|e']].
      * destruct IH' as [-> HF]. split; [reflexivity|].
        constructor; [exists (Some w); exact Hp | exact HF].
      * right. exact IH'.
    + rewrite Hstep. specialize (IH' self).
      destruct (for_each body l _) as [a' [[]|e']].
      * destruct IH' as [-> HF]. split; [reflexivity|].
        constructor; [exists None; exact Hp | exact HF].
      * right. exact IH'.
    + destruct (body x self) as [a' r]. cbn in Hstep. subst r.
      left. exact Hp.
Qed.

Lemma foldl_write_notin (l : list A) (self : Item) k :
  k ∉ key <$> l -> foldl (write_outcome key out) self l !! k = self !! k.
Proof.
  revert self. induction l as [|x l IH]; intros self Hnotin; [reflexivity|].
  cbn in Hnotin. apply not_elem_of_cons in Hnotin as [Hne Hnotin].
  cbn [foldl]. rewrite IH by exact Hnotin.
  unfold write_outcome.
  destruct (out x) as [[w|]|e]; try reflexivity.
  apply lookup_insert_ne. congruence.
Qed.

Lemma foldl_write_in (l : list A) (self : Item) x o :
  NoDup (key <$> l) -> x ∈ l -> out x = Ok o ->
  foldl (write_outcome key out) self l !! key x
  = match o with Some w => Some w | None => self !! key x end.
Proof.
  revert self. induction l as [|y l IH]; intros self Hnd Hin Hp.
  - apply elem_of_nil in Hin. destruct Hin.
  - cbn in Hnd. apply NoDup_cons in Hnd as [Hk Hnd].
    apply elem_of_cons in Hin as [<- | Hin].
    + cbn [foldl]. rewrite foldl_write_notin by exact Hk.
      unfold write_outcome. rewrite Hp.
      destruct o as [w|]; [apply lookup_insert_eq | reflexivity].
    + cbn [foldl]. rewrite (IH _ Hnd Hin Hp).
      destruct o as [w|]; [reflexivity|].
      unfold write_outcome.
      assert (key y <> key x).
      { intros Heq. apply Hk. rewrite Heq. apply list_elem_of_fmap.
        exists x. split; [reflexivity|exact Hin]. }
      destruct (out y) as [[w|]|e]; try reflexivity.
      apply lookup_insert_ne. assumption.
Qed.

End Rounds.

Section RoundsOverMap.
Context {B : Type}.
Variable m : gmap string B.
Variable out : string * B -> result (option pyval).
Variable body : string * B -> M unit.

Hypothesis body_out : forall x (self : Item), x ∈ map_to_list m ->
  match out x with
  | Ok None => body x self = (self, Ok tt)
  | Ok (Some w) => body x self = (<[x.1 := w]> self, Ok tt)
  | Raise e => (body x self).2 = Raise e
  end.

Local Abbreviation loop :=
  (match for_each body (map_to_list m) ∅ with
   | (self, Ok _) => Ok self
   | (_, Raise e) => Raise e
   end).

(** A loop over the entries of a dictionary returns an item exactly when
    every round has an outcome, and the item holds exactly the outcomes. *)
Lemma loop_Ok (self : Item) :
  loop = Ok self
  <-> (forall k b, m !! k = Some b -> out (k, b) = Ok (self !! k))
      /\ (forall k, m !! k = None -> self !! k = None).
Proof.
  pose proof (for_each_rounds fst out body (map_to_list m) ∅ body_out) as H.
  pose proof (NoDup_fst_map_to_list m) as Hnd.
  set (final := foldl (write_outcome fst out) ∅ (map_to_list m)) in *.
  assert (Hnone : forall k, m !! k = None -> final !! k = None).
  { intros k Hk. unfold final. rewrite foldl_write_notin; [reflexivity|].
    intros Hin. apply list_elem_of_fmap in Hin as [[k' b] [-> Hin]].
    apply elem_of_map_to_list in Hin. cbn in Hk. congruence. }
  destruct (for_each body (map_to_list m) ∅) as [a' [[]|e]].
  - destruct H as [-> HF]. rewrite Forall_forall in HF.
    assert (Hlook : forall k b, m !! k = Some b -> out (k, b) = Ok (final !! k)).
    { intros k b Hk. apply elem_of_map_to_list in Hk.
      destruct (HF _ Hk) as [o Ho]. unfold final.
      rewrite (foldl_write_in fst out _ ∅ (k, b) o Hnd Hk Ho), Ho.
      destruct o; reflexivity. }
    split.
    + intros [= <-]. split; assumption.
    + intros [H1 H2]. f_equal. apply map_eq. intros k.
      destruct (m !! k) as [b|] eqn:Hk.
      * specialize (H1 k b Hk). rewrite (Hlook k b Hk) in H1. congruence.
      * rewrite (Hnone k Hk), (H2 k Hk). reflexivity.
  - split; [discriminate|]. intros [H1 _]. exfalso.
    apply Exists_exists in H as [[k b] [Hin Hp]].
    apply elem_of_map_to_list in Hin. rewrite (H1 k b Hin) in Hp. discriminate.
Qed.

(** An exception of the loop is the exception of one round. *)
Lemma loop_Raise e :
  loop = Raise e -> exists k b, m !! k = Some b /\ out (k, b) = Raise e.
Proof.
  pose proof (for_each_rounds fst out body (map_to_list m) ∅ body_out) as H.
  destruct (for_each body (map_to_list m) ∅) as [a' [[]|e']]; [discriminate|].
  intros [= ->]. apply Exists_exists in H as [[k b] [Hin Hp]].
  exists k, b. split; [apply elem_of_map_to_list; exact Hin | exact Hp].
Qed.

End RoundsOverMap.

(** ** [parse] field by field *)

Section Parse.
Context `{U : Utils}.
Variable cls : ItemClass.
Variable item : gmap string pyval.

Local Abbreviation get key := (default VNone (item !! key)).
Local Abbreviation out_of kf := (parsed kf.1 kf.2 (get kf.1)).

(** One round of the loop against the per-field outcome. *)
Lemma parse_field_parsed key f (article : Item) :
  fields cls !! key = Some f ->
  match parsed key f (get key) with
  | Ok None => parse_field cls item key f article = (article, Ok tt)
  | Ok (Some w) => parse_field cls item key f article = (<[key := w]> article, Ok tt)
  | Raise e => (parse_field cls item key f article).2 = Raise e
  end.
Proof.
  intros Hk. unfold parsed, parse_field.
  destruct (is_none _ || eq_empty_str _); [reflexivity|].
  rewrite (setitem_declared cls key f) by exact Hk.
  destruct (assigned key f (default VNone (item !! key))) as [w|e]; [reflexivity|].
  destruct e; try reflexivity.
  rewrite (setitem_declared cls key f) by exact Hk.
  destruct (assigned key f _) as [w|e]; [|reflexivity].
  rewrite insert_insert_eq. reflexivity.
Qed.

Lemma parse_body_out (x : string * Field) (self : Item) :
  x ∈ map_to_list (fields cls) ->
  match out_of x with
  | Ok None => parse_field cls item x.1 x.2 self = (self, Ok tt)
  | Ok (Some w) => parse_field cls item x.1 x.2 self = (<[x.1 := w]> self, Ok tt)
  | Raise e => (parse_field cls item x.1 x.2 self).2 = Raise e
  end.
Proof.
  destruct x as [k f]. intros Hin. apply elem_of_map_to_list in Hin.
  exact (parse_field_parsed k f self Hin).
Qed.

(** [parse] returns an article exactly when the per-field outcome of every
    declared field is a value or a skip, and the article holds exactly
    those values. *)
Lemma parse_Ok (article : Item) :
  parse cls item = Ok article
  <-> (forall key f, fields cls !! key = Some f ->
         parsed key f (get key) = Ok (article !! key))
      /\ (forall key, fields cls !! key = None -> article !! key = None).
Proof.
  exact (loop_Ok (fields cls) (fun kf => out_of kf)
           (fun kp => parse_field cls item kp.1 kp.2) parse_body_out article).
Qed.

(** An exception of [parse] is the exception of one declared field. *)
Lemma parse_Raise e :
  parse cls item = Raise e ->
  exists key f, fields cls !! key = Some f /\ parsed key f (get key) = Raise e.
Proof.
  exact (loop_Raise (fields cls) (fun kf => out_of kf)
           (fun kp => parse_field cls item kp.1 kp.2) parse_body_out e).
Qed.

(** A value that [parse] stores satisfies the type contract, when the
    setter of the field keeps it. *)
Lemma parsed_ok key f value w :
  setter_keeps_type f -> parsed key f value = Ok (Some w) -> value_ok f w = true.
Proof.
  intros Hs. unfold parsed.
  destruct (is_none _ || eq_empty_str _); [discriminate|].
  destruct (assigned key f value) as [w'|e] eqn:H1.
  - intros [= <-]. exact (assigned_ok key f value w' Hs H1).
  - destruct e; try discriminate.
    destruct (assigned key f (default IDENTITY (parser f) value)) as [w'|e] eqn:H2;
      [|discriminate].
    intros [= <-]. exact (assigned_ok key f _ w' Hs H2).
Qed.

End Parse.

(** ** [Item.__init__] and [clean] *)

Section Clean.
Context `{U : Utils}.
Variable cls : ItemClass.

Lemma setitem_initialized (x : string * pyval) (self : Item) :
  match initialized cls x.1 x.2 with
  | Ok None => setitem cls x.1 x.2 self = (self, Ok tt)
  | Ok (Some w) => setitem cls x.1 x.2 self = (<[x.1 := w]> self, Ok tt)
  | Raise e => (setitem cls x.1 x.2 self).2 = Raise e
  end.
Proof.
  unfold initialized. destruct (fields cls !! x.1) as [f|] eqn:Hk.
  - rewrite (setitem_declared cls x.1 f) by exact Hk.
    destruct (assigned x.1 f x.2); reflexivity.
  - rewrite setitem_undeclared by exact Hk. reflexivity.
Qed.

Lemma Item_init_Ok (values : gmap string pyval) (self : Item) :
  Item_init cls values = Ok self
  <-> (forall k v, values !! k = Some v -> initialized cls k v = Ok (self !! k))
      /\ (forall k, values !! k = None -> self !! k = None).
Proof.
  exact (loop_Ok values (fun kv => initialized cls kv.1 kv.2)
           (fun kv => setitem cls kv.1 kv.2)
           (fun x self _ => setitem_initialized x self) self).
Qed.

(** A value that already satisfies the contract of a field without setter
    is stored as it is. *)
Lemma assigned_fixed key f v :
  setter f = None -> value_ok f v = true -> assigned key f v = Ok v.
Proof.
  intros Hs Hv. unfold assigned, value_ok, setter_of in *. rewrite Hs. cbn.
  destruct (dtype f) as [d|]; [|reflexivity]. unfold IDENTITY. rewrite Hv. reflexivity.
Qed.

(** What [clean] returns holds declared fields only, each with a value
    that an assignment stored. *)
Lemma clean_stored (item : gmap string pyval) (record : Item) key v :
  clean cls item = Ok record -> record !! key = Some v ->
  exists f raw, fields cls !! key = Some f /\ assigned key f raw = Ok v.
Proof.
  unfold clean. intros Hc Hv.
  match type of Hc with Item_init _ ?m = _ => set (kept := m) in * end.
  apply Item_init_Ok in Hc as [H1 H2].
  destruct (kept !! key) as [raw|] eqn:Hf.
  - specialize (H1 key raw Hf). unfold initialized in H1.
    destruct (fields cls !! key) as [f|]; [|discriminate].
    exists f, raw. split; [reflexivity|].
    destruct (assigned key f raw); [|discriminate]. congruence.
  - rewrite (H2 key Hf) in Hv. discriminate.
Qed.

(** [Item.__init__] on a record of typed values of fields without setter
    returns the record. *)
Lemma Item_init_fixed (record : Item) :
  (forall key v, record !! key = Some v ->
     exists f, fields cls !! key = Some f /\ setter f = None /\ value_ok f v = true) ->
  Item_init cls record = Ok record.
Proof.
  intros Hrec. apply Item_init_Ok. split.
  - intros k v Hk. destruct (Hrec k v Hk) as [f [Hf [Hs Hv]]].
    unfold initialized. rewrite Hf, (assigned_fixed k f v Hs Hv), Hk. reflexivity.
  - intros k Hk. exact Hk.
Qed.

End Clean.

(** ** [parse] and [clean] on the declared classes *)

Section Declared.
Context `{U : Utils}.

(** C3. parseLoose.  For an item class of [items.py] and any input
    mapping, [parse] treats every declared field on its own, as [parsed]
    says: a raw value that is [None] or [''] is skipped and leaves no
    entry; any other raw value is assigned; when that assignment raises
    [ValueError], the parser of the field (the identity if it has none) is
    applied to the raw value and the result assigned, once, and an
    exception of this retry (or an exception other than [ValueError] of the
    first attempt) is the exception of [parse].  [parse] returns a record
    exactly when every field has an outcome, the record holds exactly the
    outcomes, and it is fully typed. *)
Theorem parse_loose (cls : ItemClass) (item : gmap string pyval) :
  declared_class cls ->
  (forall article,
     parse cls item = Ok article
     <-> (forall key f, fields cls !! key = Some f ->
            parsed key f (default VNone (item !! key)) = Ok (article !! key))
         /\ (forall key, fields cls !! key = None -> article !! key = None))
  /\ (forall e,
        parse cls item = Raise e ->
        exists key f, fields cls !! key = Some f
                      /\ parsed key f (default VNone (item !! key)) = Raise e)
  /\ (forall article, parse cls item = Ok article -> fully_typed cls article).
Proof.
  intros Hcls. split; [|split].
  - intros article. apply parse_Ok.
  - intros e. apply parse_Raise.
  - intros article Hp key v Hv. apply parse_Ok in Hp as [H1 H2].
    destruct (fields cls !! key) as [f|] eqn:Hk.
    + exists f. split; [reflexivity|].
      specialize (H1 key f Hk). rewrite Hv in H1.
      apply (parsed_ok key f (default VNone (item !! key)) v); [|exact H1].
      apply no_setter_keeps_type. exact (declared_no_setter cls key f Hcls Hk).
    + rewrite (H2 key Hk) in Hv. discriminate.
Qed.

(** C7, amended.  For an item class of [items.py]: when [clean] returns
    a record, cleaning that record again returns it without the fields
    whose stored value is falsy ([None], [0], [0.0], [False], an empty
    string or container: what a converter made of a truthy raw value).
    So [clean(clean(x)) == clean(x)] when no stored value is falsy. *)
Theorem clean_twice_drops_falsy (cls : ItemClass) (item : gmap string pyval) (record : Item) :
  declared_class cls ->
  clean cls item = Ok record ->
  clean_twice cls item = Ok (filter (fun kv => truthy kv.2 = true) record)
  /\ ((forall key v, record !! key = Some v -> truthy v = true) ->
      clean_twice cls item = clean cls item).
Proof.
  intros Hcls Hc.
  assert (Hrec : forall key v, record !! key = Some v ->
            exists f, fields cls !! key = Some f /\ setter f = None /\ value_ok f v = true).
  { intros key v Hv. destruct (clean_stored cls item record key v Hc Hv) as [f [raw [Hf Ha]]].
    pose proof (declared_no_setter cls key f Hcls Hf) as Hs.
    exists f. repeat split; try assumption.
    exact (assigned_ok key f raw v (no_setter_keeps_type f Hs) Ha). }
  assert (Hsecond : clean cls record = Ok (filter (fun kv => truthy kv.2 = true) record)).
  { unfold clean.
    replace (filter (fun kv => truthy kv.2 = true ∧ is_Some (fields cls !! kv.1)) record)
      with (filter (fun kv : string * pyval => truthy kv.2 = true) record).
    - apply Item_init_fixed. intros key v Hv.
      apply map_lookup_filter_Some in Hv as [Hv _]. exact (Hrec key v Hv).
    - apply map_filter_strong_ext_1. intros k v. cbn. split.
      + intros [Ht Hv]. repeat split; try assumption.
        destruct (Hrec k v Hv) as [f [Hf _]]. rewrite Hf. eauto.
      + intros [[Ht _] Hv]. split; assumption. }
  unfold clean_twice. rewrite Hc, Hsecond. split; [reflexivity|].
  intros Hall. f_equal. apply map_filter_id. intros k v Hv. cbn. exact (Hall k v Hv).
Qed.

End Declared.


(** ** Numeric ranges *)

Section Ranges.
Context `{U : Utils}.

Lemma MapCompose_app (fs gs : list callable) (value : pyval) :
  MapCompose (fs ++ gs) value = MapCompose gs (MapCompose fs value).
Proof. unfold MapCompose. cbn [arg_to_iter]. rewrite fold_left_app. reflexivity. Qed.

(** A value inside a range with a lower bound is a number, hence a single
    value for [MapCompose]. *)
Lemma in_range_single lo hi v :
  in_range (Some lo) hi v = true -> arg_to_iter v = [v].
Proof.
  unfold in_range. intros H. apply andb_true_iff in H as [H _].
  destruct lo, v; cbn in H; try discriminate; reflexivity.
Qed.

(** The last stages of a numeric processor on one numeric value. *)
Lemma range_stages lo hi (zero : bool) (v : pyval) :
  MapCompose (validate_range (Some lo) hi :: if zero then [or_none] else []) (VList [v])
  = VList (if in_range (Some lo) hi v && (negb zero || truthy v) then [v] else []).
Proof.
  unfold MapCompose. cbn [arg_to_iter].
  assert (Hfirst : flat_map (fun x => arg_to_iter (validate_range (Some lo) hi x)) [v]
                   = if in_range (Some lo) hi v then [v] else []).
  { cbn [flat_map]. rewrite app_nil_r. unfold validate_range.
    destruct (in_range (Some lo) hi v) eqn:Hr; [|reflexivity].
    exact (in_range_single lo hi v Hr). }
  destruct zero; cbn [fold_left]; rewrite Hfirst.
  - destruct (in_range (Some lo) hi v) eqn:Hr; [|reflexivity].
    cbn [flat_map andb negb orb]. rewrite app_nil_r. unfold or_none, py_or.
    destruct (truthy v); [|reflexivity]. f_equal. exact (in_range_single lo hi v Hr).
  - destruct (in_range (Some lo) hi v); reflexivity.
Qed.

(** Every numeric processor is the shared stages followed by its range
    check and, if it has one, the stage that turns zero into [None]. *)
Lemma ranged_shape (p : ranged) :
  In p ranged_processors ->
  exists lo,
    lower p = Some lo
    /\ forall c,
         processor p c
         = MapCompose (validate_range (Some lo) (upper p)
                         :: if zero_is_none p then [or_none] else [])
             (numeric_value (parse_number p) c).
Proof.
  intros Hin. unfold ranged_processors in Hin.
  repeat (destruct Hin as [<- | Hin];
          [eexists; split; [reflexivity|]; intros c;
           cbn [lower upper zero_is_none processor parse_number];
           unfold numeric_value; rewrite <- MapCompose_app; reflexivity |]).
  destruct Hin.
Qed.

(** C6, amended.  For each of the five numeric processors and a
    candidate with one numeric value [v]: when [v] lies outside the
    inclusive range of the processor, the processor yields no value; when
    it lies inside, the bounds included, the processor yields [v], except
    that a processor ending in [lambda v: v or None]
    ([POS_FLOAT_PROCESSOR] and the processor of [year]) yields no value for
    a zero. *)
Theorem range_enforcement (p : ranged) (c v : pyval) :
  In p ranged_processors ->
  numeric_value (parse_number p) c = VList [v] ->
  (in_range (lower p) (upper p) v = false -> processor p c = VList [])
  /\ (in_range (lower p) (upper p) v = true ->
        processor p c = VList (if negb (zero_is_none p) || truthy v then [v] else [])).
Proof.
  intros Hin Hv. destruct (ranged_shape p Hin) as [lo [Hlo Hp]].
  rewrite Hp, Hv, Hlo, range_stages.
  split; intros ->; reflexivity.
Qed.

End Ranges.

(** ** Loaders *)

Import Loaders.

Lemma res_bind_inv {A B} (r : result A) (k : A -> result B) b :
  res_bind r k = Ok b -> exists a, r = Ok a /\ k a = Ok b.
Proof.
  destruct r as [a|e]; [|discriminate].
  intros H. exists a. split; [reflexivity | exact H].
Qed.

Section LoaderFacts.
Context `{U : Utils}.
Variable cls : ItemClass.
Variable default_input_processor : callable.
Variable default_output_processor : callable.

Local Abbreviation add_value := (Loaders.add_value cls default_input_processor).
Local Abbreviation add_jmes := (Loaders.add_jmes cls default_input_processor).
Local Abbreviation load_item := (Loaders.load_item cls default_output_processor).

Lemma MapCompose_nil (functions : list callable) :
  MapCompose functions (VList []) = VList [].
Proof.
  unfold MapCompose. cbn [arg_to_iter]. f_equal.
  induction functions as [|g gs IH]; [reflexivity | exact IH].
Qed.

Lemma extend_values_keys field_name values collected k :
  k ∈ (extend_values field_name values collected).*1 ->
  k = field_name \/ k ∈ collected.*1.
Proof.
  induction collected as [|[k' vs] collected IH]; cbn.
  - intros Hin. apply list_elem_of_singleton in Hin. left. exact Hin.
  - destruct (String.eqb k' field_name); cbn; intros Hin.
    + right. exact Hin.
    + apply elem_of_cons in Hin as [-> | Hin].
      * right. left.
      * destruct (IH Hin) as [-> | H]; [left; reflexivity | right; right; exact H].
Qed.

(** Adding a value never touches the item, and collects under the named
    field only. *)
Lemma add_value_inv field_name value (ldr ldr' : ItemLoader) :
  add_value field_name value ldr = Ok ldr' ->
  ldr_item ldr' = ldr_item ldr
  /\ ldr_json ldr' = ldr_json ldr
  /\ forall k, k ∈ (ldr_values ldr').*1 -> k = field_name \/ k ∈ (ldr_values ldr).*1.
Proof.
  unfold Loaders.add_value, res_bind, get_field_attr.
  destruct (fields cls !! field_name) as [f|]; [|discriminate].
  destruct (truthy _); intros [= <-]; cbn.
  - repeat split. apply extend_values_keys.
  - repeat split. intros k Hk. right. exact Hk.
Qed.

(** No candidate, nothing collected: a value that is [None] or an empty
    list leaves the loader as it is, when the input processor of the field
    makes nothing out of nothing. *)
Lemma add_value_nothing field_name f value (ldr : ItemLoader) :
  fields cls !! field_name = Some f ->
  arg_to_iter value = [] ->
  truthy (default default_input_processor (input_processor f) (VList [])) = false ->
  add_value field_name value ldr = Ok ldr.
Proof.
  intros Hf Hv Hp. unfold Loaders.add_value, res_bind, get_field_attr.
  rewrite Hf, Hv, Hp. reflexivity.
Qed.

(** [load_item] writes the fields it has values for and no other. *)
Lemma load_item_other (ldr : ItemLoader) (item : Item) k :
  load_item ldr = Ok item ->
  k ∉ (ldr_values ldr).*1 ->
  item !! k = ldr_item ldr !! k.
Proof.
  unfold Loaders.load_item. destruct ldr as [start json values]. cbn [ldr_item ldr_values].
  revert start. induction values as [|[k' vs] values IH]; intros start.
  - cbn. intros [= <-] _. reflexivity.
  - cbn [for_each]. unfold bind at 1. intros Hrun Hk.
    cbn in Hk. apply not_elem_of_cons in Hk as [Hne Hk].
    destruct (load_field cls default_output_processor (k', vs) start) as [mid r] eqn:Hstep.
    destruct r as [[]|e]; [|discriminate].
    rewrite (IH mid Hrun Hk).
    unfold load_field in Hstep. cbn [fst snd] in Hstep.
    destruct (get_field_attr cls k' output_processor default_output_processor) as [proc|e].
    + destruct (is_none (proc (VList vs))).
      * injection Hstep as <-. reflexivity.
      * assert (mid = (setitem cls k' (proc (VList vs)) start).1) as -> by (rewrite Hstep; reflexivity).
        apply setitem_other. exact Hne.
    + discriminate.
Qed.

Lemma load_item_empty (item : Item) json :
  load_item (mkLoader item json []) = Ok item.
Proof. reflexivity. Qed.

(** *** The values of a field *)

Lemma extend_values_lookup field_name values (collected : list (string * list pyval)) k :
  (list_to_map (extend_values field_name values collected) : gmap string (list pyval)) !! k
  = if decide (k = field_name)
    then Some (default [] ((list_to_map collected : gmap string (list pyval)) !! field_name)
               ++ values)%list
    else (list_to_map collected : gmap string (list pyval)) !! k.
Proof.
  induction collected as [|[k' vs] collected IH]; cbn [extend_values list_to_map foldr].
  - cbn. destruct (decide (k = field_name)) as [->|Hne].
    + rewrite lookup_insert_eq. reflexivity.
    + rewrite lookup_insert_ne by congruence. reflexivity.
  - destruct (String.eqb_spec k' field_name) as [->|Hk'].
    + cbn. destruct (decide (k = field_name)) as [->|Hne].
      * rewrite !lookup_insert_eq. reflexivity.
      * rewrite !lookup_insert_ne by congruence. reflexivity.
    + cbn. destruct (decide (k = k')) as [->|Hne].
      * rewrite !lookup_insert_eq. destruct (decide (k' = field_name)); [contradiction|].
        reflexivity.
      * rewrite !lookup_insert_ne by congruence. rewrite IH.
        destruct (decide (k = field_name)); reflexivity.
Qed.

Lemma extend_values_NoDup field_name values (collected : list (string * list pyval)) :
  NoDup collected.*1 -> NoDup (extend_values field_name values collected).*1.
Proof.
  induction collected as [|[k' vs] collected IH]; cbn; intros Hnd.
  - apply NoDup_singleton.
  - apply NoDup_cons in Hnd as [Hk Hnd].
    destruct (String.eqb_spec k' field_name) as [->|Hne]; cbn.
    + apply NoDup_cons. split; assumption.
    + apply NoDup_cons. split; [|exact (IH Hnd)].
      intros Hin. apply extend_values_keys in Hin as [-> | Hin]; [apply Hne; reflexivity|].
      exact (Hk Hin).
Qed.

(** [add_value] appends to the values of the named field what the input
    processor makes of the value, and leaves every other field, the item
    and the document as they are. *)
Lemma add_value_collected field_name value (ldr ldr' : ItemLoader) :
  add_value field_name value ldr = Ok ldr' ->
  ldr_item ldr' = ldr_item ldr
  /\ ldr_json ldr' = ldr_json ldr
  /\ (NoDup (ldr_values ldr).*1 -> NoDup (ldr_values ldr').*1)
  /\ (forall k, k <> field_name -> collected_values k ldr' = collected_values k ldr)
  /\ exists f, fields cls !! field_name = Some f
       /\ collected_values field_name ldr'
          = let processed_value :=
              default default_input_processor (input_processor f)
                (VList (arg_to_iter value)) in
            if truthy processed_value
            then Some (default [] (collected_values field_name ldr)
                       ++ arg_to_iter processed_value)%list
            else collected_values field_name ldr.
Proof.
  unfold Loaders.add_value, res_bind, get_field_attr, collected_values.
  destruct (fields cls !! field_name) as [f|]; [|discriminate].
  cbv beta iota zeta.
  destruct (truthy _) eqn:Ht; intros [= <-]; cbn [ldr_item ldr_json ldr_values].
  - split; [reflexivity|]. split; [reflexivity|]. split; [apply extend_values_NoDup|].
    split.
    + intros k Hk. rewrite extend_values_lookup.
      destruct (decide (k = field_name)); [contradiction | reflexivity].
    + exists f. split; [reflexivity|]. rewrite Ht, extend_values_lookup.
      destruct (decide (field_name = field_name)); [reflexivity | contradiction].
  - split; [reflexivity|]. split; [reflexivity|]. split; [auto|].
    split; [reflexivity|]. exists f. split; [reflexivity|]. rewrite Ht. reflexivity.
Qed.

(** A loader starts with the values of its item, one entry per field. *)
Lemma init_collected (item : Item) json k :
  collected_values k (ItemLoader_init item json) = arg_to_iter <$> item !! k.
Proof.
  unfold collected_values, ItemLoader_init. cbn [ldr_values].
  rewrite list_to_map_fmap, list_to_map_to_list, lookup_fmap. reflexivity.
Qed.

Lemma init_NoDup (item : Item) json :
  NoDup (ldr_values (ItemLoader_init item json)).*1.
Proof.
  unfold ItemLoader_init. cbn [ldr_values].
  rewrite <- list_fmap_compose.
  replace (fst ∘ prod_map id arg_to_iter) with (@fst string pyval) by reflexivity.
  apply NoDup_fst_map_to_list.
Qed.

(** *** [load_item] field by field *)

(** One round against the outcome of the field. *)
Lemma load_field_loaded (kv : string * list pyval) (item : Item) :
  match loaded cls default_output_processor kv with
  | Ok None => load_field cls default_output_processor kv item = (item, Ok tt)
  | Ok (Some w) =>
      load_field cls default_output_processor kv item = (<[kv.1 := w]> item, Ok tt)
  | Raise e => (load_field cls default_output_processor kv item).2 = Raise e
  end.
Proof.
  unfold loaded, load_field, get_field_attr.
  destruct (fields cls !! kv.1) as [f|] eqn:Hf; [|reflexivity].
  cbv zeta. destruct (is_none _); [reflexivity|].
  rewrite (setitem_declared cls kv.1 f) by exact Hf.
  destruct (assigned kv.1 f _); reflexivity.
Qed.

(** The loaded item: every field that has values holds what its round
    leaves, every other field is that of the item the loader was given. *)
Lemma load_item_Ok (ldr : ItemLoader) (item : Item) :
  NoDup (ldr_values ldr).*1 ->
  load_item ldr = Ok item ->
  (forall k vs, collected_values k ldr = Some vs ->
     exists o, loaded cls default_output_processor (k, vs) = Ok o
               /\ item !! k = match o with
                              | Some w => Some w
                              | None => ldr_item ldr !! k
                              end)
  /\ (forall k, collected_values k ldr = None -> item !! k = ldr_item ldr !! k).
Proof.
  intros Hnd. unfold Loaders.load_item, collected_values.
  pose proof (for_each_rounds fst (loaded cls default_output_processor)
                (load_field cls default_output_processor) (ldr_values ldr) (ldr_item ldr)
                (fun x self _ => load_field_loaded x self)) as H.
  destruct (for_each _ _ _) as [item' [[]|e]]; [|discriminate].
  destruct H as [-> HF]. intros [= <-]. rewrite Forall_forall in HF. split.
  - intros k vs Hk. apply elem_of_list_to_map in Hk; [|exact Hnd].
    destruct (HF _ Hk) as [o Ho]. exists o. split; [exact Ho|].
    exact (foldl_write_in fst _ _ _ (k, vs) o Hnd Hk Ho).
  - intros k Hk. apply not_elem_of_list_to_map in Hk.
    apply foldl_write_notin. exact Hk.
Qed.

(** [load_item] returns an item when every round does, *)
Lemma load_item_total (ldr : ItemLoader) :
  (forall kv, kv ∈ ldr_values ldr ->
     exists o, loaded cls default_output_processor kv = Ok o) ->
  exists item, load_item ldr = Ok item.
Proof.
  intros Hall. unfold Loaders.load_item.
  pose proof (for_each_rounds fst (loaded cls default_output_processor)
                (load_field cls default_output_processor) (ldr_values ldr) (ldr_item ldr)
                (fun x self _ => load_field_loaded x self)) as H.
  destruct (for_each _ _ _) as [item' [[]|e]]; [eexists; reflexivity|].
  exfalso. apply Exists_exists in H as [kv [Hin Hr]].
  destruct (Hall kv Hin) as [o Ho]. congruence.
Qed.

(** and an exception of [load_item] is the exception of one round. *)
Lemma load_item_Raise (ldr : ItemLoader) e :
  load_item ldr = Raise e ->
  exists kv, kv ∈ ldr_values ldr /\ loaded cls default_output_processor kv = Raise e.
Proof.
  unfold Loaders.load_item.
  pose proof (for_each_rounds fst (loaded cls default_output_processor)
                (load_field cls default_output_processor) (ldr_values ldr) (ldr_item ldr)
                (fun x self _ => load_field_loaded x self)) as H.
  destruct (for_each _ _ _) as [item' [[]|e']]; [discriminate|].
  intros [= ->]. apply Exists_exists in H. exact H.
Qed.

(** [load_item] removes no field. *)
Lemma load_item_keeps (ldr : ItemLoader) (item : Item) k :
  NoDup (ldr_values ldr).*1 ->
  load_item ldr = Ok item ->
  is_Some (ldr_item ldr !! k) -> is_Some (item !! k).
Proof.
  intros Hnd Hload Hk. destruct (load_item_Ok ldr item Hnd Hload) as [Hin Hout].
  destruct (collected_values k ldr) as [vs|] eqn:Hc.
  - destruct (Hin k vs Hc) as [[w|] [_ ->]]; [eexists; reflexivity | exact Hk].
  - rewrite (Hout k Hc). exact Hk.
Qed.

(** What [load_item] leaves of a field that holds the value of the item
    and nothing else. *)
Lemma load_item_reloaded (ldr : ItemLoader) (item : Item) k :
  NoDup (ldr_values ldr).*1 ->
  load_item ldr = Ok item ->
  collected_values k ldr = arg_to_iter <$> ldr_item ldr !! k ->
  match ldr_item ldr !! k with
  | Some v => exists w, reloaded cls default_output_processor k v = Ok w
                        /\ item !! k = Some w
  | None => item !! k = None
  end.
Proof.
  intros Hnd Hload Hk. destruct (load_item_Ok ldr item Hnd Hload) as [Hin Hout].
  destruct (ldr_item ldr !! k) as [v|] eqn:Hv; cbn in Hk.
  - destruct (Hin k _ Hk) as [o [Ho Hitem]]. unfold reloaded. rewrite Ho. cbn [res_bind].
    exists (default v o). split; [reflexivity|]. rewrite Hitem.
    destruct o; [reflexivity | exact Hv].
  - rewrite (Hout k Hk). exact Hv.
Qed.

(** A loader that was given an item and no other value reloads the item:
    each field goes through its output processor again. *)
Lemma reload_Ok (item item' : Item) json k :
  load_item (ItemLoader_init item json) = Ok item' ->
  match item !! k with
  | Some v => exists w, reloaded cls default_output_processor k v = Ok w
                        /\ item' !! k = Some w
  | None => item' !! k = None
  end.
Proof.
  intros Hload.
  exact (load_item_reloaded _ item' k (init_NoDup item json) Hload
           (init_collected item json k)).
Qed.

(** An item whose values are what their output processors make of them
    is reloaded as it is. *)
Lemma reload_fixed (item : Item) json :
  (forall k v, item !! k = Some v -> reloaded cls default_output_processor k v = Ok v) ->
  load_item (ItemLoader_init item json) = Ok item.
Proof.
  intros Hfix.
  destruct (load_item_total (ItemLoader_init item json)) as [item' Hload].
  { intros [k vs] Hin. apply elem_of_list_to_map in Hin; [|apply init_NoDup].
    fold (collected_values k (ItemLoader_init item json)) in Hin.
    rewrite init_collected in Hin.
    destruct (item !! k) as [v|] eqn:Hv; [|discriminate]. injection Hin as <-.
    specialize (Hfix k v Hv). unfold reloaded in Hfix.
    destruct (loaded cls default_output_processor (k, arg_to_iter v)) as [o|e];
      [exists o; reflexivity | discriminate]. }
  rewrite Hload. f_equal. apply map_eq. intros k.
  pose proof (reload_Ok item item' json k Hload) as Hk.
  destruct (item !! k) as [v|] eqn:Hv.
  - destruct Hk as [w [Hr Hw]]. rewrite (Hfix k v Hv) in Hr. congruence.
  - exact Hk.
Qed.

End LoaderFacts.

(** ** The request chain *)

Import Bga.

Section Chain.
Context `{U : Utils}.
Variable cls : ItemClass.
Variable default_input_processor : callable.
Variable default_output_processor : callable.

Local Abbreviation load_stage := (Bga.load_stage cls default_input_processor default_output_processor).
Local Abbreviation respond := (Bga.respond cls default_input_processor default_output_processor).
Local Abbreviation crawl := (Bga.crawl cls default_input_processor default_output_processor).

(** The request that [_next_request_or_item] makes of the head of a queue. *)
Lemma next_request (item : Item) u s (rest : list (string * stage)) :
  _next_request_or_item item (Some ((u, s) :: rest))
  = OutRequest {| url := u; callback := (s, item); errback := (s, item);
                  meta := {| meta_item := Some item; game_requests := Some rest |} |}.
Proof. reflexivity. Qed.

Lemma json_from_deliver (r : Request) (o : outcome) :
  _json_from_response (deliver r o) = document o.
Proof. destruct o; reflexivity. Qed.

Lemma extract_meta_deliver (r : Request) (o : outcome) item rest :
  meta r = mkMeta (Some item) (Some rest) ->
  _extract_meta (deliver r o) = mkMeta (Some item) (Some rest).
Proof. intros Hm. destruct o; unfold _extract_meta; cbn; rewrite Hm; reflexivity. Qed.

Lemma item_truthy_false (item : Item) : item_truthy item = false -> item = ∅.
Proof.
  unfold item_truthy. intros H. apply negb_false_iff in H.
  apply bool_decide_eq_true in H. exact H.
Qed.

(** The callback works on the item its request was made for. *)
Lemma extract_item_deliver (r : Request) (o : outcome) item rest :
  meta r = mkMeta (Some item) (Some rest) ->
  _extract_item (Some item) (deliver r o) = item.
Proof.
  intros Hm. unfold _extract_item. rewrite (extract_meta_deliver r o item rest Hm).
  cbn. destruct (item_truthy item) eqn:Ht; [reflexivity|].
  symmetry. apply item_truthy_false. exact Ht.
Qed.

(** One step of the chain: the stage of the request in flight loads the
    document of the outcome into the item, then the head of the remaining
    queue is requested.  A failure is such a step, on the empty document. *)
Lemma respond_next (item : Item) u s rest (o : outcome) :
  respond {| url := u; callback := (s, item); errback := (s, item);
             meta := {| meta_item := Some item; game_requests := Some rest |} |} o
  = (item' <-- load_stage s item (document o) ;;
     Ok (_next_request_or_item item' (Some rest))).
Proof.
  set (r := mkRequest u (s, item) (s, item) (mkMeta (Some item) (Some rest))).
  assert (Hcall : call cls default_input_processor default_output_processor
                    (s, item) (deliver r o)
                  = (item' <-- load_stage s item (document o) ;;
                     Ok (_next_request_or_item item' (Some rest)))).
  { unfold call, parse_stage. cbn [fst snd].
    rewrite (extract_item_deliver r o item rest eq_refl), json_from_deliver.
    unfold _extract_requests. rewrite (extract_meta_deliver r o item rest eq_refl).
    reflexivity. }
  destruct o; exact Hcall.
Qed.

(** The requests of a crawl are the queue, in order, as far as the
    outcomes reach; the item comes out when the queue is used up. *)
Lemma crawl_in_order (outcomes : list outcome) (queue : list (string * stage))
    (item : Item) urls out :
  crawl outcomes (_next_request_or_item item (Some queue)) = Ok (urls, out) ->
  urls = (take (length outcomes) queue).*1
  /\ match out with
     | OutItem _ => (length queue <= length outcomes)%nat
     | OutRequest r =>
         (length outcomes < length queue)%nat
         /\ exists item',
              _next_request_or_item item' (Some (drop (length outcomes) queue))
              = OutRequest r
     end.
Proof.
  revert queue item urls out.
  induction outcomes as [|o outcomes IH]; intros queue item urls out.
  - destruct queue as [|[u s] rest]; cbn; intros [= <- <-].
    + split; [reflexivity | lia].
    + split; [reflexivity|]. split; [lia|]. exists item. reflexivity.
  - destruct queue as [|[u s] rest].
    + cbn. intros [= <- <-]. split; [reflexivity | lia].
    + rewrite next_request. cbn [Bga.crawl]. rewrite respond_next.
      unfold res_bind at 1 2.
      destruct (load_stage s item (document o)) as [item'|e]; [|discriminate].
      destruct (crawl outcomes _) as [[urls' out']|e] eqn:Hrest; [|discriminate].
      cbn. intros [= <- <-].
      destruct (IH rest item' urls' out' Hrest) as [-> Hout].
      split; [reflexivity|].
      destruct out' as [final|r].
      * lia.
      * destruct Hout as [Hlen Hr]. split; [lia | exact Hr].
Qed.

(** C4. Chain advance.  With no queue or an empty queue,
    [_next_request_or_item] returns the record itself.  With a queue it
    returns one request, to the URL of the head, whose callback and
    errback are the stage of the head bound to the record, and whose
    [meta] carries the record and the queue without its head.  Over a
    crawl the URLs requested are those of the queue in order, one per
    outcome, and the record comes out when the queue is used up. *)
Theorem chain_advance (item : Item) :
  _next_request_or_item item None = OutItem item
  /\ _next_request_or_item item (Some []) = OutItem item
  /\ (forall u s rest,
        _next_request_or_item item (Some ((u, s) :: rest))
        = OutRequest {| url := u; callback := (s, item); errback := (s, item);
                        meta := {| meta_item := Some item;
                                   game_requests := Some rest |} |})
  /\ (forall outcomes queue urls out,
        crawl outcomes (_next_request_or_item item (Some queue)) = Ok (urls, out) ->
        urls = (take (length outcomes) queue).*1
        /\ match out with
           | OutItem _ => (length queue <= length outcomes)%nat
           | OutRequest r =>
               (length outcomes < length queue)%nat
               /\ exists item',
                    _next_request_or_item item' (Some (drop (length outcomes) queue))
                    = OutRequest r
           end).
Proof.
  repeat split; try reflexivity;
    destruct (crawl_in_order outcomes queue item urls out H) as [H1 H2];
    [exact H1 | exact H2].
Qed.

Lemma load_stage_loader s (item item' : Item) json :
  load_stage s item json = Ok item' ->
  exists ldr, stage_loader s item ldr
              /\ Loaders.load_item cls default_output_processor ldr = Ok item'.
Proof.
  intros Hload.
  assert (Hone : forall ldr0 ldr1 v,
            Loaders.add_value cls default_input_processor (stage_field s) v ldr0 = Ok ldr1 ->
            stage_loader s item ldr0 -> stage_loader s item ldr1).
  { intros ldr0 ldr1 v Hadd [Hi [Hnd Hc]].
    destruct (add_value_collected cls default_input_processor _ _ _ _ Hadd)
      as [Hi' [_ [Hnd' [Hc' _]]]].
    split; [congruence|]. split; [auto|].
    intros k Hk. rewrite (Hc' k Hk). exact (Hc k Hk). }
  assert (Hstart : stage_loader s item (GameJsonLoader item json)).
  { split; [reflexivity|]. split; [apply init_NoDup|].
    intros k _. apply init_collected. }
  destruct s; cbn [Bga.load_stage] in Hload;
    unfold load_images, load_videos, load_reviews, Loaders.add_jmes, res_bind in Hload.
  - destruct (Loaders.add_value _ _ _ _ (GameJsonLoader item json)) as [l1|] eqn:E1; [|discriminate].
    destruct (Loaders.add_value _ _ _ _ l1) as [l2|] eqn:E2; [|discriminate].
    destruct (Loaders.add_value _ _ _ _ l2) as [l3|] eqn:E3; [|discriminate].
    exists l3. split; [|exact Hload].
    exact (Hone _ _ _ E3 (Hone _ _ _ E2 (Hone _ _ _ E1 Hstart))).
  - destruct (Loaders.add_value _ _ _ _ (GameJsonLoader item json)) as [l1|] eqn:E1; [|discriminate].
    destruct (Loaders.add_value _ _ _ _ l1) as [l2|] eqn:E2; [|discriminate].
    exists l2. split; [|exact Hload].
    exact (Hone _ _ _ E2 (Hone _ _ _ E1 Hstart)).
  - destruct (Loaders.add_value _ _ _ _ (GameJsonLoader item json)) as [l1|] eqn:E1; [|discriminate].
    destruct (Loaders.add_value _ _ _ _ l1) as [l2|] eqn:E2; [|discriminate].
    exists l2. split; [|exact Hload].
    exact (Hone _ _ _ E2 (Hone _ _ _ E1 Hstart)).
Qed.

(** A stage collects for its own field only; every other field of the
    record goes through its output processor again, and a field that the
    record does not hold is not created. *)
Lemma load_stage_other s (item item' : Item) json k :
  load_stage s item json = Ok item' ->
  k <> stage_field s ->
  match item !! k with
  | Some v => exists w, reloaded cls default_output_processor k v = Ok w
                        /\ item' !! k = Some w
  | None => item' !! k = None
  end.
Proof.
  intros Hload Hk.
  destruct (load_stage_loader s item item' json Hload) as [ldr [[Hi [Hnd Hc]] Hl]].
  pose proof (load_item_reloaded cls default_output_processor ldr item' k Hnd Hl) as H.
  rewrite Hi in H. exact (H (Hc k Hk)).
Qed.

(** A stage removes no field. *)
Lemma load_stage_keeps s (item item' : Item) json k :
  load_stage s item json = Ok item' ->
  is_Some (item !! k) -> is_Some (item' !! k).
Proof.
  intros Hload Hk.
  destruct (load_stage_loader s item item' json Hload) as [ldr [[Hi [Hnd Hc]] Hl]].
  apply (load_item_keeps cls default_output_processor ldr item' k Hnd Hl).
  rewrite Hi. exact Hk.
Qed.

(** No document, no candidates: on the empty document, and for a record
    that has no value for the field of the stage, nothing is added to the
    loader, and the stage reloads the record. *)
Lemma load_stage_nothing s (item : Item) f :
  fields cls !! stage_field s = Some f ->
  truthy (default default_input_processor (input_processor f) (VList [])) = false ->
  item !! stage_field s = None ->
  load_stage s item (VDict [])
  = Loaders.load_item cls default_output_processor (GameJsonLoader item (VDict [])).
Proof.
  intros Hf Hp Hitem.
  assert (Hadd : forall v ldr, arg_to_iter v = [] ->
            Loaders.add_value cls default_input_processor (stage_field s) v ldr = Ok ldr).
  { intros v ldr Hv. exact (add_value_nothing cls default_input_processor _ f v ldr Hf Hv Hp). }
  destruct s; cbn [Bga.load_stage stage_field] in *;
    unfold load_images, load_videos, load_reviews, Loaders.add_jmes;
    rewrite Hitem; cbn [default];
    rewrite Hadd by reflexivity; cbn [res_bind GameJsonLoader ItemLoader_init ldr_json jmes_search dict_get];
    repeat (rewrite Hadd by reflexivity; cbn [res_bind]);
    reflexivity.
Qed.

(** C5. Chain completion under partial failure.  Let the item class
    declare [video_url] with an input processor that makes nothing out of
    no candidates, and let the record hold no [video_url].  The errback of
    a failed video request is the video callback: it finds no candidate in
    the failure, loads the record as it came (the loader was given nothing
    but the record) and returns what [_next_request_or_item] makes of it
    and the remaining queue.  So the queue images, videos, reviews with
    the second request failing runs the loads of images and reviews with
    that reload in between, and if they raise nothing, exactly one
    finished record comes out after the three requests: the record that
    the reviews stage returns, which holds every field that the record
    held after the images stage, and no [video_url]. *)
Theorem chain_survives_failure (item : Item) u1 u2 u3 body1 body3 f :
  fields cls !! "video_url" = Some f ->
  truthy (default default_input_processor (input_processor f) (VList [])) = false ->
  item !! "video_url" = None ->
  let queue := [(u1, parse_images); (u2, parse_videos); (u3, parse_reviews)] in
  let run := crawl [Delivered body1; Failed; Delivered body3]
               (_next_request_or_item item (Some queue)) in
  let reload item1 :=
    Loaders.load_item cls default_output_processor (GameJsonLoader item1 (VDict [])) in
  (forall item1 rest,
     item1 !! "video_url" = None ->
     respond {| url := u2; callback := (parse_videos, item1);
                errback := (parse_videos, item1);
                meta := {| meta_item := Some item1; game_requests := Some rest |} |}
       Failed
     = (item2 <-- reload item1 ;;
        Ok (_next_request_or_item item2 (Some rest))))
  /\ run = (item1 <-- load_stage parse_images item (document (Delivered body1)) ;;
            item2 <-- reload item1 ;;
            item3 <-- load_stage parse_reviews item2 (document (Delivered body3)) ;;
            Ok ([u1; u2; u3], OutItem item3))
  /\ (forall urls out,
        run = Ok (urls, out) ->
        exists item1 item2 final,
          load_stage parse_images item (document (Delivered body1)) = Ok item1
          /\ reload item1 = Ok item2
          /\ load_stage parse_reviews item2 (document (Delivered body3)) = Ok final
          /\ urls = [u1; u2; u3]
          /\ out = OutItem final
          /\ final !! "video_url" = None
          /\ forall k, is_Some (item1 !! k) -> is_Some (final !! k)).
Proof.
  intros Hf Hp Hitem queue run reload.
  assert (Hfail : forall item1 rest,
            item1 !! "video_url" = None ->
            respond {| url := u2; callback := (parse_videos, item1);
                       errback := (parse_videos, item1);
                       meta := {| meta_item := Some item1;
                                  game_requests := Some rest |} |} Failed
            = (item2 <-- reload item1 ;;
               Ok (_next_request_or_item item2 (Some rest)))).
  { intros item1 rest H1. rewrite respond_next. cbn [document].
    rewrite (load_stage_nothing parse_videos item1 f Hf Hp H1). reflexivity. }
  assert (Hvideo : forall s a b json,
            load_stage s a json = Ok b -> stage_field s <> "video_url" ->
            a !! "video_url" = None -> b !! "video_url" = None).
  { intros s a b json Hload Hs Ha.
    pose proof (load_stage_other s a b json "video_url" Hload ltac:(congruence)) as H.
    rewrite Ha in H. exact H. }
  assert (Hreload : forall a b, reload a = Ok b ->
            (a !! "video_url" = None -> b !! "video_url" = None)
            /\ forall k, is_Some (a !! k) -> is_Some (b !! k)).
  { intros a b Hab. split.
    - intros Ha.
      pose proof (reload_Ok cls default_output_processor a b _ "video_url" Hab) as H.
      rewrite Ha in H. exact H.
    - intros k Hk.
      apply (load_item_keeps cls default_output_processor _ b k (init_NoDup a _) Hab).
      exact Hk. }
  assert (Hrun : run = (item1 <-- load_stage parse_images item (document (Delivered body1)) ;;
                        item2 <-- reload item1 ;;
                        item3 <-- load_stage parse_reviews item2 (document (Delivered body3)) ;;
                        Ok ([u1; u2; u3], OutItem item3))).
  { unfold run, queue. rewrite next_request. cbn [Bga.crawl]. rewrite respond_next.
    destruct (load_stage parse_images item _) as [item1|e] eqn:H1; [|reflexivity].
    cbn [res_bind]. rewrite next_request. cbn [Bga.crawl].
    assert (Hv1 : item1 !! "video_url" = None).
    { apply (Hvideo parse_images item item1 _ H1); [discriminate | exact Hitem]. }
    rewrite (Hfail item1 _ Hv1).
    destruct (reload item1) as [item2|e] eqn:H2; [|reflexivity].
    cbn [res_bind]. rewrite next_request. cbn [Bga.crawl].
    rewrite respond_next.
    destruct (load_stage parse_reviews item2 _) as [item3|e] eqn:H3; reflexivity. }
  split; [exact Hfail|]. split; [exact Hrun|].
  intros urls out Hout. rewrite Hrun in Hout.
  destruct (load_stage parse_images item _) as [item1|e] eqn:H1; [|discriminate].
  cbn [res_bind] in Hout.
  destruct (reload item1) as [item2|e] eqn:H2; [|discriminate].
  cbn [res_bind] in Hout.
  destruct (load_stage parse_reviews item2 _) as [item3|e] eqn:H3; [|discriminate].
  cbn [res_bind] in Hout. injection Hout as <- <-.
  exists item1, item2, item3.
  destruct (Hreload item1 item2 H2) as [Hv2 Hk2].
  do 5 (split; [first [reflexivity | assumption]|]). split.
  - apply (Hvideo parse_reviews item2 item3 _ H3); [discriminate|].
    apply Hv2. apply (Hvideo parse_images item item1 _ H1); [discriminate | exact Hitem].
  - intros k Hk. apply (load_stage_keeps parse_reviews item2 item3 _ k H3).
    apply Hk2. exact Hk.
Qed.

End Chain.

(** ** The players cell of a Luding page *)

Import Luding.

Lemma split_chars_none (sep : ascii) (cur l : list ascii) :
  existsb (Ascii.eqb sep) l = false ->
  split_chars sep cur l = [(rev cur ++ l)%list].
Proof.
  revert cur. induction l as [|c l IH]; intros cur; cbn.
  - intros _. rewrite app_nil_r. reflexivity.
  - rewrite Ascii.eqb_sym. destruct (Ascii.eqb c sep); [discriminate|].
    cbn. intros H. rewrite (IH (c :: cur) H). cbn. rewrite <- app_assoc. reflexivity.
Qed.

(** A text without the separator is the only piece of its split. *)
Lemma py_split_none (sep : ascii) (s : string) :
  existsb (Ascii.eqb sep) (list_ascii_of_string s) = false ->
  py_split sep s = [s].
Proof.
  intros H. unfold py_split. rewrite (split_chars_none sep [] _ H). cbn.
  rewrite string_of_list_ascii_of_string. reflexivity.
Qed.

Section LudingFacts.
Context `{U : Utils}.
Variable default_input_processor : callable.
Variable default_output_processor : callable.
Variable urljoin : string -> string -> string.
Variable extract_query_param : string -> string -> pyval.
Variable extract_bgg_id : pyval -> pyval.

Local Abbreviation parse_game :=
  (Luding.parse_game default_input_processor default_output_processor
     urljoin extract_query_param extract_bgg_id).
Local Abbreviation add_value := (Loaders.add_value GameItem default_input_processor).

Lemma GameItem_min_players :
  fields GameItem !! "min_players" = Some (int_field POS_INT_PROCESSOR VNone).
Proof. reflexivity. Qed.

Lemma GameItem_max_players :
  fields GameItem !! "max_players" = Some (int_field POS_INT_PROCESSOR VNone).
Proof. reflexivity. Qed.

Local Abbreviation fed_once :=
  (Loaders.fed_once GameItem default_input_processor default_output_processor).

(** The values that one [add_value] collects for a field fed [value]. *)
Local Abbreviation collected_of value :=
  (if truthy (POS_INT_PROCESSOR (VList (arg_to_iter value)))
   then Some (arg_to_iter (POS_INT_PROCESSOR (VList (arg_to_iter value))))
   else None).

(** Feeding [None] to [min_players] or [max_players] collects nothing. *)
Lemma fed_once_none :
  fed_once "min_players" VNone = Ok None /\ fed_once "max_players" VNone = Ok None.
Proof.
  unfold Loaders.fed_once. rewrite GameItem_min_players, GameItem_max_players.
  change (default default_input_processor
            (input_processor (int_field POS_INT_PROCESSOR VNone)))
    with POS_INT_PROCESSOR.
  cbn [arg_to_iter]. unfold POS_INT_PROCESSOR. rewrite MapCompose_nil.
  split; reflexivity.
Qed.

Lemma add_value_players_other field_name value (ldr ldr' : ItemLoader) lo hi :
  add_value field_name value ldr = Ok ldr' ->
  field_name <> "min_players" -> field_name <> "max_players" ->
  players_collected lo hi ldr -> players_collected lo hi ldr'.
Proof.
  intros Hadd Hmin Hmax [Hi [Hnd [Hlo Hhi]]].
  destruct (add_value_collected GameItem default_input_processor _ _ _ _ Hadd)
    as [Hi' [_ [Hnd' [Hc _]]]].
  split; [congruence|]. split; [auto|]. split.
  - rewrite Hc by congruence. exact Hlo.
  - rewrite Hc by congruence. exact Hhi.
Qed.

Lemma add_value_min_players value (ldr ldr' : ItemLoader) hi :
  add_value "min_players" value ldr = Ok ldr' ->
  players_collected None hi ldr -> players_collected (collected_of value) hi ldr'.
Proof.
  intros Hadd [Hi [Hnd [Hlo Hhi]]].
  destruct (add_value_collected GameItem default_input_processor _ _ _ _ Hadd)
    as [Hi' [_ [Hnd' [Hc [f [Hf Hsame]]]]]].
  rewrite GameItem_min_players in Hf. injection Hf as <-.
  split; [congruence|]. split; [auto|]. split.
  - rewrite Hsame, Hlo. reflexivity.
  - rewrite Hc by discriminate. exact Hhi.
Qed.

Lemma add_value_max_players value (ldr ldr' : ItemLoader) lo :
  add_value "max_players" value ldr = Ok ldr' ->
  players_collected lo None ldr -> players_collected lo (collected_of value) ldr'.
Proof.
  intros Hadd [Hi [Hnd [Hlo Hhi]]].
  destruct (add_value_collected GameItem default_input_processor _ _ _ _ Hadd)
    as [Hi' [_ [Hnd' [Hc [f [Hf Hsame]]]]]].
  rewrite GameItem_max_players in Hf. injection Hf as <-.
  split; [congruence|]. split; [auto|]. split.
  - rewrite Hc by discriminate. exact Hlo.
  - rewrite Hsame, Hhi. reflexivity.
Qed.

Local Ltac add_step Hrun Hinv :=
  match type of Hrun with
  | res_bind (Loaders.add_value ?c ?d ?fld ?v ?l0) _ = Ok _ =>
      let l1 := fresh "ldr" in
      let E := fresh "Hadd" in
      apply res_bind_inv in Hrun as [l1 [E Hrun]];
      apply (add_value_players_other fld v l0 l1 _ _ E) in Hinv; [|discriminate|discriminate]
  end.

(** What [load_item] leaves of a field of the players, given the values
    collected for it. *)
Lemma loaded_fed_once key f value (ldr : ItemLoader) (item : Item) :
  fields GameItem !! key = Some f ->
  input_processor f = Some POS_INT_PROCESSOR ->
  ldr_item ldr = ∅ ->
  NoDup (ldr_values ldr).*1 ->
  collected_values key ldr = collected_of value ->
  Loaders.load_item GameItem default_output_processor ldr = Ok item ->
  fed_once key value = Ok (item !! key).
Proof.
  intros Hf Hproc Hi Hnd Hc Hload.
  destruct (load_item_Ok GameItem default_output_processor ldr item Hnd Hload)
    as [Hin Hout].
  unfold Loaders.fed_once. rewrite Hf, Hproc.
  change (default default_input_processor (Some POS_INT_PROCESSOR))
    with POS_INT_PROCESSOR.
  destruct (truthy (POS_INT_PROCESSOR (VList (arg_to_iter value)))).
  - destruct (Hin key _ Hc) as [o [Ho Hitem]]. rewrite Ho, Hitem, Hi.
    destruct o; reflexivity.
  - rewrite (Hout key Hc), Hi. reflexivity.
Qed.

(** The players of the item that [parse_game] returns: each of the two
    fields holds what the loader makes of the one value it was fed. *)
Lemma parse_game_players (page : GamePage) (item : Item) lo hi :
  parse_game page = Ok item ->
  fed_players page = Ok (lo, hi) ->
  fed_once "min_players" lo = Ok (item !! "min_players")
  /\ fed_once "max_players" hi = Ok (item !! "max_players").
Proof.
  intros Hrun Hfed. unfold Luding.parse_game in Hrun. cbv zeta in Hrun.
  assert (Hinv : players_collected None None (ItemLoader_init ∅ VNone)).
  { split; [reflexivity|]. split; [apply init_NoDup|].
    split; rewrite init_collected; reflexivity. }
  repeat add_step Hrun Hinv.
  apply res_bind_inv in Hrun as [players [Hplayers Hrun]].
  rewrite Hfed in Hplayers. injection Hplayers as <-. cbn [fst snd] in Hrun.
  apply res_bind_inv in Hrun as [lmin [Hmin Hrun]].
  apply (add_value_min_players _ _ _ _ Hmin) in Hinv.
  apply res_bind_inv in Hrun as [lmax [Hmax Hrun]].
  apply (add_value_max_players _ _ _ _ Hmax) in Hinv.
  repeat add_step Hrun Hinv.
  destruct Hinv as [Hi [Hnd [Hlo Hhi]]].
  split.
  - exact (loaded_fed_once "min_players" _ lo _ item GameItem_min_players eq_refl
             Hi Hnd Hlo Hrun).
  - exact (loaded_fed_once "max_players" _ hi _ item GameItem_max_players eq_refl
             Hi Hnd Hhi Hrun).
Qed.

(** C10. In [parse_game], a players cell whose text has no ["-"] feeds
    that whole text to both [min_players] and [max_players], and the item
    that [parse_game] returns holds in either field what the loader makes
    of that one value; without the cell both are fed [None], and the item
    has neither field. *)
Theorem players_fed (page : GamePage) :
  (forall players,
     players_text page = Some players ->
     players <> "" ->
     has_separator players = false ->
     fed_players page = Ok (VStr players, VStr players)
     /\ forall item,
          parse_game page = Ok item ->
          fed_once "min_players" (VStr players) = Ok (item !! "min_players")
          /\ fed_once "max_players" (VStr players) = Ok (item !! "max_players"))
  /\ (players_text page = None ->
      fed_players page = Ok (VNone, VNone)
      /\ forall item,
           parse_game page = Ok item ->
           item !! "min_players" = None /\ item !! "max_players" = None).
Proof.
  split.
  - intros players Hp Hne Hsep.
    assert (Hfed : fed_players page = Ok (VStr players, VStr players)).
    { unfold fed_players, split_players. rewrite Hp.
      destruct (String.eqb_spec players ""); [contradiction|].
      unfold has_separator in Hsep. rewrite (py_split_none "-" players Hsep). reflexivity. }
    split; [exact Hfed|].
    intros item Hrun. exact (parse_game_players page item _ _ Hrun Hfed).
  - intros Hp.
    assert (Hfed : fed_players page = Ok (VNone, VNone)).
    { unfold fed_players, split_players. rewrite Hp. reflexivity. }
    split; [exact Hfed|].
    intros item Hrun.
    destruct (parse_game_players page item _ _ Hrun Hfed) as [Hmin Hmax].
    destruct fed_once_none as [Hnmin Hnmax].
    rewrite Hnmin in Hmin. rewrite Hnmax in Hmax. split; congruence.
Qed.

End LudingFacts.
(** ** Booleans through [parse] *)

Section BooleanFacts.
Context `{U : Utils}.

Lemma GameItem_cooperative :
  fields GameItem !! "cooperative" = Some (bool_field None).
Proof. reflexivity. Qed.

(** A row that holds nothing but [cooperative]: every other field is
    skipped, and the article holds what the round of [cooperative]
    leaves. *)
Lemma parse_cooperative (value : pyval) (o : option pyval) :
  parsed "cooperative" (bool_field None) value = Ok o ->
  parse GameItem (<["cooperative" := value]> ∅)
  = Ok (match o with Some w => <["cooperative" := w]> ∅ | None => ∅ end).
Proof.
  intros Ho. apply parse_Ok. split.
  - intros key f Hf. destruct (decide (key = "cooperative")) as [->|Hne].
    + rewrite GameItem_cooperative in Hf. injection Hf as <-.
      rewrite lookup_insert_eq. cbn [default from_option id]. rewrite Ho.
      destruct o; [rewrite lookup_insert_eq | rewrite lookup_empty]; reflexivity.
    + rewrite lookup_insert_ne, lookup_empty by congruence.
      destruct o; [rewrite lookup_insert_ne by congruence|]; rewrite lookup_empty;
        reflexivity.
  - intros key Hf. destruct (decide (key = "cooperative")) as [->|Hne].
    + rewrite GameItem_cooperative in Hf. discriminate.
    + destruct o; [rewrite lookup_insert_ne by congruence|]; apply lookup_empty.
Qed.

(** C8, amended.  Boolean round trip.  A text that [parse_bool] reads as
    a boolean is stored in the boolean field [cooperative] as that
    boolean, and the serializer of the field emits 1 for [True] and 0 for
    [False]; this is the case of every text for which [parse_bool]
    returns a boolean, recognized or not.  The field is left out of the
    article, and its default [None] is serialized as [None], only when the
    row has no text for it: no entry, [None], or the empty string. *)
Theorem boolean_round_trip (text : string) (b : bool) :
  text <> "" ->
  parse_bool (VStr text) = VBool b ->
  (parse GameItem (<["cooperative" := VStr text]> ∅) = Ok (<["cooperative" := VBool b]> ∅)
   /\ _serialize_bool (VBool b) = VInt (Z.b2z b))
  /\ parse GameItem (<["cooperative" := VStr ""]> ∅) = Ok ∅
  /\ parse GameItem (<["cooperative" := VNone]> ∅) = Ok ∅
  /\ default_value (bool_field None) = Some (DefaultValue VNone)
  /\ _serialize_bool VNone = VNone.
Proof.
  intros Hne Hb. split; [split|].
  - apply (parse_cooperative (VStr text) (Some (VBool b))).
    unfold parsed. cbn [is_none eq_empty_str orb].
    destruct (String.eqb_spec text "") as [->|_]; [contradiction|].
    change (default IDENTITY (parser (bool_field None)) (VStr text))
      with (parse_bool (VStr text)).
    rewrite Hb. reflexivity.
  - destruct b; reflexivity.
  - split; [exact (parse_cooperative (VStr "") None eq_refl)|].
    split; [exact (parse_cooperative VNone None eq_refl)|].
    split; reflexivity.
Qed.

End BooleanFacts.


(** ** Runs on concrete input

    The helpers are those of [Reference]. *)

Import Examples.

Local Abbreviation ref := Reference.utils.
Local Abbreviation input_default := Reference.default_input_processor.
Local Abbreviation output_default := Reference.default_output_processor.

(** A run: both sides are closed, and the kernel evaluates the left one
    when the proof is checked. *)
Local Ltac run :=
  lazymatch goal with
  | |- _ = ?r => vm_cast_no_check (@eq_refl _ r)
  end.

(** Assigning the text of a year: the converter makes it an [int]. *)
Lemma type_contract_witness :
  exists stored,
    (setitem (U := Reference.utils) (@GameItem Reference.utils) "year" (VStr "1995") ∅).1
      !! "year" = Some stored
    /\ (is_none stored || isinstance_dtype stored (DType TInt)) = true.
Proof.
  refine (type_contract (U := Reference.utils) GameItem "year" (VStr "1995") ∅ _
            (int_field YEAR_PROCESSOR VNone) (DType TInt)
            (or_introl eq_refl) _ eq_refl _).
  - reflexivity.
  - reflexivity.
Defined.

(** Assigning a number to [name], which declares [str] and no converter. *)
Lemma type_mismatch_witness :
  setitem (U := Reference.utils) (@GameItem Reference.utils) "name" (VInt 5) ∅
  = (<["name" := VInt 5]> ∅,
     Raise (ValueError
              "field <name> requires type <class 'str'> but found type <class 'int'>")).
Proof.
  refine (type_mismatch (U := Reference.utils) GameItem "name" (VInt 5) ∅
            {| dtype := Some (DType TStr); dtype_convert := None; setter := None;
               parser := None; input_processor := None; output_processor := None;
               serializer := None; default_value := None; required := true |}
            (DType TStr) _ eq_refl eq_refl eq_refl).
  reflexivity.
Defined.

(** A row as a CSV reader yields it: every value is text. *)
Example parse_row :
  parse (U := Reference.utils) (@GameItem Reference.utils)
    (list_to_map
       [ ("name", VStr "Catan"); ("year", VStr "1995");
         ("alt_name", VStr (Reference.json "['Die Siedler', 'Settlers']"));
         ("min_age", VStr ""); ("cooperative", VStr "no");
         ("compilation", VStr "maybe"); ("avg_rating", VStr "7.25");
         ("publisher", VStr "Kosmos"); ("bogus", VStr "x") ])
  = Ok (list_to_map
       [ ("name", VStr "Catan"); ("year", VInt 1995);
         ("alt_name", VList [VStr "Die Siedler"; VStr "Settlers"]);
         ("cooperative", VBool false); ("compilation", VBool false);
         ("avg_rating", VFloat 7.25); ("publisher", VNone) ]).
Proof. run. Qed.

(** The record parsed from the row is fully typed. *)
Lemma parse_loose_witness :
  fully_typed (@GameItem ref)
    (list_to_map
       [ ("name", VStr "Catan"); ("year", VInt 1995);
         ("alt_name", VList [VStr "Die Siedler"; VStr "Settlers"]);
         ("cooperative", VBool false); ("compilation", VBool false);
         ("avg_rating", VFloat 7.25); ("publisher", VNone) ]).
Proof.
  refine (proj2 (proj2 (parse_loose (U := ref) GameItem _ (or_introl eq_refl))) _ _).
  exact parse_row.
Defined.

(** A text that is not a string in the input: the retry fails as the
    first attempt did, and [parse] raises. *)
Example parse_number_as_name :
  parse (U := ref) (@GameItem ref) (list_to_map [("name", VInt 5)])
  = Raise (ValueError
             "field <name> requires type <class 'str'> but found type <class 'int'>").
Proof. run. Qed.

(** ["maybe"] is no token of [parse_bool], which reads it as [False]:
    through [parse] the field [cooperative] holds [False], not [None], and
    the serializer emits 0. *)
Lemma maybe_is_false :
  Reference.parse_bool (VStr "maybe") = VBool false
  /\ parse (U := ref) (@GameItem ref) (list_to_map [("cooperative", VStr "maybe")])
     = Ok (list_to_map [("cooperative", VBool false)])
  /\ parse (U := ref) (@GameItem ref) (list_to_map [("cooperative", VStr "maybe")])
     <> Ok (list_to_map [("cooperative", VNone)])
  /\ _serialize_bool (VBool false) = VInt 0
  /\ _serialize_bool (VBool false) <> VNone.
Proof.
  assert (H : parse (U := ref) (@GameItem ref)
                (list_to_map [("cooperative", VStr "maybe")])
              = Ok (list_to_map [("cooperative", VBool false)])) by run.
  split; [vm_compute; reflexivity|]. split; [exact H|]. split.
  - rewrite H. intros E.
    apply (f_equal (fun r => match r with Ok m => m !! "cooperative" | Raise _ => None end))
      in E.
    vm_compute in E. discriminate E.
  - split; [reflexivity | discriminate].
Qed.

(** ["yes"] is read as [True], stored as [True] and emitted as 1. *)
Lemma boolean_round_trip_witness :
  (parse (U := ref) (@GameItem ref) (<["cooperative" := VStr "yes"]> ∅)
   = Ok (<["cooperative" := VBool true]> ∅)
   /\ _serialize_bool (VBool true) = VInt 1)
  /\ parse (U := ref) (@GameItem ref) (<["cooperative" := VStr ""]> ∅) = Ok ∅
  /\ parse (U := ref) (@GameItem ref) (<["cooperative" := VNone]> ∅) = Ok ∅
  /\ default_value (bool_field (U := ref) None) = Some (DefaultValue VNone)
  /\ _serialize_bool VNone = VNone.
Proof.
  refine (boolean_round_trip (U := ref) "yes" true _ _).
  - discriminate.
  - vm_compute. reflexivity.
Defined.

(** The tokens of [parse_bool], and some text that is none of them. *)
Example parse_bool_tokens :
  map Reference.parse_bool
    [VStr "yes"; VStr "true"; VStr "1"; VStr "no"; VStr "false"; VStr "0";
     VStr "maybe"; VInt 2; VBool false]
  = [VBool true; VBool true; VBool true; VBool false; VBool false; VBool false;
     VBool false; VBool true; VBool false].
Proof. run. Qed.

(** The lower bound of [POS_FLOAT_PROCESSOR] is 0, and 0 is in its range,
    but the last stage of the processor turns it into no value;
    [NN_FLOAT_PROCESSOR], with the same range, keeps it. *)
Lemma positive_float_rejects_zero :
  numeric_value (U := ref) Reference.parse_float (VStr "0") = VList [VFloat 0]
  /\ in_range (Some (VInt 0)) None (VFloat 0) = true
  /\ py_le (VFloat 0) (VInt 0) = Some true
  /\ POS_FLOAT_PROCESSOR (U := ref) (VStr "0") = VList []
  /\ NN_FLOAT_PROCESSOR (U := ref) (VStr "0") = VList [VFloat 0].
Proof. repeat split; vm_compute; reflexivity. Qed.

(** [POS_INT_PROCESSOR] below and at its lower bound. *)
Lemma range_enforcement_witness :
  POS_INT_PROCESSOR (U := ref) (VStr "0") = VList []
  /\ POS_INT_PROCESSOR (U := ref) (VStr "1") = VList [VInt 1].
Proof.
  split.
  - refine (proj1 (range_enforcement (U := ref)
                     (mkRanged POS_INT_PROCESSOR parse_int (Some (VInt 1)) None false)
                     (VStr "0") (VInt 0) (or_introl eq_refl) _) eq_refl).
    vm_compute. reflexivity.
  - refine (proj2 (range_enforcement (U := ref)
                     (mkRanged POS_INT_PROCESSOR parse_int (Some (VInt 1)) None false)
                     (VStr "1") (VInt 1) (or_introl eq_refl) _) eq_refl).
    vm_compute. reflexivity.
Defined.

(** The bounds of every numeric processor, and zero. *)
Example bounds :
  POS_INT_PROCESSOR (U := ref) (VStr "1") = VList [VInt 1]
  /\ NN_INT_PROCESSOR (U := ref) (VStr "0") = VList [VInt 0]
  /\ NN_FLOAT_PROCESSOR (U := ref) (VStr "0") = VList [VFloat 0]
  /\ YEAR_PROCESSOR (U := ref) (VStr "-4000") = VList [VInt (-4000)]
  /\ YEAR_PROCESSOR (U := ref) (VStr "2029") = VList [VInt 2029]
  /\ YEAR_PROCESSOR (U := ref) (VStr "2030") = VList []
  /\ YEAR_PROCESSOR (U := ref) (VStr "0") = VList []
  /\ POS_FLOAT_PROCESSOR (U := ref) (VStr "0") = VList [].
Proof. repeat split; vm_compute; reflexivity. Qed.

(** A count of ["0"] is truthy as text and is kept by [clean], whose
    record stores it as the integer 0; cleaning that record drops it. *)
Lemma clean_not_idempotent :
  clean (U := ref) (@GameItem ref)
    (list_to_map [("name", VStr "Catan"); ("num_votes", VStr "0")])
  = Ok (list_to_map [("name", VStr "Catan"); ("num_votes", VInt 0)])
  /\ clean_twice (U := ref) (@GameItem ref)
       (list_to_map [("name", VStr "Catan"); ("num_votes", VStr "0")])
     = Ok (list_to_map [("name", VStr "Catan")])
  /\ clean_twice (U := ref) (@GameItem ref)
       (list_to_map [("name", VStr "Catan"); ("num_votes", VStr "0")])
     <> clean (U := ref) (@GameItem ref)
          (list_to_map [("name", VStr "Catan"); ("num_votes", VStr "0")]).
Proof.
  assert (H1 : clean (U := ref) (@GameItem ref)
                 (list_to_map [("name", VStr "Catan"); ("num_votes", VStr "0")])
               = Ok (list_to_map [("name", VStr "Catan"); ("num_votes", VInt 0)]))
    by (vm_compute; reflexivity).
  assert (H2 : clean_twice (U := ref) (@GameItem ref)
                 (list_to_map [("name", VStr "Catan"); ("num_votes", VStr "0")])
               = Ok (list_to_map [("name", VStr "Catan")]))
    by (vm_compute; reflexivity).
  split; [exact H1|]. split; [exact H2|].
  rewrite H1, H2. intros H.
  apply (f_equal (fun r => match r with Ok m => m !! "num_votes" | Raise _ => None end)) in H.
  vm_compute in H. discriminate H.
Qed.

(** The same mapping: the second cleaning returns the truthy part of the
    record of the first. *)
Lemma clean_twice_witness :
  clean_twice (U := ref) (@GameItem ref)
    (list_to_map [("name", VStr "Catan"); ("num_votes", VStr "0")])
  = Ok (filter (fun kv => truthy kv.2 = true)
          (list_to_map [("name", VStr "Catan"); ("num_votes", VInt 0)]))
  /\ ((forall key v,
         (list_to_map [("name", VStr "Catan"); ("num_votes", VInt 0)] : Item) !! key = Some v ->
         truthy v = true) ->
      clean_twice (U := ref) (@GameItem ref)
        (list_to_map [("name", VStr "Catan"); ("num_votes", VStr "0")])
      = clean (U := ref) (@GameItem ref)
          (list_to_map [("name", VStr "Catan"); ("num_votes", VStr "0")])).
Proof.
  refine (clean_twice_drops_falsy (U := ref) GameItem _ _ (or_introl eq_refl) _).
  vm_compute. reflexivity.
Defined.

(** The chain of one game whose second request fails. *)
Example chain_run :
  Bga.crawl (U := ref) (@BgaGameItem ref) input_default output_default
    [Delivered images_body; Failed; Delivered reviews_body]
    (_next_request_or_item catan
       (Some [ ("http://api/game/images", parse_images);
               ("http://api/game/videos", parse_videos);
               ("http://api/game/reviews", parse_reviews) ]))
  = Ok ([ "http://api/game/images"; "http://api/game/videos";
          "http://api/game/reviews" ],
        OutItem
          (list_to_map
             [ ("name", VStr "Catan"); ("bga_id", VStr "OIXt3DmJU0");
               ("image_url", VList [VStr "http://img/1.jpg"; VStr "http://img/1t.jpg"]);
               ("review_url", VList [VStr "http://rev/1"; VStr "http://rev/2"]) ])).
Proof. run. Qed.

(** The URLs of the run are those of the queue, in order. *)
Lemma chain_advance_witness :
  [ "http://api/game/images"; "http://api/game/videos"; "http://api/game/reviews" ]
  = (take 3 game_queue).*1
  /\ (length game_queue <= 3)%nat.
Proof.
  exact (proj2 (proj2 (proj2
           (chain_advance (U := ref) BgaGameItem input_default output_default catan)))
           [Delivered images_body; Failed; Delivered reviews_body] game_queue _ _
           chain_run).
Defined.

(** The run with the failed video request: the three loads return, and
    the record that comes out holds the fields of the images stage and of
    the reviews stage, and no [video_url]. *)
Lemma chain_survives_failure_witness :
  exists item1 item2 final,
    Bga.load_stage (U := ref) (@BgaGameItem ref) input_default output_default
      parse_images catan (document (U := ref) (Delivered images_body)) = Ok item1
    /\ Loaders.load_item (U := ref) (@BgaGameItem ref) output_default
         (GameJsonLoader item1 (VDict [])) = Ok item2
    /\ Bga.load_stage (U := ref) (@BgaGameItem ref) input_default output_default
         parse_reviews item2 (document (U := ref) (Delivered reviews_body)) = Ok final
    /\ [ "http://api/game/images"; "http://api/game/videos"; "http://api/game/reviews" ]
       = [ "http://api/game/images"; "http://api/game/videos"; "http://api/game/reviews" ]
    /\ OutItem
         (list_to_map
            [ ("name", VStr "Catan"); ("bga_id", VStr "OIXt3DmJU0");
              ("image_url", VList [VStr "http://img/1.jpg"; VStr "http://img/1t.jpg"]);
              ("review_url", VList [VStr "http://rev/1"; VStr "http://rev/2"]) ])
       = OutItem final
    /\ final !! "video_url" = None
    /\ forall k, is_Some (item1 !! k) -> is_Some (final !! k).
Proof.
  refine (proj2 (proj2
            (chain_survives_failure (U := ref) BgaGameItem input_default output_default
               catan "http://api/game/images" "http://api/game/videos"
               "http://api/game/reviews" images_body reviews_body list_field _ _ _))
            _ _ chain_run).
  - reflexivity.
  - reflexivity.
  - vm_compute. reflexivity.
Defined.

(** A failed request for a record that holds a list with a repetition:
    the list goes through [clear_list] again. *)
Example failed_stage_reloads :
  Bga.respond (U := ref) (@BgaGameItem ref) input_default output_default
    {| url := "http://api/game/videos";
       callback := (parse_videos, <["designer" := VList [VStr "x"; VStr "x"]]> catan);
       errback := (parse_videos, <["designer" := VList [VStr "x"; VStr "x"]]> catan);
       meta := {| meta_item := Some (<["designer" := VList [VStr "x"; VStr "x"]]> catan);
                  game_requests := Some [] |} |}
    Failed
  = Ok (OutItem (<["designer" := VList [VStr "x"]]> catan)).
Proof. run. Qed.

(** A Luding page whose players cell reads "2-4", and one without the
    cell. *)
Example parse_game_run :
  Luding.parse_game (U := ref) input_default output_default
    Reference.urljoin Reference.extract_query_param Reference.extract_bgg_id
    (luding_page (Some "2-4"))
  = Ok (list_to_map
          [ ("name", VStr "Catan"); ("year", VInt 1995);
            ("game_type", VStr "Brettspiel");
            ("designer", VList [VStr "Klaus Teuber"]);
            ("publisher", VList [VStr "Kosmos"]);
            ("url", VStr "http://www.kosmos.de");
            ("image_url", VList [VStr "http://luding.org/images/catan.jpg"]);
            ("external_link", VList [VStr "http://boardgamegeek.com/boardgame/13"]);
            ("min_players", VInt 2); ("max_players", VInt 4); ("min_age", VInt 10);
            ("bgg_id", VInt 13); ("luding_id", VInt 1508) ]).
Proof. run. Qed.

Example parse_game_no_players :
  Luding.parse_game (U := ref) input_default output_default
    Reference.urljoin Reference.extract_query_param Reference.extract_bgg_id
    (luding_page None)
  = Ok (list_to_map
          [ ("name", VStr "Catan"); ("year", VInt 1995);
            ("game_type", VStr "Brettspiel");
            ("designer", VList [VStr "Klaus Teuber"]);
            ("publisher", VList [VStr "Kosmos"]);
            ("url", VStr "http://www.kosmos.de");
            ("image_url", VList [VStr "http://luding.org/images/catan.jpg"]);
            ("external_link", VList [VStr "http://boardgamegeek.com/boardgame/13"]);
            ("min_age", VInt 10); ("bgg_id", VInt 13); ("luding_id", VInt 1508) ]).
Proof. run. Qed.

(** A Luding page whose players cell reads "4". *)
Example parse_game_four :
  Luding.parse_game (U := ref) input_default output_default
    Reference.urljoin Reference.extract_query_param Reference.extract_bgg_id
    (luding_page (Some "4"))
  = Ok (list_to_map
          [ ("name", VStr "Catan"); ("year", VInt 1995);
            ("game_type", VStr "Brettspiel");
            ("designer", VList [VStr "Klaus Teuber"]);
            ("publisher", VList [VStr "Kosmos"]);
            ("url", VStr "http://www.kosmos.de");
            ("image_url", VList [VStr "http://luding.org/images/catan.jpg"]);
            ("external_link", VList [VStr "http://boardgamegeek.com/boardgame/13"]);
            ("min_players", VInt 4); ("max_players", VInt 4); ("min_age", VInt 10);
            ("bgg_id", VInt 13); ("luding_id", VInt 1508) ]).
Proof. run. Qed.

(** A players cell that reads "4": both fields are fed the text, and both
    hold the integer 4 that the loader makes of it. *)
Lemma players_fed_witness :
  fed_players (luding_page (Some "4")) = Ok (VStr "4", VStr "4")
  /\ Loaders.fed_once (U := ref) (@GameItem ref) input_default output_default
       "min_players" (VStr "4") = Ok (Some (VInt 4))
  /\ Loaders.fed_once (U := ref) (@GameItem ref) input_default output_default
       "max_players" (VStr "4") = Ok (Some (VInt 4)).
Proof.
  destruct (proj1 (players_fed (U := ref) input_default output_default
                     Reference.urljoin Reference.extract_query_param
                     Reference.extract_bgg_id (luding_page (Some "4")))
              "4" eq_refl ltac:(discriminate) eq_refl) as [Hfed Hitem].
  split; [exact Hfed|].
  exact (Hitem _ parse_game_four).
Defined.

(** The integer 1 is not a [bool]. *)
Lemma serialize_bool_witness : _serialize_bool (VInt 1) = VNone.
Proof.
  refine (proj1 serialize_bool_drops_its_output (VInt 1) _). discriminate.
Defined.
(** ** More on [parse], [clean] and the constructor *)

Local Set Proof Using Clear Unused.

Section MoreItems.
Context `{U : Utils}.
Variable cls : ItemClass.

(** Two loops whose bodies agree on the elements do the same. *)
Lemma for_each_ext {A} (body body' : A -> M unit) (l : list A) (self : Item) :
  (forall x self, x ∈ l -> body x self = body' x self) ->
  for_each body l self = for_each body' l self.
Proof using Type.
  revert self. induction l as [|x l IH]; intros self H; [reflexivity|].
  cbn [for_each]. unfold bind. rewrite (H x self) by left.
  destruct (body' x self) as [self' [[]|e]]; [|reflexivity].
  apply IH. intros y s Hy. apply H. right. exact Hy.
Qed.

Lemma Item_init_Raise (values : gmap string pyval) e :
  Item_init cls values = Raise e ->
  exists k v, values !! k = Some v /\ initialized cls k v = Raise e.
Proof using Type.
  exact (loop_Raise values (fun kv => initialized cls kv.1 kv.2)
           (fun kv => setitem cls kv.1 kv.2)
           (fun x self _ => setitem_initialized cls x self) e).
Qed.

Lemma assigned_Raise key f value e :
  assigned key f value = Raise e ->
  e = AssertionError \/ exists msg, e = ValueError msg.
Proof using Type.
  unfold assigned. destruct (dtype f) as [d|]; [|discriminate].
  destruct (is_none _ || isinstance_dtype _ d); [discriminate|].
  destruct (dtype_convert f) as [c|].
  - destruct (isinstance_dtype _ d || is_none _); [discriminate|].
    intros [= <-]. left. reflexivity.
  - intros [= <-]. right. eexists. reflexivity.
Qed.

(** X1. [clean] fails only on a type error of a field it keeps: an
    exception of [clean] is the [ValueError] (no converter) or the
    [AssertionError] (the converter did not help) of assigning a truthy raw
    value to a declared field.  It is never a [KeyError]: undeclared keys
    are dropped before the constructor sees them. *)
Theorem clean_failure (item : gmap string pyval) e :
  clean cls item = Raise e ->
  (exists key f raw,
     fields cls !! key = Some f /\ item !! key = Some raw /\ truthy raw = true
     /\ assigned key f raw = Raise e)
  /\ (e = AssertionError \/ exists msg, e = ValueError msg).
Proof using Type.
  intros H. apply Item_init_Raise in H as [k [v [Hk Hi]]].
  apply map_lookup_filter_Some in Hk as [Hk [Ht [f Hf]]]. cbn in Ht, Hf.
  unfold initialized in Hi. rewrite Hf in Hi.
  destruct (assigned k f v) as [w|e'] eqn:Ha; [discriminate|].
  injection Hi as ->. split.
  - exists k, f, v. auto.
  - exact (assigned_Raise k f v e Ha).
Qed.

(** X4. [parse] reads the declared keys only: two mappings that agree on
    every declared field give the same record, or the same exception. *)
Theorem parse_reads_declared_only (item item' : gmap string pyval) :
  (forall key, is_Some (fields cls !! key) -> item !! key = item' !! key) ->
  parse cls item = parse cls item'.
Proof using Type.
  intros H. unfold parse.
  rewrite (for_each_ext (fun kp => parse_field cls item kp.1 kp.2)
             (fun kp => parse_field cls item' kp.1 kp.2)); [reflexivity|].
  intros [k f] self Hin. apply elem_of_map_to_list in Hin.
  unfold parse_field. cbn [fst snd]. rewrite (H k) by (exists f; exact Hin).
  reflexivity.
Qed.

(** X3. An undeclared key: the constructor of the class refuses a
    mapping that holds one (some assignment raises), while [clean] drops
    the key and does what it does without it. *)
Theorem undeclared_key (values : gmap string pyval) key v :
  fields cls !! key = None ->
  values !! key = Some v ->
  (exists e, Item_init cls values = Raise e)
  /\ clean cls values = clean cls (delete key values).
Proof using Type.
  intros Hf Hv. split.
  - destruct (Item_init cls values) as [self|e] eqn:Hi; [|exists e; reflexivity].
    apply Item_init_Ok in Hi as [Hi _]. specialize (Hi key v Hv).
    unfold initialized in Hi. rewrite Hf in Hi. discriminate.
  - unfold clean. f_equal. rewrite map_filter_delete. symmetry. apply delete_id.
    apply map_lookup_filter_None. right. intros x _ [_ [f Hx]]. cbn in Hx.
    rewrite Hf in Hx. discriminate.
Qed.

(** X5. Parsing a parsed record again: for an item class of [items.py],
    [parse] on the record that [parse] returned gives that record without
    the fields that hold [None] or [''] (a parser or converter may have
    stored [None]); a record that holds neither is returned as it is. *)
Theorem parse_twice (item : gmap string pyval) (article : Item) :
  declared_class cls ->
  parse cls item = Ok article ->
  parse cls article
  = Ok (filter (fun kv => is_none kv.2 || eq_empty_str kv.2 = false) article)
  /\ ((forall key v, article !! key = Some v -> is_none v || eq_empty_str v = false) ->
      parse cls article = Ok article).
Proof using Type.
  intros Hcls Hp. apply parse_Ok in Hp as [Hd Hu].
  assert (H1 : parse cls article
     = Ok (filter (fun kv => is_none kv.2 || eq_empty_str kv.2 = false) article)).
  { apply parse_Ok. split.
    - intros key f Hf. specialize (Hd key f Hf).
      destruct (article !! key) as [v|] eqn:Hv.
      + assert (Hok : value_ok f v = true).
        { apply (parsed_ok key f (default VNone (item !! key)) v); [|exact Hd].
          apply no_setter_keeps_type. exact (declared_no_setter cls key f Hcls Hf). }
        change (default VNone (Some v)) with v. unfold parsed.
        destruct (is_none v || eq_empty_str v) eqn:Hs.
        * f_equal. symmetry. apply map_lookup_filter_None. right.
          intros x Hx. rewrite Hv in Hx. injection Hx as <-. cbn. rewrite Hs. discriminate.
        * rewrite (assigned_fixed key f v (declared_no_setter cls key f Hcls Hf) Hok).
          f_equal. symmetry. apply map_lookup_filter_Some. split; [exact Hv|exact Hs].
      + change (default VNone None) with VNone. unfold parsed. cbn [is_none orb]. f_equal. symmetry. apply map_lookup_filter_None. left. exact Hv.
    - intros key Hf. apply map_lookup_filter_None. left. exact (Hu key Hf). }
  split; [exact H1|].
  intros Hall. rewrite H1. f_equal. apply map_filter_id. intros k v Hv. exact (Hall k v Hv).
Qed.

(** X2. The record of [clean] holds exactly the declared fields whose raw
    value is truthy, each with what assigning the raw value stores; every
    other key of the mapping is left out. *)
Theorem clean_keeps_declared_truthy (item : gmap string pyval) (record : Item) :
  clean cls item = Ok record ->
  forall key v,
    record !! key = Some v
    <-> exists raw f,
          item !! key = Some raw /\ truthy raw = true
          /\ fields cls !! key = Some f /\ assigned key f raw = Ok v.
Proof using Type.
  intros H key v. apply Item_init_Ok in H as [Hin Hout].
  set (kept := filter (fun kv : string * pyval =>
                         truthy kv.2 = true ∧ is_Some (fields cls !! kv.1)) item) in *.
  destruct (kept !! key) as [raw|] eqn:Hk.
  - specialize (Hin key raw Hk).
    apply map_lookup_filter_Some in Hk as [Hraw [Ht [f Hf]]]. cbn in Ht, Hf.
    unfold initialized in Hin. rewrite Hf in Hin.
    destruct (assigned key f raw) as [w|e] eqn:Ha; [|discriminate].
    injection Hin as Hin. rewrite <- Hin. split.
    + intros [= <-]. exists raw, f. auto.
    + intros [raw' [f' [Hraw' [_ [Hf' Ha']]]]]. congruence.
  - rewrite (Hout key Hk). split; [discriminate|].
    intros [raw [f [Hraw [Ht [Hf _]]]]]. exfalso.
    apply map_lookup_filter_None in Hk as [Hk|Hk]; [congruence|].
    apply (Hk raw Hraw). split; [exact Ht|exists f; exact Hf].
Qed.

End MoreItems.

Section CleanContract.
Context `{U : Utils}.

(** X19. The type contract of [clean]: a record that [clean] returns for
    an item class of [items.py] is fully typed, every value it holds is
    [None] or an instance of the [dtype] of its field. *)
Theorem clean_fully_typed (cls : ItemClass) (item : gmap string pyval) (record : Item) :
  declared_class cls ->
  clean cls item = Ok record ->
  fully_typed cls record.
Proof using Type.
  intros Hcls Hc key v Hv.
  destruct (clean_stored cls item record key v Hc Hv) as [f [raw [Hf Ha]]].
  exists f. split; [exact Hf|].
  apply (assigned_ok key f raw v); [|exact Ha].
  apply no_setter_keeps_type. exact (declared_no_setter cls key f Hcls Hf).
Qed.

End CleanContract.

Section Processors.
Context `{U : Utils}.

(** [MapCompose] on the concatenation of two lists. *)
Lemma MapCompose_concat (functions : list callable) (l1 l2 : list pyval) :
  arg_to_iter (MapCompose functions (VList (l1 ++ l2)))
  = (arg_to_iter (MapCompose functions (VList l1))
     ++ arg_to_iter (MapCompose functions (VList l2)))%list.
Proof using Type.
  unfold MapCompose. cbn [arg_to_iter]. revert l1 l2.
  induction functions as [|func functions IH]; intros l1 l2; [reflexivity|].
  cbn [fold_left]. rewrite flat_map_app. apply IH.
Qed.

(** X6. The numeric processors treat every candidate on its own: no
    candidate ([None] or an empty list) gives no value, and the values of
    a list of candidates are the values of its parts, in order. *)
Theorem processors_independent (p : ranged) (l1 l2 : list pyval) :
  In p ranged_processors ->
  processor p VNone = VList []
  /\ processor p (VList []) = VList []
  /\ arg_to_iter (processor p (VList (l1 ++ l2)))
     = (arg_to_iter (processor p (VList l1)) ++ arg_to_iter (processor p (VList l2)))%list.
Proof using Type.
  intros Hp. cbn in Hp.
  destruct Hp as [<-|[<-|[<-|[<-|[<-|[]]]]]]; cbn [processor];
    (split; [reflexivity|split; [reflexivity|apply MapCompose_concat]]).
Qed.

End Processors.

(** ** More on the request chain *)

Section MoreChain.
Context `{U : Utils}.
Variable cls : ItemClass.
Variable default_input_processor : callable.
Variable default_output_processor : callable.
Variable scrape_images scrape_videos scrape_reviews : bool.
Variable _api_url : string -> pyval -> string.

Local Abbreviation load_stage := (Bga.load_stage cls default_input_processor default_output_processor).
Local Abbreviation respond := (Bga.respond cls default_input_processor default_output_processor).
Local Abbreviation crawl := (Bga.crawl cls default_input_processor default_output_processor).
Local Abbreviation _game_requests :=
  (Bga._game_requests scrape_images scrape_videos scrape_reviews _api_url).

(** X7. The context of a game survives the round trip through a request.
    The request that [_next_request_or_item] makes for the head of the
    queue has the stage of the head, bound to the record, as callback and
    as errback; and whatever comes back, response or failure, the callback
    finds the record and the rest of the queue in it again, with or
    without the bound record. *)
Theorem context_round_trip (item : Item) u s (rest : list (string * stage))
    (r : Request) (o : outcome) :
  _next_request_or_item item (Some ((u, s) :: rest)) = OutRequest r ->
  callback r = (s, item)
  /\ errback r = (s, item)
  /\ _extract_item None (deliver r o) = item
  /\ _extract_item (Some item) (deliver r o) = item
  /\ _extract_requests (deliver r o) = Some rest.
Proof using Type.
  rewrite next_request. intros [= <-].
  assert (Hm : _extract_meta (deliver
              {| url := u; callback := (s, item); errback := (s, item);
                 meta := {| meta_item := Some item; game_requests := Some rest |} |} o)
            = mkMeta (Some item) (Some rest))
    by (apply extract_meta_deliver; reflexivity).
  repeat split.
  - unfold _extract_item. rewrite Hm. cbn [meta_item].
    destruct (item_truthy item) eqn:Ht; [reflexivity|].
    symmetry. apply item_truthy_false. exact Ht.
  - apply (extract_item_deliver _ o item rest). reflexivity.
  - unfold _extract_requests. rewrite Hm. reflexivity.
Qed.

(** X8. A crawl collects values for the fields of its stages only, and
    loads every other field of the record again with each request that is
    answered: the stored value goes through the output processor of the
    field and is assigned again.  So a field other than those of the
    queued stages is never created and never removed, and in the finished
    record (or in the record bound to the request in flight) it holds the
    value it had at the start, loaded again once per answered request. *)
Theorem crawl_reloads_other_fields (outcomes : list outcome)
    (queue : list (string * stage)) (item : Item) urls out k :
  crawl outcomes (_next_request_or_item item (Some queue)) = Ok (urls, out) ->
  k ∉ stage_field <$> queue.*2 ->
  let record := match out with
                | OutItem final => final
                | OutRequest r => (callback r).2
                end in
  match item !! k with
  | Some v =>
      exists w,
        reloaded_times cls default_output_processor
          (Nat.min (length outcomes) (length queue)) k v = Ok w
        /\ record !! k = Some w
  | None => record !! k = None
  end.
Proof using Type.
  cbv zeta. revert queue item urls. induction outcomes as [|o os IH]; intros queue item urls.
  - destruct queue as [|[u s] rest]; cbn; intros [= <- <-] _; cbn;
      (destruct (item !! k) as [v|];
       [exists v; split; reflexivity | reflexivity]).
  - destruct queue as [|[u s] rest].
    + cbn. intros [= <- <-] _.
      destruct (item !! k) as [v|];
        [exists v; split; reflexivity | reflexivity].
    + rewrite next_request. cbn [Bga.crawl]. rewrite respond_next.
      intros H Hk.
      apply res_bind_inv in H as [out' [H1 H]].
      apply res_bind_inv in H1 as [item' [Hl H1]]. injection H1 as <-.
      apply res_bind_inv in H as [[urls' out''] [Hc H]]. injection H as <- <-.
      cbn [snd]. cbn in Hk. apply not_elem_of_cons in Hk as [Hks Hk].
      specialize (IH rest item' urls' Hc Hk).
      pose proof (load_stage_other cls _ _ s item item' (document o) k Hl Hks) as Hstep.
      destruct (item !! k) as [v|].
      * destruct Hstep as [w1 [Hr Hw1]]. rewrite Hw1 in IH.
        destruct IH as [w [Hn Hw]]. exists w. split; [|exact Hw].
        cbn [length Nat.min reloaded_times]. rewrite Hr. exact Hn.
      * rewrite Hstep in IH. exact IH.
Qed.

(** X9. The chain of a game is at most three requests long: given three
    outcomes or more, a crawl that raises nothing ends with the record,
    after one request per enabled stage, in the order images, videos,
    reviews; a stage that is switched off is never requested. *)
Theorem game_chain (bga_id : pyval) (item : Item) (outcomes : list outcome) urls out :
  (3 <= length outcomes)%nat ->
  crawl outcomes (_next_request_or_item item (Some (_game_requests bga_id)))
  = Ok (urls, out) ->
  (exists final, out = OutItem final)
  /\ urls = (_game_requests bga_id).*1
  /\ (_game_requests bga_id).*2
     = ((if scrape_images then [parse_images] else [])
        ++ (if scrape_videos then [parse_videos] else [])
        ++ (if scrape_reviews then [parse_reviews] else []))%list.
Proof using Type.
  intros Hlen H.
  assert (Hq : (length (_game_requests bga_id) <= 3)%nat)
    by (unfold Bga._game_requests; destruct scrape_images, scrape_videos, scrape_reviews;
        cbn; lia).
  apply crawl_in_order in H as [Hu Ho]. split; [|split].
  - destruct out as [final|r]; [exists final; reflexivity|].
    destruct Ho as [Ho _]. lia.
  - rewrite Hu. rewrite take_ge by lia. reflexivity.
  - unfold Bga._game_requests. destruct scrape_images, scrape_videos, scrape_reviews;
      reflexivity.
Qed.

(** X20. A stage that finds no document adds nothing to the record: when
    the record has no value for the field of the stage and the input
    processor of the field makes nothing of no candidates, a failed
    request, and a response whose body parses to nothing, are answered by
    loading the record as it came, and then by the next request (or the
    record) for what was loaded and the rest of the queue.  A record whose
    values are what their output processors make of them comes out as it
    went in. *)
Theorem empty_stage_reloads_record (s : stage) (item : Item) u
    (rest : list (string * stage)) (o : outcome) f :
  fields cls !! stage_field s = Some f ->
  truthy (default default_input_processor (input_processor f) (VList [])) = false ->
  item !! stage_field s = None ->
  document o = VDict [] ->
  let r := {| url := u; callback := (s, item); errback := (s, item);
              meta := {| meta_item := Some item; game_requests := Some rest |} |} in
  respond r o
  = (item' <-- Loaders.load_item cls default_output_processor
                 (GameJsonLoader item (VDict [])) ;;
     Ok (_next_request_or_item item' (Some rest)))
  /\ ((forall k v, item !! k = Some v ->
         reloaded cls default_output_processor k v = Ok v) ->
      respond r o = Ok (_next_request_or_item item (Some rest)))
  /\ document Failed = VDict [].
Proof using Type.
  intros Hf Ht Hi Hd r.
  assert (H : respond r o
              = (item' <-- Loaders.load_item cls default_output_processor
                             (GameJsonLoader item (VDict [])) ;;
                 Ok (_next_request_or_item item' (Some rest)))).
  { unfold r. rewrite respond_next, Hd.
    rewrite (load_stage_nothing cls default_input_processor default_output_processor
               s item f Hf Ht Hi).
    reflexivity. }
  split; [exact H|]. split; [|reflexivity].
  intros Hfix. rewrite H. unfold GameJsonLoader.
  rewrite (reload_fixed cls default_output_processor item (VDict []) Hfix).
  reflexivity.
Qed.

End MoreChain.

(** ** The URLs of the listing requests *)

Import BgaApi.

(** The order of strings. *)
Lemma ascii_compare_trans a b c o :
  Ascii.compare a b = o -> Ascii.compare b c = o -> Ascii.compare a c = o.
Proof.
  unfold Ascii.compare. destruct o; intros H1 H2.
  - apply N.compare_eq_iff in H1, H2. apply N.compare_eq_iff. congruence.
  - apply N.compare_lt_iff in H1, H2. apply N.compare_lt_iff.
    exact (N.lt_trans _ _ _ H1 H2).
  - apply N.compare_gt_iff in H1, H2. apply N.compare_gt_iff.
    exact (N.lt_trans _ _ _ H2 H1).
Qed.

Lemma string_compare_Lt_trans s1 : forall s2 s3,
  String.compare s1 s2 = Lt -> String.compare s2 s3 = Lt -> String.compare s1 s3 = Lt.
Proof.
  induction s1 as [|a s1 IH]; intros [|b s2] [|c s3]; cbn; try congruence.
  destruct (Ascii.compare a b) eqn:Hab; try discriminate;
    destruct (Ascii.compare b c) eqn:Hbc; try discriminate; intros H1 H2.
  - apply Ascii.compare_eq_iff in Hab, Hbc. subst.
    replace (Ascii.compare c c) with Eq
      by (symmetry; unfold Ascii.compare; apply N.compare_refl).
    exact (IH s2 s3 H1 H2).
  - apply Ascii.compare_eq_iff in Hab. subst. rewrite Hbc. reflexivity.
  - apply Ascii.compare_eq_iff in Hbc. subst. rewrite Hab. reflexivity.
  - rewrite (ascii_compare_trans a b c Lt Hab Hbc). reflexivity.
Qed.

Lemma string_compare_refl s : String.compare s s = Eq.
Proof.
  induction s as [|a s IH]; [reflexivity|]. cbn.
  replace (Ascii.compare a a) with Eq
    by (symmetry; unfold Ascii.compare; apply N.compare_refl).
  exact IH.
Qed.

Lemma string_leb_trans s1 s2 s3 :
  String.leb s1 s2 = true -> String.leb s2 s3 = true -> String.leb s1 s3 = true.
Proof.
  unfold String.leb.
  destruct (String.compare s1 s2) eqn:H12; try discriminate;
    destruct (String.compare s2 s3) eqn:H23; try discriminate; intros _ _.
  - apply String.compare_eq_iff in H12. apply String.compare_eq_iff in H23. subst.
    rewrite string_compare_refl. reflexivity.
  - apply String.compare_eq_iff in H12. subst s2. rewrite H23. reflexivity.
  - apply String.compare_eq_iff in H23. subst s3. rewrite H12. reflexivity.
  - rewrite (string_compare_Lt_trans s1 s2 s3 H12 H23). reflexivity.
Qed.

Lemma insert_by_key_perm x l : insert_by_key x l ≡ₚ x :: l.
Proof.
  induction l as [|y l IH]; [reflexivity|]. cbn.
  destruct (String.leb x.1 y.1); [reflexivity|].
  rewrite IH. apply Permutation_swap.
Qed.

Lemma sorted_by_key_perm l : sorted_by_key l ≡ₚ l.
Proof.
  induction l as [|x l IH]; [reflexivity|]. cbn.
  rewrite insert_by_key_perm. rewrite IH. reflexivity.
Qed.

Lemma insert_by_key_sorted x l :
  StronglySorted key_le l -> StronglySorted key_le (insert_by_key x l).
Proof.
  induction 1 as [|y l Hs IH Hy]; cbn.
  - constructor; constructor.
  - destruct (String.leb x.1 y.1) eqn:Hxy.
    + constructor; [constructor; assumption|].
      constructor; [exact Hxy|].
      eapply Forall_impl; [exact Hy|]. intros z Hz.
      exact (string_leb_trans _ _ _ Hxy Hz).
    + constructor; [exact IH|].
      rewrite insert_by_key_perm. constructor; [|exact Hy].
      destruct (String.leb_total x.1 y.1) as [H|H]; [congruence|exact H].
Qed.

Lemma sorted_by_key_sorted l : StronglySorted key_le (sorted_by_key l).
Proof.
  induction l as [|x l IH]; cbn; [constructor|].
  apply insert_by_key_sorted. exact IH.
Qed.

Lemma NoDup_fst_value {A} (l : list (string * A)) k v1 v2 :
  NoDup l.*1 -> (k, v1) ∈ l -> (k, v2) ∈ l -> v1 = v2.
Proof.
  induction l as [|[k' v'] l IH]; intros Hnd H1 H2; [inversion H1|].
  apply NoDup_cons in Hnd as [Hk Hnd].
  apply elem_of_cons in H1 as [H1|H1]; apply elem_of_cons in H2 as [H2|H2].
  - congruence.
  - injection H1 as -> ->. exfalso. apply Hk.
    exact (list_elem_of_fmap_2 fst l (k', v2) H2).
  - injection H2 as -> ->. exfalso. apply Hk.
    exact (list_elem_of_fmap_2 fst l (k', v1) H1).
  - exact (IH Hnd H1 H2).
Qed.

(** Items with distinct keys have one sorted order. *)
Lemma sorted_by_key_unique l1 l2 :
  NoDup l1.*1 -> l1 ≡ₚ l2 -> sorted_by_key l1 = sorted_by_key l2.
Proof.
  intros Hnd Hp.
  apply (StronglySorted_unique_strong key_le);
    [|apply sorted_by_key_sorted|apply sorted_by_key_sorted
     |rewrite !sorted_by_key_perm; exact Hp].
  intros [k1 v1] [k2 v2] H1 H2 Hle1 Hle2.
  rewrite sorted_by_key_perm in H1. rewrite sorted_by_key_perm, <- Hp in H2.
  assert (k1 = k2) by (apply String.leb_antisym; assumption). subst k2.
  f_equal. exact (NoDup_fst_value l1 k1 v1 v2 Hnd H1 H2).
Qed.

Lemma dict_get_Some (d : list (string * pyval)) k v :
  dict_get d k = Some v -> (k, v) ∈ d.
Proof.
  induction d as [|[k' v'] d IH]; cbn; [discriminate|].
  destruct (String.eqb_spec k k') as [->|Hne].
  - intros [= ->]. left.
  - intros H. right. exact (IH H).
Qed.

Lemma dict_get_None (d : list (string * pyval)) k :
  dict_get d k = None <-> k ∉ d.*1.
Proof.
  induction d as [|[k' v'] d IH]; cbn.
  - split; [intros _ H; inversion H|reflexivity].
  - rewrite not_elem_of_cons. destruct (String.eqb_spec k k') as [->|Hne].
    + split; [discriminate|]. intros [H _]. contradiction.
    + rewrite IH. tauto.
Qed.

Section ApiFacts.
Variable quote_plus : string -> string.
Variable str : pyval -> string.
Variable api_url : string.
Variable expected_items expected_reviews : Z.
Variable client_id : pyval.

Local Abbreviation urlencode := (BgaApi.urlencode quote_plus str).
Local Abbreviation _api_url := (BgaApi._api_url quote_plus str api_url client_id).
Local Abbreviation start_requests :=
  (BgaApi.start_requests quote_plus str api_url expected_items expected_reviews client_id).

Lemma setdefault_items key value (query : query_dict) k v :
  (k, v) ∈ setdefault key value query
  <-> (k, v) ∈ query \/ (k = key /\ v = value /\ key ∉ query.*1).
Proof using Type.
  unfold setdefault. destruct (dict_get query key) as [w|] eqn:Hg.
  - split; [tauto|]. intros [H|[-> [-> H]]]; [exact H|].
    apply dict_get_None in H. congruence.
  - apply dict_get_None in Hg. rewrite elem_of_app, list_elem_of_singleton.
    split.
    + intros [H|[= -> ->]]; [left; exact H|right; auto].
    + intros [H|[-> [-> _]]]; [left; exact H|right; reflexivity].
Qed.

Lemma setdefault_NoDup key value (query : query_dict) :
  NoDup query.*1 -> NoDup (setdefault key value query).*1.
Proof using Type.
  intros Hnd. unfold setdefault. destruct (dict_get query key) eqn:Hg; [exact Hnd|].
  apply dict_get_None in Hg. rewrite fmap_app. apply NoDup_app. split; [exact Hnd|].
  split; [|apply NoDup_singleton].
  intros x Hx Hx'. cbn in Hx'. apply list_elem_of_singleton in Hx'. subst. contradiction.
Qed.

Lemma setdefault_perm key value (q1 q2 : query_dict) :
  q1 ≡ₚ q2 -> setdefault key value q1 ≡ₚ setdefault key value q2.
Proof using Type.
  intros Hp. unfold setdefault.
  destruct (dict_get q1 key) as [w1|] eqn:H1; destruct (dict_get q2 key) as [w2|] eqn:H2.
  - exact Hp.
  - apply dict_get_Some in H1. apply dict_get_None in H2. exfalso. apply H2.
    rewrite <- Hp. exact (list_elem_of_fmap_2 fst q1 (key, w1) H1).
  - apply dict_get_Some in H2. apply dict_get_None in H1. exfalso. apply H1.
    rewrite Hp. exact (list_elem_of_fmap_2 fst q2 (key, w2) H2).
  - rewrite Hp. reflexivity.
Qed.

(** X10. The URL of a query does not depend on the order in which the
    query dictionary was filled: the items are sorted by key. *)
Theorem api_url_canonical path (q1 q2 : query_dict) :
  NoDup q1.*1 -> q1 ≡ₚ q2 ->
  _api_url path (Some q1) = _api_url path (Some q2).
Proof using Type.
  intros Hnd Hp. unfold BgaApi._api_url.
  assert (Hq : match q1 with kv :: q => kv :: q | [] => [] end = q1)
    by (destruct q1; reflexivity).
  assert (Hq' : match q2 with kv :: q => kv :: q | [] => [] end = q2)
    by (destruct q2; reflexivity).
  rewrite Hq, Hq'. do 5 f_equal.
  apply sorted_by_key_unique.
  - apply setdefault_NoDup, setdefault_NoDup, Hnd.
  - apply setdefault_perm, setdefault_perm, Hp.
Qed.

(** X11. The parameters of every URL: the items of the query, and
    [client_id] and [limit=100] unless the query holds them already (a
    value of the caller is never replaced), each key once, sorted by key. *)
Theorem api_url_parameters path (query : query_dict) :
  NoDup query.*1 ->
  exists items,
    _api_url path (Some query) = api_url +:+ "/" +:+ path +:+ "?" +:+ urlencode items
    /\ StronglySorted (fun x y => String.leb x.1 y.1 = true) items
    /\ NoDup items.*1
    /\ forall k v,
         (k, v) ∈ items
         <-> (k, v) ∈ query
             \/ (k = "client_id" /\ v = client_id /\ "client_id" ∉ query.*1)
             \/ (k = "limit" /\ v = VInt 100 /\ "limit" ∉ query.*1).
Proof using Type.
  intros Hnd.
  exists (sorted_by_key (setdefault "limit" (VInt 100) (setdefault "client_id" client_id query))).
  split; [|split; [|split]].
  - unfold BgaApi._api_url. destruct query; reflexivity.
  - apply sorted_by_key_sorted.
  - rewrite sorted_by_key_perm. apply setdefault_NoDup, setdefault_NoDup, Hnd.
  - intros k v. rewrite sorted_by_key_perm, !setdefault_items.
    split.
    + intros [[H|H]|[-> [-> H]]]; [tauto|tauto|].
      right. right. split; [reflexivity|]. split; [reflexivity|].
      intros Hin. apply H. apply list_elem_of_fmap in Hin as [[k' v'] [Hk Hin]].
      cbn in Hk. subst k'.
      apply (list_elem_of_fmap_2' fst _ ("limit", v')); [|reflexivity].
      apply setdefault_items. left. exact Hin.
    + intros [H|[[-> [-> H]]|[-> [-> H]]]]; [tauto|tauto|].
      right. split; [reflexivity|]. split; [reflexivity|].
      intros Hin. apply list_elem_of_fmap in Hin as [[k' v'] [Hk Hin]].
      cbn in Hk. subst k'. apply setdefault_items in Hin as [Hin|[Hin _]]; [|discriminate].
      apply H. exact (list_elem_of_fmap_2 fst query ("limit", v') Hin).
Qed.

Lemma page_of_index i :
  0 <= i -> (i / 100) * 100 <= i < (i / 100) * 100 + 100 /\ 0 <= i / 100.
Proof using Type.
  intros Hi. pose proof (Z.div_mod i 100 ltac:(lia)).
  pose proof (Z.mod_pos_bound i 100 ltac:(lia)).
  pose proof (Z.div_pos i 100 Hi ltac:(lia)). lia.
Qed.

Lemma pages_bound e :
  2000 <= e -> e <= 100 * ((e * 21) / 2000) /\ 100 * ((e * 21) / 2000) <= (e * 21) / 20.
Proof using Type.
  intros He. pose proof (Z.div_mod (e * 21) 2000 ltac:(lia)).
  pose proof (Z.mod_pos_bound (e * 21) 2000 ltac:(lia)).
  pose proof (Z.div_mod (e * 21) 20 ltac:(lia)).
  pose proof (Z.mod_pos_bound (e * 21) 20 ltac:(lia)).
  split; [lia|].
  assert (100 * ((e * 21) / 2000) * 20 <= e * 21) by lia.
  apply Z.div_le_lower_bound; lia.
Qed.

(** X12. The start requests cover what is expected: with 2000 expected
    games (reviews) or more, every index below the expected number lies in
    the window of 100 of one requested page, whose URL carries the default
    [limit] of 100 and the offset of the page; and the pages exceed the
    expected numbers by no more than a twentieth. *)
Theorem start_requests_cover :
  2000 <= expected_items ->
  2000 <= expected_reviews ->
  let games page := [("order-by", VStr "popularity"); ("skip", VInt (page * 100))] in
  let reviews page := [("skip", VInt (page * 100))] in
  (forall i, 0 <= i < expected_items ->
     exists page,
       page * 100 <= i < page * 100 + 100
       /\ mkStartRequest (_api_url "search" (Some (games page))) parse ∈ start_requests
       /\ _api_url "search" (Some (games page))
          = api_url +:+ "/" +:+ "search" +:+ "?"
              +:+ urlencode [("client_id", client_id); ("limit", VInt 100);
                             ("order-by", VStr "popularity");
                             ("skip", VInt (page * 100))])
  /\ (forall i, 0 <= i < expected_reviews ->
        exists page,
          page * 100 <= i < page * 100 + 100
          /\ mkStartRequest (_api_url "reviews" (Some (reviews page))) parse_user_reviews
             ∈ start_requests
          /\ _api_url "reviews" (Some (reviews page))
             = api_url +:+ "/" +:+ "reviews" +:+ "?"
                 +:+ urlencode [("client_id", client_id); ("limit", VInt 100);
                                ("skip", VInt (page * 100))])
  /\ 100 * Z.of_nat (length start_requests)
     <= ((expected_items + expected_reviews) * 21) / 20.
Proof using Type.
  intros He Hr games reviews. split; [|split].
  - intros i Hi. exists (i / 100).
    destruct (page_of_index i ltac:(lia)) as [Hp Hp0]. pose proof (pages_bound _ He).
    split; [exact Hp|]. split; [|reflexivity].
    unfold BgaApi.start_requests. apply elem_of_app. left.
    apply (list_elem_of_fmap_2'
             (fun page => mkStartRequest (_api_url "search" (Some (games page))) parse)
             _ (i / 100)); [|reflexivity].
    apply elem_of_seqZ. lia.
  - intros i Hi. exists (i / 100).
    destruct (page_of_index i ltac:(lia)) as [Hp Hp0]. pose proof (pages_bound _ Hr).
    split; [exact Hp|]. split; [|reflexivity].
    unfold BgaApi.start_requests. apply elem_of_app. right.
    apply (list_elem_of_fmap_2'
             (fun page => mkStartRequest (_api_url "reviews" (Some (reviews page)))
                            parse_user_reviews)
             _ (i / 100)); [|reflexivity].
    apply elem_of_seqZ. lia.
  - unfold BgaApi.start_requests.
    rewrite length_app, !length_fmap, !length_seqZ.
    pose proof (pages_bound _ He) as [_ H1]. pose proof (pages_bound _ Hr) as [_ H2].
    pose proof (Z.div_mod (expected_items * 21) 20 ltac:(lia)).
    pose proof (Z.mod_pos_bound (expected_items * 21) 20 ltac:(lia)).
    pose proof (Z.div_mod (expected_reviews * 21) 20 ltac:(lia)).
    pose proof (Z.mod_pos_bound (expected_reviews * 21) 20 ltac:(lia)).
    apply Z.div_le_lower_bound; lia.
Qed.

End ApiFacts.

(** ** The players and the age of a Luding page *)

Import Players Regex.

Lemma removelast_cons (c : ascii) s : s <> [] -> removelast (c :: s) = c :: removelast s.
Proof. destruct s; [contradiction|reflexivity]. Qed.

Lemma single_line_cons c s :
  single_line (c :: s)
  = match s with [] => true | _ => dot c && single_line s end.
Proof.
  unfold single_line, dot. destruct s as [|c' s]; [reflexivity|].
  rewrite removelast_cons by discriminate. cbn [existsb]. rewrite negb_orb. reflexivity.
Qed.

Lemma single_line_app d r :
  single_line (d ++ r) = true -> single_line r = true.
Proof.
  induction d as [|c d IH]; [auto|]. cbn [app]. rewrite single_line_cons.
  destruct (d ++ r)%list as [|c' l] eqn:E.
  - destruct d; [|discriminate]. cbn in E. subst. reflexivity.
  - intros H. apply andb_true_iff in H as [_ H]. exact (IH H).
Qed.

Lemma digits_single_line d r :
  forallb is_digit d = true -> single_line r = true -> single_line (d ++ r) = true.
Proof.
  induction d as [|c d IH]; [auto|]. cbn [forallb app]. intros H Hr.
  apply andb_true_iff in H as [Hc Hd]. rewrite single_line_cons.
  pose proof (IH Hd Hr) as H'.
  destruct (d ++ r)%list eqn:E; [reflexivity|]. rewrite H', andb_true_r.
  unfold dot, is_newline. unfold is_digit in Hc.
  destruct (Ascii.eqb_spec c "010"); [subst; discriminate|reflexivity].
Qed.

(** The end of the pattern: [.*$] *)
Lemma rest_of_line {R} (k : list ascii -> list ascii -> option R) (r : R) s :
  (forall taken rest, k taken rest = if at_end rest then Some r else None) ->
  forall taken,
    repeat_class dot true k 0 taken s = if single_line s then Some r else None.
Proof.
  intros Hk. induction s as [|c s IH]; intros taken.
  - cbn. rewrite Hk. reflexivity.
  - cbn [repeat_class pred]. rewrite single_line_cons, Hk.
    destruct (dot c) eqn:Hc.
    + rewrite IH. destruct s as [|c' s]; [reflexivity|]. cbn [andb].
      destruct (single_line (c' :: s)); reflexivity.
    + unfold dot in Hc. apply negb_false_iff in Hc. cbn [at_end].
      destruct s; [rewrite Hc|]; reflexivity.
Qed.

Lemma take_drop_while (f : ascii -> bool) l : (take_while f l ++ drop_while f l)%list = l.
Proof.
  induction l as [|c l IH]; [reflexivity|]. cbn.
  destruct (f c); [cbn; rewrite IH|]; reflexivity.
Qed.

Lemma take_while_all (f : ascii -> bool) l : forallb f (take_while f l) = true.
Proof.
  induction l as [|c l IH]; [reflexivity|]. cbn.
  destruct (f c) eqn:E; [cbn; rewrite E, IH|]; reflexivity.
Qed.

(** The group and what follows it: [(\d+).*$] *)
Lemma digit_run {R} (k : list ascii -> list ascii -> option R)
    (f : list ascii -> R) s :
  (forall taken rest, k taken rest = if single_line rest then Some (f taken) else None) ->
  forall least taken,
    repeat_class is_digit true k least taken s
    = if (least <=? length (take_while is_digit s))%nat
         && single_line (drop_while is_digit s)
      then Some (f (rev taken ++ take_while is_digit s)%list) else None.
Proof.
  intros Hk. induction s as [|c s IH]; intros least taken.
  - cbn. destruct least; [|reflexivity]. rewrite Hk, app_nil_r. reflexivity.
  - cbn [repeat_class take_while drop_while]. destruct (is_digit c) eqn:Hc.
    + rewrite IH. cbn [rev length]. rewrite <- app_assoc. cbn [app].
      replace (least <=? S (length (take_while is_digit s)))%nat
        with (pred least <=? length (take_while is_digit s))%nat
        by (destruct least; reflexivity).
      destruct ((pred least <=? _)%nat && _) eqn:Hcond; [reflexivity|].
      destruct least; [|reflexivity]. rewrite Hk.
      cbn in Hcond.
      destruct (single_line (c :: s)) eqn:Hs; [|reflexivity].
      rewrite <- (take_drop_while is_digit s) in Hs.
      apply (single_line_app (c :: take_while is_digit s)) in Hs. congruence.
    + cbn [length]. destruct least; [|reflexivity].
      rewrite Hk, app_nil_r. reflexivity.
Qed.

(** The text before the group: [.*?] *)
Lemma lazy_prefix {R} (k : list ascii -> list ascii -> option R)
    (f : list ascii -> R) s :
  (forall taken rest,
     k taken rest
     = if (1 <=? length (take_while is_digit rest))%nat
          && single_line (drop_while is_digit rest)
       then Some (f (take_while is_digit rest)) else None) ->
  forall taken,
    repeat_class dot false k 0 taken s
    = if single_line s
      then match take_while is_digit (drop_while (fun c => negb (is_digit c)) s) with
           | [] => None
           | c :: digits => Some (f (c :: digits))
           end
      else None.
Proof.
  intros Hk. induction s as [|c s IH]; intros taken.
  - cbn. rewrite Hk. reflexivity.
  - cbn [repeat_class pred]. rewrite Hk. cbn [take_while drop_while].
    destruct (is_digit c) eqn:Hc; cbn [negb length Nat.leb andb].
    + assert (Hdot : dot c = true).
      { unfold dot, is_newline. unfold is_digit in Hc.
        destruct (Ascii.eqb_spec c "010"); [subst; discriminate|reflexivity]. }
      rewrite Hdot. cbn [take_while]. rewrite Hc.
      destruct (single_line (drop_while is_digit s)) eqn:Hr.
      * replace (single_line (c :: s)) with true; [reflexivity|]. symmetry.
        rewrite <- (take_drop_while is_digit s).
        apply (digits_single_line (c :: take_while is_digit s)); [|exact Hr].
        cbn. rewrite Hc, take_while_all. reflexivity.
      * rewrite IH.
        assert (Hs : single_line s = false).
        { destruct (single_line s) eqn:Hs; [|reflexivity].
          rewrite <- (take_drop_while is_digit s) in Hs.
          apply single_line_app in Hs. congruence. }
        rewrite Hs. rewrite single_line_cons. rewrite Hs, andb_false_r.
        destruct s; [discriminate|reflexivity].
    + rewrite single_line_cons. destruct (dot c) eqn:Hdot.
      * rewrite IH. destruct s as [|c' s]; [reflexivity|]. reflexivity.
      * destruct s as [|c' s]; reflexivity.
Qed.

(** X14. The age of a game: what [re.match(r'^.*?(\d+).*$', age)] and
    [group(1)] make of the text of the age cell, by the backtracking
    matcher, is the first run of digits of the text, and nothing when the
    text has no digit or a line break before its last character. *)
Theorem age_is_first_number (age : string) : age_group age = first_number age.
Proof.
  unfold age_group, re_match, age_pattern, first_number.
  cbn [match_items].
  rewrite (lazy_prefix _ Some).
  - unfold single_line.
    destruct (existsb is_newline (removelast (list_ascii_of_string age)));
      cbn [negb]; [reflexivity|].
    destruct (take_while is_digit _); reflexivity.
  - intros taken rest.
    rewrite (digit_run _ Some); [reflexivity|].
    intros taken' rest'.
    rewrite (rest_of_line _ (Some taken')); [reflexivity|].
    intros taken'' rest''. destruct (at_end rest''); reflexivity.
Qed.

Lemma take_while_app_stop (f : ascii -> bool) a b :
  existsb (fun c => negb (f c)) a = true -> take_while f (a ++ b) = take_while f a.
Proof.
  induction a as [|c a IH]; [discriminate|]. cbn.
  destruct (f c); cbn; [|reflexivity]. intros H. rewrite (IH H). reflexivity.
Qed.

Lemma take_while_snoc_stop (f : ascii -> bool) a c :
  f c = false -> take_while f (a ++ [c]) = take_while f a.
Proof.
  intros Hc. induction a as [|x a IH]; cbn; [rewrite Hc; reflexivity|].
  destruct (f x); [rewrite IH|]; reflexivity.
Qed.

Lemma split_chars_head (sep : ascii) (l : list ascii) : forall cur,
  head (split_chars sep cur l)
  = Some (rev cur ++ take_while (fun c => negb (Ascii.eqb c sep)) l)%list.
Proof.
  induction l as [|c l IH]; intros cur; cbn.
  - rewrite app_nil_r. reflexivity.
  - destruct (Ascii.eqb c sep); cbn.
    + rewrite app_nil_r. reflexivity.
    + rewrite IH. cbn. rewrite <- app_assoc. reflexivity.
Qed.

Lemma split_chars_nonempty (sep : ascii) (l : list ascii) cur :
  split_chars sep cur l <> [].
Proof.
  pose proof (split_chars_head sep l cur) as H. intros E. rewrite E in H. discriminate.
Qed.

Lemma existsb_rev {A} (f : A -> bool) l : existsb f (rev l) = existsb f l.
Proof.
  induction l as [|x l IH]; [reflexivity|]. cbn. rewrite existsb_app, IH. cbn.
  rewrite orb_false_r. apply orb_comm.
Qed.

Lemma split_chars_last (sep : ascii) (l : list ascii) : forall cur,
  last (split_chars sep cur l)
  = Some (if existsb (fun c => Ascii.eqb c sep) l
          then rev (take_while (fun c => negb (Ascii.eqb c sep)) (rev l))
          else rev cur ++ l)%list.
Proof.
  induction l as [|c l IH]; intros cur; cbn [split_chars existsb].
  - cbn. rewrite app_nil_r. reflexivity.
  - destruct (Ascii.eqb c sep) eqn:Hc; cbn [orb].
    + pose proof (split_chars_nonempty sep l []) as Hne.
      destruct (split_chars sep [] l) as [|p ps] eqn:E; [contradiction|].
      change (last (rev cur :: p :: ps)) with (last (p :: ps)). rewrite <- E, IH.
      cbn [rev]. rewrite take_while_snoc_stop by (rewrite Hc; reflexivity).
      destruct (existsb _ l) eqn:Hl; [reflexivity|]. cbn [app]. f_equal.
      assert (H : forall l0, existsb (fun c => Ascii.eqb c sep) l0 = false ->
                    take_while (fun c => negb (Ascii.eqb c sep)) l0 = l0).
      { induction l0 as [|x l0 IH0]; [reflexivity|]. cbn. intros H.
        apply orb_false_iff in H as [Hx H]. rewrite Hx. cbn. rewrite (IH0 H).
        reflexivity. }
      rewrite H by (rewrite existsb_rev; exact Hl). symmetry. apply rev_involutive.
    + rewrite IH. destruct (existsb _ l) eqn:Hl.
      * cbn [rev]. rewrite take_while_app_stop; [reflexivity|].
        rewrite existsb_rev. apply existsb_exists.
        apply existsb_exists in Hl as [x [Hin Hx]].
        exists x. split; [exact Hin|]. rewrite Hx. reflexivity.
      * cbn [rev]. rewrite <- app_assoc. reflexivity.
Qed.

(** The values fed to the players fields, of a players cell that is not
    empty: the text before the first ["-"] and the text after the last
    one. *)
Lemma fed_players_range (page : GamePage) (players : string) :
  players_text page = Some players ->
  players <> "" ->
  let text := list_ascii_of_string players in
  fed_players page
  = Ok (VStr (string_of_list_ascii (take_while not_dash text)),
        VStr (string_of_list_ascii (rev (take_while not_dash (rev text))))).
Proof.
  intros Hp Hne text. unfold fed_players, split_players. rewrite Hp.
  destruct (String.eqb_spec players ""); [contradiction|].
  unfold py_split. fold text.
  pose proof (split_chars_head "-" text []) as Hh.
  pose proof (split_chars_last "-" text []) as Hl.
  assert (Hsuffix :
    (if existsb (fun c => Ascii.eqb c "-") text
     then rev (take_while (fun c => negb (Ascii.eqb c "-")) (rev text))
     else (rev [] ++ text)%list)
    = rev (take_while not_dash (rev text))).
  { destruct (existsb _ text) eqn:He; [reflexivity|]. cbn [rev app].
    assert (H : forall l0, existsb (fun c => Ascii.eqb c "-") l0 = false ->
                  take_while not_dash l0 = l0).
    { induction l0 as [|x l0 IH0]; [reflexivity|]. cbn. intros H.
      apply orb_false_iff in H as [Hx H]. unfold not_dash at 1. rewrite Hx. cbn.
      rewrite (IH0 H). reflexivity. }
    rewrite H by (rewrite existsb_rev; exact He). symmetry. apply rev_involutive. }
  rewrite Hsuffix in Hl. cbn [rev app] in Hh.
  unfold index_or_raise, py_index. cbn [Z.leb Z.compare Z.to_nat Z.opp].
  rewrite !length_map.
  set (pieces := split_chars "-" [] text) in *.
  rewrite head_lookup in Hh. rewrite last_lookup in Hl.
  rewrite !list_lookup_fmap. change (Z.to_nat 0) with 0%nat. rewrite Hh. cbn [fmap option_fmap option_map res_bind].
  assert (Hlen : (1 <= length pieces)%nat).
  { destruct pieces; [discriminate|cbn; lia]. }
  change (- (-1)) with 1.
  replace (1 <=? Z.of_nat (length pieces)) with true by (symmetry; apply Z.leb_le; lia).
  replace (Z.to_nat (Z.of_nat (length pieces) + -1)) with (pred (length pieces)) by lia.
  rewrite Hl. reflexivity.
Qed.

Section LudingMore.
Context `{U : Utils}.
Variable default_input_processor : callable.
Variable default_output_processor : callable.
Variable urljoin : string -> string -> string.
Variable extract_query_param : string -> string -> pyval.
Variable extract_bgg_id : pyval -> pyval.

Local Abbreviation parse_game :=
  (Luding.parse_game default_input_processor default_output_processor
     urljoin extract_query_param extract_bgg_id).
Local Abbreviation fed_once :=
  (Loaders.fed_once GameItem default_input_processor default_output_processor).

(** X13. The players of a game: of a players cell that is not empty,
    [min_players] is fed the text before the first ["-"] and [max_players]
    the text after the last one (both the whole text when there is none),
    and the item that [parse_game] returns holds in either field what the
    loader makes of the text it was fed. *)
Theorem players_range (page : GamePage) (players : string) :
  players_text page = Some players ->
  players <> "" ->
  let text := list_ascii_of_string players in
  let lo := VStr (string_of_list_ascii (take_while not_dash text)) in
  let hi := VStr (string_of_list_ascii (rev (take_while not_dash (rev text)))) in
  fed_players page = Ok (lo, hi)
  /\ forall item,
       parse_game page = Ok item ->
       fed_once "min_players" lo = Ok (item !! "min_players")
       /\ fed_once "max_players" hi = Ok (item !! "max_players").
Proof.
  intros Hp Hne text lo hi.
  pose proof (fed_players_range page players Hp Hne) as Hfed.
  split; [exact Hfed|].
  intros item Hrun.
  exact (parse_game_players default_input_processor default_output_processor
           urljoin extract_query_param extract_bgg_id page item lo hi Hrun Hfed).
Qed.

End LudingMore.

(** ** The entry point *)

Import Main.

Section MainFacts.
Variable path : Type.
Variable Path : string -> path.
Variable resolve : path -> path.
Variable joinpath : path -> string -> path.
Variable name : path -> string.
Variable path_str : path -> string.
Variable is_dir : path -> bool.
Variable is_file : path -> bool.
Variable iterdir : path -> list path.
Variable read_first_line : path -> first_line.
Variable date : Type.
Variable normalize_space : option string -> string.
Variable parse_date : option string -> option date.
Variable timestamp : date -> float.
Variable strftime : date -> string -> string.
Variable now_waiting : date.
Variable now_starting : date.

Local Abbreviation state_of := (Main.state_of path joinpath is_dir is_file read_first_line).
Local Abbreviation find_loop :=
  (Main.find_loop path joinpath name is_dir is_file read_first_line normalize_space).
Local Abbreviation _find_states :=
  (Main._find_states path resolve joinpath name is_dir is_file iterdir read_first_line
     normalize_space).
Local Abbreviation job_dir_path := (Main.job_dir_path path Path resolve joinpath).
Local Abbreviation main :=
  (Main.main path Path resolve joinpath name path_str is_dir is_file iterdir
     read_first_line date normalize_space parse_date timestamp strftime
     now_waiting now_starting).

Section Loop.
Variable state_file : string.
Variable delete : list string.
Variable delete_non_state : bool.

Local Abbreviation removable := (Main.removable delete delete_non_state).
Local Abbreviation reported :=
  (Main.reported path joinpath is_dir is_file read_first_line normalize_space
     state_file delete delete_non_state).

Lemma removable_test state :
  bool_decide (state ∈ delete) || (delete_non_state && String.eqb state "") = true
  <-> removable state.
Proof using Type.
  unfold removable. rewrite orb_true_iff, andb_true_iff, bool_decide_eq_true.
  rewrite String.eqb_eq. tauto.
Qed.

(** One round of the loop, by the state file of the directory. *)
Lemma find_loop_cons sub_dir sub_dirs result removed :
  find_loop state_file delete delete_non_state (sub_dir :: sub_dirs) result removed
  = match state_of state_file sub_dir with
    | None => find_loop state_file delete delete_non_state sub_dirs result removed
    | Some Unreadable => mkFound path removed None
    | Some (Line line) =>
        let state := normalize_space line in
        if bool_decide (state ∈ delete) || (delete_non_state && String.eqb state "")
        then find_loop state_file delete delete_non_state sub_dirs result
               (removed ++ [sub_dir])
        else if negb (String.eqb state "")
        then find_loop state_file delete delete_non_state sub_dirs
               (<[name sub_dir := state]> result) removed
        else find_loop state_file delete delete_non_state sub_dirs result removed
    end.
Proof using Type.
  cbn [Main.find_loop]. unfold Main.state_of.
  destruct (is_dir sub_dir), (is_file (joinpath sub_dir state_file)); reflexivity.
Qed.

Lemma find_loop_raises sub_dirs : forall result removed,
  states path (find_loop state_file delete delete_non_state sub_dirs result removed) = None
  <-> exists sub_dir, sub_dir ∈ sub_dirs /\ state_of state_file sub_dir = Some Unreadable.
Proof using Type.
  induction sub_dirs as [|d ds IH]; intros result removed.
  - cbn. split; [discriminate|]. intros [d [Hd _]]. inversion Hd.
  - rewrite find_loop_cons.
    assert (Hskip : forall result removed, state_of state_file d <> Some Unreadable ->
              (states path (find_loop state_file delete delete_non_state ds result removed)
               = None
               <-> exists sub_dir, sub_dir ∈ d :: ds
                                   /\ state_of state_file sub_dir = Some Unreadable)).
    { intros r rm Hd. rewrite IH. split.
      - intros [x [Hx Hs]]. exists x. split; [right; exact Hx|exact Hs].
      - intros [x [Hx Hs]]. apply elem_of_cons in Hx as [->|Hx]; [contradiction|].
        exists x. split; assumption. }
    destruct (state_of state_file d) as [[line|]|] eqn:Hd.
    + cbn zeta. destruct (bool_decide _ || _); [apply Hskip; discriminate|].
      destruct (negb _); apply Hskip; discriminate.
    + cbn. split; [|reflexivity]. intros _. exists d. split; [left|exact Hd].
    + apply Hskip. discriminate.
Qed.

Lemma find_loop_removed sub_dirs : forall result removed found sub_dir,
  find_loop state_file delete delete_non_state sub_dirs result removed = found ->
  states path found <> None ->
  (sub_dir ∈ Main.removed path found
   <-> sub_dir ∈ removed
       \/ (sub_dir ∈ sub_dirs
           /\ exists line, state_of state_file sub_dir = Some (Line line)
                           /\ removable (normalize_space line))).
Proof using Type.
  induction sub_dirs as [|d ds IH]; intros result removed found sub_dir.
  - cbn. intros <- _. cbn. split; [tauto|]. intros [H|[H _]]; [exact H|inversion H].
  - rewrite find_loop_cons. intros Hf Hs.
    assert (Hskip : forall result,
              find_loop state_file delete delete_non_state ds result removed = found ->
              (forall line, state_of state_file d = Some (Line line) ->
                 ~ removable (normalize_space line)) ->
              (sub_dir ∈ Main.removed path found
               <-> sub_dir ∈ removed
                   \/ (sub_dir ∈ d :: ds
                       /\ exists line, state_of state_file sub_dir = Some (Line line)
                                       /\ removable (normalize_space line)))).
    { intros r Hr Hd. rewrite (IH r removed found sub_dir Hr Hs). split.
      - intros [H|[H H']]; [left; exact H|right; split; [right; exact H|exact H']].
      - intros [H|[H [line [H1 H2]]]]; [left; exact H|].
        apply elem_of_cons in H as [->|H].
        + exfalso. exact (Hd line H1 H2).
        + right. split; [exact H|]. exists line. split; assumption. }
    destruct (state_of state_file d) as [[line|]|] eqn:Hd.
    + cbn zeta in Hf.
      destruct (bool_decide _ || _) eqn:Ht.
      * apply removable_test in Ht.
        rewrite (IH result (removed ++ [d])%list found sub_dir Hf Hs).
        rewrite elem_of_app, list_elem_of_singleton, elem_of_cons. split.
        -- intros [[H| ->]|[H H']]; [tauto| |tauto].
           right. split; [left; reflexivity|]. exists line. split; assumption.
        -- intros [H|[[->|H] H']]; [tauto|tauto|tauto].
      * assert (Hn : forall line', Some (Line line) = Some (Line line') ->
                  ~ removable (normalize_space line')).
        { intros line' [= <-] Hr. apply removable_test in Hr. congruence. }
        destruct (negb _); exact (Hskip _ Hf Hn).
    + subst found. cbn in Hs. contradiction.
    + apply (Hskip _ Hf). intros line [=].
Qed.

Lemma find_loop_other sub_dirs : forall result removed found job,
  find_loop state_file delete delete_non_state sub_dirs result removed
  = mkFound path found.1 (Some found.2) ->
  job ∉ name <$> sub_dirs ->
  found.2 !! job = result !! job.
Proof using Type.
  induction sub_dirs as [|d ds IH]; intros result removed found job.
  - cbn. intros [= _ <-] _. reflexivity.
  - rewrite find_loop_cons. rewrite fmap_cons, not_elem_of_cons. intros Hf [Hn Hj].
    destruct (state_of state_file d) as [[line|]|]; [|discriminate|exact (IH _ _ _ _ Hf Hj)].
    cbn zeta in Hf. destruct (bool_decide _ || _); [exact (IH _ _ _ _ Hf Hj)|].
    destruct (negb _); [|exact (IH _ _ _ _ Hf Hj)].
    rewrite (IH _ _ _ _ Hf Hj). apply lookup_insert_ne. congruence.
Qed.

Lemma find_loop_sound sub_dirs : forall result removed found job state,
  find_loop state_file delete delete_non_state sub_dirs result removed
  = mkFound path found.1 (Some found.2) ->
  found.2 !! job = Some state ->
  result !! job = Some state
  \/ exists sub_dir, sub_dir ∈ sub_dirs /\ name sub_dir = job /\ reported sub_dir state.
Proof using Type.
  induction sub_dirs as [|d ds IH]; intros result removed found job state.
  - cbn. intros [= _ <-] H. left. exact H.
  - rewrite find_loop_cons. intros Hf Hj.
    assert (Hskip : forall result removed,
              find_loop state_file delete delete_non_state ds result removed
              = mkFound path found.1 (Some found.2) ->
              result !! job = Some state
              \/ exists sub_dir, sub_dir ∈ d :: ds /\ name sub_dir = job
                                 /\ reported sub_dir state).
    { intros r rm Hr. destruct (IH r rm found job state Hr Hj) as [H|[x [Hx H]]].
      - left. exact H.
      - right. exists x. split; [right; exact Hx|exact H]. }
    destruct (state_of state_file d) as [[line|]|] eqn:Hd;
      [|discriminate|exact (Hskip _ _ Hf)].
    cbn zeta in Hf. destruct (bool_decide _ || _) eqn:Ht; [exact (Hskip _ _ Hf)|].
    destruct (negb _) eqn:He; [|exact (Hskip _ _ Hf)].
    destruct (IH _ _ found job state Hf Hj) as [H|[x [Hx H]]].
    + destruct (decide (job = name d)) as [->|Hne].
      * rewrite lookup_insert_eq in H. injection H as <-.
        right. exists d. split; [left|]. split; [reflexivity|].
        exists line. split; [exact Hd|]. split; [reflexivity|]. split.
        -- intros E. rewrite E in He. discriminate.
        -- intros Hr. apply removable_test in Hr. congruence.
      * rewrite lookup_insert_ne in H by congruence. left. exact H.
    + right. exists x. split; [right; exact Hx|exact H].
Qed.

Lemma find_loop_complete sub_dirs : forall result removed found sub_dir state,
  find_loop state_file delete delete_non_state sub_dirs result removed
  = mkFound path found.1 (Some found.2) ->
  NoDup (name <$> sub_dirs) ->
  sub_dir ∈ sub_dirs ->
  reported sub_dir state ->
  found.2 !! name sub_dir = Some state.
Proof using Type.
  induction sub_dirs as [|d ds IH]; intros result removed found sub_dir state.
  - intros _ _ H. inversion H.
  - rewrite find_loop_cons, fmap_cons, NoDup_cons. intros Hf [Hn Hnd] Hin Hrep.
    apply elem_of_cons in Hin as [->|Hin].
    + destruct Hrep as [line [Hd [Hs [He Hr]]]]. rewrite Hd in Hf. cbn zeta in Hf.
      rewrite Hs in Hf.
      destruct (bool_decide _ || _) eqn:Ht;
        [apply removable_test in Ht; contradiction|].
      destruct (String.eqb_spec state ""); [contradiction|]. cbn [negb] in Hf.
      rewrite (find_loop_other ds _ _ found (name d) Hf Hn).
      apply lookup_insert_eq.
    + destruct (state_of state_file d) as [[line|]|];
        [|discriminate|exact (IH _ _ _ _ _ Hf Hnd Hin Hrep)].
      cbn zeta in Hf. destruct (bool_decide _ || _);
        [exact (IH _ _ _ _ _ Hf Hnd Hin Hrep)|].
      destruct (negb _); exact (IH _ _ _ _ _ Hf Hnd Hin Hrep).
Qed.

(** The dictionary that [_find_states] returns. *)
Lemma find_states_reported (path_dir : path) (found_removed : list path)
    (result : gmap string string) job state :
  _find_states path_dir state_file delete delete_non_state
  = mkFound path found_removed (Some result) ->
  let sub_dirs :=
    if is_dir (resolve path_dir) then iterdir (resolve path_dir) else [] in
  NoDup (name <$> sub_dirs) ->
  result !! job = Some state
  <-> exists sub_dir,
        sub_dir ∈ sub_dirs /\ name sub_dir = job /\ reported sub_dir state.
Proof using Type.
  unfold Main._find_states. cbv zeta.
  destruct (is_dir (resolve path_dir)); cbn [negb]; intros Hf Hnd.
  - split.
    + intros Hj.
      destruct (find_loop_sound _ ∅ [] (found_removed, result) job state Hf Hj)
        as [H|H]; [rewrite lookup_empty in H; discriminate|exact H].
    + intros [sub_dir [Hin [<- Hrep]]].
      exact (find_loop_complete _ ∅ [] (found_removed, result) sub_dir state
               Hf Hnd Hin Hrep).
  - injection Hf as <- <-. rewrite lookup_empty. split; [discriminate|].
    intros [x [Hx _]]. inversion Hx.
Qed.

(** The directories that [_find_states] removes. *)
Lemma find_states_removed (path_dir : path) (found_removed : list path)
    (result : gmap string string) sub_dir :
  _find_states path_dir state_file delete delete_non_state
  = mkFound path found_removed (Some result) ->
  let sub_dirs :=
    if is_dir (resolve path_dir) then iterdir (resolve path_dir) else [] in
  sub_dir ∈ found_removed
  <-> sub_dir ∈ sub_dirs
      /\ exists line, state_of state_file sub_dir = Some (Line line)
                      /\ removable (normalize_space line).
Proof using Type.
  unfold Main._find_states. cbv zeta.
  destruct (is_dir (resolve path_dir)); cbn [negb]; intros Hf.
  - rewrite (find_loop_removed _ ∅ [] _ sub_dir Hf) by discriminate.
    cbn [Main.removed]. split; [intros [H|H]; [inversion H|exact H]|tauto].
  - injection Hf as <- <-.
    split; [intros H; inversion H|intros [H _]; inversion H].
Qed.

(** X15. What [_find_states] does with the directories of a job directory
    (whose names are distinct), when it returns: a job is reported in a
    state exactly when a directory of that name has a state file that
    reads as this state, the state is not empty and is not to be removed;
    a directory is removed exactly when its state file reads as a state
    in [delete], or as no state while [delete_non_state] is set.  What is
    no directory or has no state file is neither reported nor removed, and
    a path that is no directory gives the empty dictionary. *)
Theorem find_states_classifies (path_dir : path) (found_removed : list path)
    (result : gmap string string) :
  _find_states path_dir state_file delete delete_non_state
  = mkFound path found_removed (Some result) ->
  let sub_dirs :=
    if is_dir (resolve path_dir) then iterdir (resolve path_dir) else [] in
  NoDup (name <$> sub_dirs) ->
  (forall job state,
     result !! job = Some state
     <-> exists sub_dir,
           sub_dir ∈ sub_dirs /\ name sub_dir = job /\ reported sub_dir state)
  /\ (forall sub_dir,
        sub_dir ∈ found_removed
        <-> sub_dir ∈ sub_dirs
            /\ exists line, state_of state_file sub_dir = Some (Line line)
                            /\ removable (normalize_space line)).
Proof using Type.
  intros Hf sub_dirs Hnd. split.
  - intros job state. exact (find_states_reported path_dir _ _ job state Hf Hnd).
  - intros sub_dir. exact (find_states_removed path_dir _ _ sub_dir Hf).
Qed.

(** X16. [_find_states] returns a dictionary exactly when every state
    file it opens can be read.  The handler of an unreadable state file
    calls [LOGGER.exeception], which the logger does not have, so the
    function raises [AttributeError] instead of going on without the job. *)
Theorem find_states_raises (path_dir : path) :
  states path (_find_states path_dir state_file delete delete_non_state) = None
  <-> is_dir (resolve path_dir) = true
      /\ exists sub_dir,
           sub_dir ∈ iterdir (resolve path_dir)
           /\ state_of state_file sub_dir = Some Unreadable.
Proof using Type.
  unfold Main._find_states. destruct (is_dir (resolve path_dir)); cbn [negb].
  - rewrite find_loop_raises. tauto.
  - cbn. split; [discriminate|]. intros [H _]. discriminate.
Qed.

End Loop.
Lemma insert_sorted_perm x l : insert_sorted x l ≡ₚ x :: l.
Proof using Type.
  induction l as [|y l IH]; [reflexivity|]. cbn.
  destruct (String.leb x y); [reflexivity|]. rewrite IH. apply Permutation_swap.
Qed.

Lemma sorted_perm l : sorted l ≡ₚ l.
Proof using Type.
  induction l as [|x l IH]; [reflexivity|]. cbn.
  rewrite insert_sorted_perm, IH. reflexivity.
Qed.

Lemma jobs_in_elem accept (states : gmap string string) job :
  job ∈ jobs_in accept states
  <-> exists state, states !! job = Some state /\ accept state = true.
Proof using Type.
  unfold jobs_in. rewrite sorted_perm, list_elem_of_omap. split.
  - intros [[k st] [Hin Hk]]. apply elem_of_map_to_list in Hin. cbn in Hk.
    destruct (accept st) eqn:Ha; [|discriminate]. injection Hk as <-.
    exists st. split; assumption.
  - intros [st [Hs Ha]]. exists (job, st). split; [apply elem_of_map_to_list; exact Hs|].
    cbn. rewrite Ha. reflexivity.
Qed.

Lemma short_list_elems (l : list string) x y :
  (1 <? Z.of_nat (length l)) = false -> x ∈ l -> y ∈ l -> x = y.
Proof using Type.
  intros Hl Hx Hy. apply Z.ltb_ge in Hl.
  destruct l as [|a [|b l]]; [inversion Hx| |cbn in Hl; lia].
  apply list_elem_of_singleton in Hx, Hy. congruence.
Qed.

Local Abbreviation reported' sf :=
  (Main.reported path joinpath is_dir is_file read_first_line normalize_space
     sf ["finished"] false).

(** X17. [main] starts one crawl at a time.  When it executes the crawl
    command (the names in the job directory being distinct), no job of the
    directory is in the state ["running"], at most one is in a resumable
    state, and the command runs the spider in the directory of that job,
    or, if there is none, in a new directory named after the time. *)
Theorem main_exclusive (args : Args) (settings : Settings) (command : list string) :
  let job_dir := job_dir_path args settings in
  let state_file := default ".state" (given (STATE_TAG_FILE settings)) in
  let sub_dirs :=
    if is_dir (resolve job_dir) then iterdir (resolve job_dir) else [] in
  NoDup (name <$> sub_dirs) ->
  ending path (main args settings) = Executed command ->
  (forall d, d ∈ sub_dirs -> ~ reported' state_file d "running")
  /\ (forall d1 d2 s1 s2,
        d1 ∈ sub_dirs -> d2 ∈ sub_dirs ->
        s1 ∈ RESUMABLE_STATES -> s2 ∈ RESUMABLE_STATES ->
        reported' state_file d1 s1 -> reported' state_file d2 s2 ->
        name d1 = name d2)
  /\ exists job_tag,
       command
       = [ "scrapy"; "crawl"; spider args; "--output";
           path_str (out_file path Path resolve joinpath args settings);
           "--set"; "JOBDIR=" +:+ path_str (joinpath job_dir job_tag);
           "--set";
           "DONT_RUN_BEFORE_FILE=" +:+ path_str (joinpath job_dir ".dont_run_before") ]
       /\ ((exists d s,
              d ∈ sub_dirs /\ s ∈ RESUMABLE_STATES /\ reported' state_file d s
              /\ job_tag = name d)
           \/ ((forall d s, d ∈ sub_dirs -> s ∈ RESUMABLE_STATES ->
                  ~ reported' state_file d s)
               /\ job_tag = strftime now_starting DATE_FORMAT)).
Proof using Type.
  intros job_dir state_file sub_dirs Hnd. unfold Main.main. cbn [ending].
  fold job_dir. fold state_file.
  destruct (_find_states job_dir state_file ["finished"] false) as [rm [st|]] eqn:Hf;
    cbn [states]; [|discriminate].
  assert (Hst : forall job state,
            st !! job = Some state
            <-> exists sub_dir,
                  sub_dir ∈ sub_dirs /\ name sub_dir = job
                  /\ reported' state_file sub_dir state)
    by (intros job state;
        exact (find_states_reported state_file ["finished"] false job_dir rm st
                 job state Hf Hnd)).
  destruct (1 <? Z.of_nat (length (jobs_in _ st))) eqn:Hr1; [discriminate|].
  destruct (jobs_in (fun state => String.eqb state "running") st) as [|job l] eqn:Hrun;
    [|discriminate].
  destruct (1 <? Z.of_nat (length (jobs_in _ st))) eqn:Hr2; [discriminate|].
  intros [= <-].
  assert (Hres : forall d s, d ∈ sub_dirs -> s ∈ RESUMABLE_STATES ->
            reported' state_file d s ->
            name d ∈ jobs_in (fun state => bool_decide (state ∈ RESUMABLE_STATES)) st).
  { intros d s Hd Hs Hrep. apply jobs_in_elem. exists s. split.
    - apply Hst. exists d. auto.
    - apply bool_decide_eq_true. exact Hs. }
  split; [|split].
  - intros d Hd Hrep.
    assert (Hin : name d ∈ jobs_in (fun state => String.eqb state "running") st).
    { apply jobs_in_elem. exists "running". split; [|reflexivity].
      apply Hst. exists d. auto. }
    rewrite Hrun in Hin. inversion Hin.
  - intros d1 d2 s1 s2 Hd1 Hd2 Hs1 Hs2 Hrep1 Hrep2.
    exact (short_list_elems _ _ _ Hr2 (Hres d1 s1 Hd1 Hs1 Hrep1) (Hres d2 s2 Hd2 Hs2 Hrep2)).
  - destruct (jobs_in (fun state => bool_decide (state ∈ RESUMABLE_STATES)) st)
      as [|job l] eqn:Hresum.
    + exists (strftime now_starting DATE_FORMAT). split; [reflexivity|]. right.
      split; [|reflexivity]. intros d s Hd Hs Hrep.
      pose proof (Hres d s Hd Hs Hrep) as Hin. inversion Hin.
    + exists job. split; [reflexivity|]. left.
      assert (Hin : job ∈ jobs_in (fun state => bool_decide (state ∈ RESUMABLE_STATES)) st)
        by (rewrite Hresum; left).
      apply jobs_in_elem in Hin as [s [Hs Ha]]. apply bool_decide_eq_true in Ha.
      apply Hst in Hs as [d [Hd [Hn Hrep]]]. exists d, s. auto.
Qed.

(** X18. [main] clears away the finished jobs: unless [_find_states]
    raises, the directories that a run of [main] removes are exactly the
    directories of the job directory whose state file reads ["finished"]. *)
Theorem main_removes_finished (args : Args) (settings : Settings) (sub_dir : path) :
  let job_dir := job_dir_path args settings in
  let state_file := default ".state" (given (STATE_TAG_FILE settings)) in
  ending path (main args settings) <> Raised_AttributeError ->
  sub_dir ∈ removed_jobs path (main args settings)
  <-> is_dir (resolve job_dir) = true
      /\ sub_dir ∈ iterdir (resolve job_dir)
      /\ exists line,
           state_of state_file sub_dir = Some (Line line)
           /\ normalize_space line = "finished".
Proof using Type.
  intros job_dir state_file. unfold Main.main. cbn [ending removed_jobs].
  fold job_dir. fold state_file. unfold Main._find_states.
  destruct (is_dir (resolve job_dir)); cbn [negb].
  - intros Hne.
    rewrite (find_loop_removed state_file ["finished"] false _ ∅ [] _ sub_dir eq_refl).
    + split.
      * intros [H|[Hin [line [Hs Hr]]]]; [inversion H|].
        split; [reflexivity|]. split; [exact Hin|]. exists line. split; [exact Hs|].
        destruct Hr as [Hr|[Hr _]]; [|discriminate].
        apply list_elem_of_singleton in Hr. exact Hr.
      * intros [_ [Hin [line [Hs Hr]]]]. right. split; [exact Hin|].
        exists line. split; [exact Hs|]. left. rewrite Hr. left.
    + intros Hs. apply Hne. rewrite Hs. reflexivity.
  - intros _. cbn. split; [intros H; inversion H|intros [H _]; discriminate].
Qed.

End MainFacts.

(** ** Further runs on concrete input *)

Import Regex Main Items.

(** A number as the name of a game: [clean] raises the type error. *)
Lemma clean_failure_witness :
  (exists key f raw,
     fields (@GameItem ref) !! key = Some f
     /\ (list_to_map [("name", VInt 5)] : gmap string pyval) !! key = Some raw
     /\ truthy raw = true
     /\ assigned (U := ref) key f raw
        = Raise (ValueError
            "field <name> requires type <class 'str'> but found type <class 'int'>"))
  /\ (ValueError "field <name> requires type <class 'str'> but found type <class 'int'>"
      = AssertionError
      \/ exists msg,
           ValueError "field <name> requires type <class 'str'> but found type <class 'int'>"
           = ValueError msg).
Proof.
  refine (clean_failure (U := ref) GameItem (list_to_map [("name", VInt 5)]) _ _).
  vm_compute. reflexivity.
Defined.

(** The record of a mapping with a falsy and an undeclared entry. *)
Lemma clean_keeps_declared_truthy_witness :
  (list_to_map [("name", VStr "Catan"); ("year", VInt 1995)] : Item) !! "year"
  = Some (VInt 1995)
  <-> exists raw f,
        (list_to_map [("name", VStr "Catan"); ("year", VStr "1995");
                      ("url", VStr ""); ("bogus", VStr "x")] : gmap string pyval)
          !! "year" = Some raw
        /\ truthy raw = true
        /\ fields (@GameItem ref) !! "year" = Some f
        /\ assigned (U := ref) "year" f raw = Ok (VInt 1995).
Proof.
  refine (clean_keeps_declared_truthy (U := ref) GameItem
            (list_to_map [("name", VStr "Catan"); ("year", VStr "1995");
                          ("url", VStr ""); ("bogus", VStr "x")])
            (list_to_map [("name", VStr "Catan"); ("year", VInt 1995)]) _
            "year" (VInt 1995)).
  vm_compute. reflexivity.
Defined.

(** A mapping with an undeclared key. *)
Lemma undeclared_key_witness :
  (exists e,
     Item_init (U := ref) (@GameItem ref)
       (list_to_map [("name", VStr "Catan"); ("bogus", VStr "x")]) = Raise e)
  /\ clean (U := ref) (@GameItem ref)
       (list_to_map [("name", VStr "Catan"); ("bogus", VStr "x")])
     = clean (U := ref) (@GameItem ref)
         (delete "bogus" (list_to_map [("name", VStr "Catan"); ("bogus", VStr "x")])).
Proof.
  refine (undeclared_key (U := ref) GameItem
            (list_to_map [("name", VStr "Catan"); ("bogus", VStr "x")])
            "bogus" (VStr "x") _ _); reflexivity.
Defined.

(** The same mapping with and without an undeclared key. *)
Lemma parse_reads_declared_only_witness :
  parse (U := ref) (@GameItem ref)
    (list_to_map [("name", VStr "Catan"); ("year", VStr "1995")])
  = parse (U := ref) (@GameItem ref)
      (<["bogus" := VStr "x"]> (list_to_map [("name", VStr "Catan"); ("year", VStr "1995")])).
Proof.
  refine (parse_reads_declared_only (U := ref) GameItem _ _ _).
  intros key [f Hf]. destruct (decide (key = "bogus")) as [->|Hne].
  - vm_compute in Hf. discriminate Hf.
  - rewrite lookup_insert_ne by congruence. reflexivity.
Defined.

(** The record of the example row, parsed again: the fields that hold
    [None] are gone. *)
Lemma parse_twice_witness :
  parse (U := ref) (@GameItem ref)
    (list_to_map
       [ ("name", VStr "Catan"); ("year", VInt 1995);
         ("alt_name", VList [VStr "Die Siedler"; VStr "Settlers"]);
         ("cooperative", VBool false); ("compilation", VBool false);
         ("avg_rating", VFloat 7.25); ("publisher", VNone) ])
  = Ok (filter (fun kv : string * pyval => is_none kv.2 || eq_empty_str kv.2 = false)
          (list_to_map
             [ ("name", VStr "Catan"); ("year", VInt 1995);
               ("alt_name", VList [VStr "Die Siedler"; VStr "Settlers"]);
               ("cooperative", VBool false); ("compilation", VBool false);
               ("avg_rating", VFloat 7.25); ("publisher", VNone) ])).
Proof.
  exact (proj1 (parse_twice (U := ref) GameItem _ _ (or_introl eq_refl) parse_row)).
Defined.

(** The record of a count given as text. *)
Lemma clean_fully_typed_witness :
  fully_typed (@GameItem ref)
    (list_to_map [("name", VStr "Catan"); ("num_votes", VInt 0)]).
Proof.
  refine (clean_fully_typed (U := ref) GameItem
            (list_to_map [("name", VStr "Catan"); ("num_votes", VStr "0")]) _
            (or_introl eq_refl) _).
  vm_compute. reflexivity.
Defined.

(** Two candidates of [min_players], the first out of range. *)
Lemma processors_independent_witness :
  arg_to_iter (POS_INT_PROCESSOR (U := ref) (VList ([VStr "0"] ++ [VStr "2"])))
  = (arg_to_iter (POS_INT_PROCESSOR (U := ref) (VList [VStr "0"]))
     ++ arg_to_iter (POS_INT_PROCESSOR (U := ref) (VList [VStr "2"])))%list.
Proof.
  exact (proj2 (proj2 (processors_independent (U := ref)
           (mkRanged POS_INT_PROCESSOR parse_int (Some (VInt 1)) None false)
           [VStr "0"] [VStr "2"] (or_introl eq_refl)))).
Defined.

(** The request for the images of the example game, failed. *)
Lemma context_round_trip_witness :
  _extract_item None
    (deliver {| url := "http://api/game/images"; callback := (parse_images, catan);
                errback := (parse_images, catan);
                meta := {| meta_item := Some catan;
                           game_requests := Some (tail game_queue) |} |} Failed)
  = catan
  /\ _extract_requests
       (deliver {| url := "http://api/game/images"; callback := (parse_images, catan);
                   errback := (parse_images, catan);
                   meta := {| meta_item := Some catan;
                              game_requests := Some (tail game_queue) |} |} Failed)
     = Some (tail game_queue).
Proof.
  pose proof (context_round_trip catan "http://api/game/images" parse_images
                (tail game_queue) _ Failed eq_refl) as H.
  exact (conj (proj1 (proj2 (proj2 H))) (proj2 (proj2 (proj2 (proj2 H))))).
Defined.

(** The failed request for the videos of the example game. *)
Lemma empty_stage_reloads_record_witness :
  Bga.respond (U := ref) (@BgaGameItem ref) input_default output_default
    {| url := "http://api/game/videos"; callback := (parse_videos, catan);
       errback := (parse_videos, catan);
       meta := {| meta_item := Some catan;
                  game_requests := Some [("http://api/game/reviews", parse_reviews)] |} |}
    Failed
  = (item' <-- Loaders.load_item (U := ref) (@BgaGameItem ref) output_default
                 (GameJsonLoader catan (VDict [])) ;;
     Ok (_next_request_or_item item' (Some [("http://api/game/reviews", parse_reviews)]))).
Proof.
  refine (proj1 (empty_stage_reloads_record (U := ref) BgaGameItem input_default
                   output_default parse_videos catan "http://api/game/videos"
                   [("http://api/game/reviews", parse_reviews)] Failed list_field
                   _ _ _ _)); reflexivity.
Defined.

(** The name of the example game after its chain of three requests. *)
Lemma crawl_reloads_other_fields_witness :
  exists w,
    reloaded_times (U := ref) (@BgaGameItem ref) output_default 3 "name" (VStr "Catan")
    = Ok w
    /\ (list_to_map
          [ ("name", VStr "Catan"); ("bga_id", VStr "OIXt3DmJU0");
            ("image_url", VList [VStr "http://img/1.jpg"; VStr "http://img/1t.jpg"]);
            ("review_url", VList [VStr "http://rev/1"; VStr "http://rev/2"]) ] : Item)
         !! "name"
       = Some w.
Proof.
  refine (crawl_reloads_other_fields (U := ref) BgaGameItem input_default output_default
            [Delivered images_body; Failed; Delivered reviews_body] game_queue catan
            _ (OutItem _) "name" chain_run _).
  vm_compute. intros H. repeat (apply elem_of_cons in H as [H|H]; [discriminate H|]).
  inversion H.
Defined.

(** A list with a repetition, loaded again. *)
Example reloaded_runs :
  reloaded (U := ref) (@BgaGameItem ref) output_default
    "designer" (VList [VStr "x"; VStr "x"])
  = Ok (VList [VStr "x"])
  /\ reloaded (U := ref) (@BgaGameItem ref) output_default "name" (VStr "Catan")
     = Ok (VStr "Catan").
Proof. split; vm_compute; reflexivity. Qed.

(** The chain of the example game with every stage switched on. *)
Lemma game_chain_witness :
  (exists final,
     OutItem
       (list_to_map
          [ ("name", VStr "Catan"); ("bga_id", VStr "OIXt3DmJU0");
            ("image_url", VList [VStr "http://img/1.jpg"; VStr "http://img/1t.jpg"]);
            ("review_url", VList [VStr "http://rev/1"; VStr "http://rev/2"]) ])
     = OutItem final)
  /\ [ "http://api/game/images"; "http://api/game/videos"; "http://api/game/reviews" ]
     = (_game_requests true true true Fixtures.game_api_url (VStr "OIXt3DmJU0")).*1.
Proof.
  assert (Hlen : (3 <= length [Delivered images_body; Failed; Delivered reviews_body])%nat)
    by (cbn; lia).
  pose proof (game_chain (U := ref) BgaGameItem input_default output_default
                true true true Fixtures.game_api_url (VStr "OIXt3DmJU0") catan
                [Delivered images_body; Failed; Delivered reviews_body] _ _
                Hlen chain_run) as H.
  exact (conj (proj1 H) (proj1 (proj2 H))).
Defined.

Local Abbreviation api := "https://www.boardgameatlas.com/api".
Local Abbreviation _api_url :=
  (BgaApi._api_url Fixtures.quote_plus Fixtures.str api (VStr "SB1VGnDv7M")).
Local Abbreviation urlencode := (BgaApi.urlencode Fixtures.quote_plus Fixtures.str).

(** The URL of the first page of games. *)
Example api_url_run :
  _api_url "search" (Some [("order-by", VStr "popularity"); ("skip", VInt 0)])
  = "https://www.boardgameatlas.com/api/search?client_id=SB1VGnDv7M&limit=100&order-by=popularity&skip=0".
Proof. run. Qed.

(** The quoting of a text with a space and reserved characters. *)
Example quote_plus_run :
  Fixtures.quote_plus "a b&c=d/e~f" = "a+b%26c%3Dd%2Fe~f".
Proof. run. Qed.

(** A query filled in two orders. *)
Lemma api_url_canonical_witness :
  _api_url "search" (Some [("order-by", VStr "popularity"); ("skip", VInt 100)])
  = _api_url "search" (Some [("skip", VInt 100); ("order-by", VStr "popularity")]).
Proof.
  refine (api_url_canonical Fixtures.quote_plus Fixtures.str api (VStr "SB1VGnDv7M")
            "search" _ _ _ _).
  - apply NoDup_cons. split; [|apply NoDup_singleton].
    intros H. apply list_elem_of_singleton in H. discriminate H.
  - apply Permutation_swap.
Defined.

(** A query that brings its own [limit]. *)
Lemma api_url_parameters_witness :
  exists items,
    _api_url "reviews" (Some [("limit", VInt 20)])
    = api +:+ "/" +:+ "reviews" +:+ "?" +:+ urlencode items
    /\ StronglySorted (fun x y : string * pyval => String.leb x.1 y.1 = true) items
    /\ NoDup items.*1
    /\ forall k v,
         (k, v) ∈ items
         <-> (k, v) ∈ [("limit", VInt 20)]
             \/ (k = "client_id" /\ v = VStr "SB1VGnDv7M"
                 /\ "client_id" ∉ [("limit", VInt 20)].*1)
             \/ (k = "limit" /\ v = VInt 100 /\ "limit" ∉ [("limit", VInt 20)].*1).
Proof.
  refine (api_url_parameters Fixtures.quote_plus Fixtures.str api (VStr "SB1VGnDv7M")
            "reviews" [("limit", VInt 20)] _).
  apply NoDup_singleton.
Defined.

(** The last expected game, with the numbers of the class. *)
Lemma start_requests_cover_witness :
  exists page,
    page * 100 <= 27499 < page * 100 + 100
    /\ BgaApi.mkStartRequest
         (_api_url "search"
            (Some [("order-by", VStr "popularity"); ("skip", VInt (page * 100))]))
         BgaApi.parse
       ∈ BgaApi.start_requests Fixtures.quote_plus Fixtures.str api 27500 35000
           (VStr "SB1VGnDv7M")
    /\ _api_url "search"
         (Some [("order-by", VStr "popularity"); ("skip", VInt (page * 100))])
       = api +:+ "/" +:+ "search" +:+ "?"
         +:+ urlencode [("client_id", VStr "SB1VGnDv7M"); ("limit", VInt 100);
                        ("order-by", VStr "popularity"); ("skip", VInt (page * 100))].
Proof.
  refine (proj1 (start_requests_cover Fixtures.quote_plus Fixtures.str api 27500 35000
                   (VStr "SB1VGnDv7M") _ _) 27499 _); lia.
Defined.

(** A players cell with two separators. *)
Example parse_game_three :
  Luding.parse_game (U := ref) input_default output_default
    Reference.urljoin Reference.extract_query_param Reference.extract_bgg_id
    (luding_page (Some "2-4-6"))
  = Ok (list_to_map
          [ ("name", VStr "Catan"); ("year", VInt 1995);
            ("game_type", VStr "Brettspiel");
            ("designer", VList [VStr "Klaus Teuber"]);
            ("publisher", VList [VStr "Kosmos"]);
            ("url", VStr "http://www.kosmos.de");
            ("image_url", VList [VStr "http://luding.org/images/catan.jpg"]);
            ("external_link", VList [VStr "http://boardgamegeek.com/boardgame/13"]);
            ("min_players", VInt 2); ("max_players", VInt 6); ("min_age", VInt 10);
            ("bgg_id", VInt 13); ("luding_id", VInt 1508) ]).
Proof. run. Qed.

Lemma players_range_witness :
  fed_players (luding_page (Some "2-4-6")) = Ok (VStr "2", VStr "6")
  /\ Loaders.fed_once (U := ref) (@GameItem ref) input_default output_default
       "min_players" (VStr "2") = Ok (Some (VInt 2))
  /\ Loaders.fed_once (U := ref) (@GameItem ref) input_default output_default
       "max_players" (VStr "6") = Ok (Some (VInt 6)).
Proof.
  destruct (players_range (U := ref) input_default output_default
              Reference.urljoin Reference.extract_query_param Reference.extract_bgg_id
              (luding_page (Some "2-4-6")) "2-4-6" eq_refl ltac:(discriminate))
    as [Hfed Hitem].
  split; [exact Hfed|].
  exact (Hitem _ parse_game_three).
Defined.

(** The age cell of the example page, and one that spans two lines. *)
Example age_runs :
  age_group "ab 10 Jahren" = Some "10"
  /\ first_number "ab 10 Jahren" = Some "10"
  /\ age_group "8-12" = Some "8"
  /\ age_group "Kinder" = None
  /\ age_group (String "8" (String "010" "12")) = None
  /\ age_group (String "8" (String "010" EmptyString)) = Some "8".
Proof. repeat split; vm_compute; reflexivity. Qed.

Local Abbreviation main :=
  (Main.main string (fun s => s) (fun p => p) Fixtures.joinpath Fixtures.name (fun p => p)
     Fixtures.is_dir Fixtures.is_file Fixtures.iterdir Fixtures.read_first_line
     Z Fixtures.normalize_space Fixtures.parse_date Fixtures.timestamp Fixtures.strftime
     0 0).
Local Abbreviation _find_states :=
  (Main._find_states string (fun p => p) Fixtures.joinpath Fixtures.name
     Fixtures.is_dir Fixtures.is_file Fixtures.iterdir Fixtures.read_first_line
     Fixtures.normalize_space).
Local Abbreviation state_of :=
  (Main.state_of string Fixtures.joinpath Fixtures.is_dir Fixtures.is_file
     Fixtures.read_first_line).
Local Abbreviation reported :=
  (Main.reported string Fixtures.joinpath Fixtures.is_dir Fixtures.is_file
     Fixtures.read_first_line Fixtures.normalize_space).

(** The job directory of the example: the finished job is removed, the
    job that was shut down is reported. *)
Example find_states_run :
  _find_states Fixtures.jobs ".state" ["finished"] false
  = mkFound string ["/base/jobs/bga/2020-01-01"]
      (Some (<["2020-02-02" := "shutdown"]> ∅)).
Proof. run. Qed.

(** [main] on the example: it resumes the job that was shut down. *)
Example main_run :
  main Fixtures.args Fixtures.settings
  = mkRun string None ["/base/jobs/bga/2020-01-01"]
      (Executed
         [ "scrapy"; "crawl"; "bga"; "--output";
           "/base/feeds/%(name)s/%(class)s/%(time)s.jl";
           "--set"; "JOBDIR=/base/jobs/bga/2020-02-02";
           "--set"; "DONT_RUN_BEFORE_FILE=/base/jobs/bga/.dont_run_before" ]).
Proof. run. Qed.

(** The names in the job directory of the example are distinct. *)
Lemma example_names :
  NoDup (Fixtures.name
           <$> (if Fixtures.is_dir Fixtures.jobs then Fixtures.iterdir Fixtures.jobs
                else [])).
Proof. refine (bool_decide_unpack _ _). vm_compute. exact I. Qed.

(** The two jobs of the example. *)
Lemma find_states_classifies_witness :
  ((<["2020-02-02" := "shutdown"]> ∅ : gmap string string) !! "2020-02-02"
   = Some "shutdown"
   <-> exists sub_dir,
         sub_dir ∈ (if Fixtures.is_dir Fixtures.jobs then Fixtures.iterdir Fixtures.jobs
                    else [])
         /\ Fixtures.name sub_dir = "2020-02-02"
         /\ reported ".state" ["finished"] false sub_dir "shutdown")
  /\ ("/base/jobs/bga/2020-01-01" ∈ ["/base/jobs/bga/2020-01-01"]
      <-> "/base/jobs/bga/2020-01-01"
            ∈ (if Fixtures.is_dir Fixtures.jobs then Fixtures.iterdir Fixtures.jobs
               else [])
          /\ exists line,
               state_of ".state" "/base/jobs/bga/2020-01-01" = Some (Line line)
               /\ removable ["finished"] false (Fixtures.normalize_space line)).
Proof.
  pose proof (find_states_classifies string (fun p => p) Fixtures.joinpath Fixtures.name
                Fixtures.is_dir Fixtures.is_file Fixtures.iterdir
                Fixtures.read_first_line Fixtures.normalize_space
                ".state" ["finished"] false Fixtures.jobs _ _
                find_states_run example_names) as H.
  exact (conj (proj1 H "2020-02-02" "shutdown") (proj2 H "/base/jobs/bga/2020-01-01")).
Defined.

(** The command of the example run. *)
Lemma main_exclusive_witness :
  exists job_tag,
    [ "scrapy"; "crawl"; "bga"; "--output";
      "/base/feeds/%(name)s/%(class)s/%(time)s.jl";
      "--set"; "JOBDIR=/base/jobs/bga/2020-02-02";
      "--set"; "DONT_RUN_BEFORE_FILE=/base/jobs/bga/.dont_run_before" ]
    = [ "scrapy"; "crawl"; "bga"; "--output";
        "/base/feeds/%(name)s/%(class)s/%(time)s.jl";
        "--set"; "JOBDIR=" +:+ Fixtures.joinpath Fixtures.jobs job_tag;
        "--set"; "DONT_RUN_BEFORE_FILE=/base/jobs/bga/.dont_run_before" ]
    /\ ((exists d s,
           d ∈ Fixtures.iterdir Fixtures.jobs /\ s ∈ RESUMABLE_STATES
           /\ reported ".state" ["finished"] false d s /\ job_tag = Fixtures.name d)
        \/ ((forall d s, d ∈ Fixtures.iterdir Fixtures.jobs -> s ∈ RESUMABLE_STATES ->
               ~ reported ".state" ["finished"] false d s)
            /\ job_tag = "2020-04-04T12-00-00")).
Proof.
  refine (proj2 (proj2
            (main_exclusive string (fun s => s) (fun p => p) Fixtures.joinpath
               Fixtures.name (fun p => p) Fixtures.is_dir Fixtures.is_file
               Fixtures.iterdir Fixtures.read_first_line Z Fixtures.normalize_space
               Fixtures.parse_date Fixtures.timestamp Fixtures.strftime 0 0
               Fixtures.args Fixtures.settings _ example_names _))).
  exact (f_equal (ending string) main_run).
Defined.

(** The finished job of the example is removed. *)
Lemma main_removes_finished_witness :
  "/base/jobs/bga/2020-01-01" ∈ removed_jobs string (main Fixtures.args Fixtures.settings)
  <-> Fixtures.is_dir Fixtures.jobs = true
      /\ "/base/jobs/bga/2020-01-01" ∈ Fixtures.iterdir Fixtures.jobs
      /\ exists line,
           state_of ".state" "/base/jobs/bga/2020-01-01" = Some (Line line)
           /\ Fixtures.normalize_space line = "finished".
Proof.
  refine (main_removes_finished string (fun s => s) (fun p => p) Fixtures.joinpath
            Fixtures.name (fun p => p) Fixtures.is_dir Fixtures.is_file
            Fixtures.iterdir Fixtures.read_first_line Z Fixtures.normalize_space
            Fixtures.parse_date Fixtures.timestamp Fixtures.strftime 0 0
            Fixtures.args Fixtures.settings "/base/jobs/bga/2020-01-01" _).
  rewrite main_run. discriminate.
Defined.
